(** * Account-location extension: request path, result cache and flag lookup

    A shallow embedding of the JavaScript sources of the extension
    (the content-script helpers exercised by [content.test.js], the click
    handler of the integration tests, the popup script and
    [countryFlags.js]) together with the properties stated about them.
    JavaScript strings are sequences of UTF-16 code units, [Map] objects
    live in a heap and are passed by reference, and every function that
    touches the page, the storage mock or the lookup mock is a transformer
    of an explicit [world].  The selector engine of the host is a
    parameter, [SelectorEngine]: all that is taken of it is how it reads
    the selector [a[href=...]] made from a value that stands for itself.
    A selector that does not parse throws, and the exception leaves the
    function and the loop around the call, so the functions that search
    the page come with the way they end.  The request scheduler behind the
    lookup mock is not among the sources; module [Scheduler] models it from
    its specification. *)

From Stdlib Require Import ZArith NArith List Bool Ascii String Lia.
From stdpp Require Import base option list gmap strings.
Import ListNotations.

#[local] Open Scope N_scope.

(** ** JavaScript strings *)

Module Js.

(** A string is its list of UTF-16 code units. *)
Abbreviation jsstring := (list N).

(** An ASCII literal, one code unit per character. *)
Fixpoint lit (s : string) : jsstring :=
  match s with
  | EmptyString => []
  | String c r => N_of_ascii c :: lit r
  end.

(** [s === t] on strings. *)
Definition strictEq (s t : jsstring) : bool := bool_decide (s = t).

(** [s.startsWith(p)], also the CSS attribute selector [[href^="p"]]. *)
Fixpoint startsWith (p s : jsstring) : bool :=
  match p, s with
  | [], _ => true
  | c :: p', d :: s' => (c =? d) && startsWith p' s'
  | _ :: _, [] => false
  end.

(** [s.includes(sub)] *)
Fixpoint includes (sub s : jsstring) : bool :=
  startsWith sub s ||
  match s with
  | [] => false
  | _ :: s' => includes sub s'
  end.

(** [arr.includes(x)] on an array of strings. *)
Definition arrayIncludes (arr : list jsstring) (x : jsstring) : bool :=
  existsb (strictEq x) arr.

(** The code units removed by [String.prototype.trim]: ECMAScript's
    WhiteSpace and LineTerminator productions. *)
Definition isWhiteSpace (c : N) : bool :=
  (c =? 0x09) || (c =? 0x0A) || (c =? 0x0B) || (c =? 0x0C) || (c =? 0x0D) ||
  (c =? 0x20) || (c =? 0xA0) || (c =? 0x1680) ||
  ((0x2000 <=? c) && (c <=? 0x200A)) ||
  (c =? 0x2028) || (c =? 0x2029) || (c =? 0x202F) || (c =? 0x205F) ||
  (c =? 0x3000) || (c =? 0xFEFF).

Fixpoint trimStart (s : jsstring) : jsstring :=
  match s with
  | c :: s' => if isWhiteSpace c then trimStart s' else s
  | [] => []
  end.

Definition trim (s : jsstring) : jsstring :=
  rev (trimStart (rev (trimStart s))).

(** A string is truthy when it is not empty. *)
Definition nonEmpty (s : jsstring) : bool :=
  match s with [] => false | _ => true end.

(** The values kept in extension storage and passed around as modes. *)
Inductive jsval :=
| JUndefined
| JNull
| JBool (b : bool)
| JNum (n : Z)
| JStr (s : jsstring).

Definition truthy (v : jsval) : bool :=
  match v with
  | JUndefined | JNull => false
  | JBool b => b
  | JNum n => negb (n =? 0)%Z
  | JStr s => nonEmpty s
  end.

(** [a || b] where [a] is a property read that may find nothing. *)
Definition orElse (a : option jsval) (b : jsval) : jsval :=
  match a with
  | Some v => if truthy v then v else b
  | None => b
  end.

#[global] Instance jsval_eq_dec : EqDecision jsval.
Proof. solve_decision. Defined.

Definition isHighSurrogate (c : N) : bool := (0xD800 <=? c) && (c <=? 0xDBFF).
Definition isLowSurrogate (c : N) : bool := (0xDC00 <=? c) && (c <=? 0xDFFF).

(** The conversion of a string to a [USVString], which is also
    [String.prototype.toWellFormed]: a surrogate that is not half of a pair
    becomes U+FFFD. *)
Fixpoint toWellFormed (s : jsstring) : jsstring :=
  match s with
  | [] => []
  | c :: s' =>
      if isHighSurrogate c then
        match s' with
        | d :: s'' =>
            if isLowSurrogate d then c :: d :: toWellFormed s''
            else 0xFFFD :: toWellFormed s'
        | [] => [0xFFFD]
        end
      else if isLowSurrogate c then 0xFFFD :: toWellFormed s'
      else c :: toWellFormed s'
  end.

(** [s.isWellFormed()] *)
Definition isWellFormed (s : jsstring) : bool := strictEq (toWellFormed s) s.

End Js.

Import Js.

(** ** The storage mock shared by the content script and the popup *)

Module Storage.

(** [mockStorage], the [Map] behind [chrome.storage.local]. *)
Abbreviation storage := (gmap jsstring jsval).

(** The one key for which an assignment [result[key] = value] to an
    object literal makes no property of the object: it sets the prototype,
    or does nothing. *)
Definition PROTO : jsstring := lit "__proto__".

(** [chrome.storage.local.get(keys)]: the own properties of the result
    object, which are the requested keys that are stored, [__proto__]
    apart. *)
Definition get (keys : list jsstring) (st : storage) : gmap jsstring jsval :=
  foldl (fun result key =>
           match st !! key with
           | Some v => if strictEq key PROTO then result else <[key := v]> result
           | None => result
           end) ∅ keys.

(** [chrome.storage.local.set(items)] *)
Definition set (items : list (jsstring * jsval)) (st : storage) : storage :=
  foldl (fun m kv => <[fst kv := snd kv]> m) st items.

End Storage.

(** ** The content-script helpers of [content.test.js] *)

Module Content.

Definition MODE_KEY : jsstring := lit "display_mode".
Definition MODE_AUTO : jsstring := lit "auto".
Definition MODE_MANUAL : jsstring := lit "manual".

(** *** Location data and cache entries *)

(** The object a lookup resolves with.  String fields may be absent. *)
Record locationInfo := LocationInfo {
  location : option jsstring;
  locationFlag : option jsstring;
  source : option jsstring;
  sourceFlag : option jsstring;
  sourceCountry : option jsstring;
  locationAccurate : bool;
  isVpn : bool;
  learnMoreUrl : option jsstring
}.

(** A value of the location cache: the fields of a [locationInfo] and an
    [expiry] timestamp in milliseconds, absent on entries written without
    one. *)
Record cacheEntry := CacheEntry {
  info : locationInfo;
  expiry : option Z
}.

(** *** The page *)

Record anchor := Anchor {
  href : jsstring;
  textContent : jsstring
}.

(** The page is kept to the shape [createMockTwitterContainer] builds and
    the helpers decorate: the user-name element of a container is a row of
    children, each a section holding links or one of the elements the
    helpers create (location button, loading shimmer, error indicator, flag
    wrapper).  Buttons and shimmers carry an identity because they are later
    replaced by reference. *)
Inductive node :=
| Div (links : list anchor)
| LocationButton (id : nat) (screenName : jsstring)
| LoadingShimmer (id : nat)
| ErrorIndicator
| FlagWrapper (text : jsstring).

(** A tweet article or user cell: its [dataset.flagAdded] marker and the
    children of its first [User-Name] element, if it has one. *)
Record container := Container {
  flagAdded : option jsstring;
  userName : option (list node)
}.

(** The children of [document.body]: containers, and elements appended to
    the body directly. *)
Inductive bodyChild :=
| Tweet (c : container)
| Loose (n : node).

(** *** The world *)

(** [mockLocationCache] is the [Map] at address 0 of the heap. *)
Definition mockLocationCache : nat := 0%nat.

Record world := World {
  document : list bodyChild;
  heap : gmap nat (gmap jsstring cacheEntry);
  mockStorage : gmap jsstring jsval;
  requestQueueForTest : list jsstring;
  nextId : nat;
  clock : Z
}.

Definition setDocument (d : list bodyChild) (w : world) : world :=
  World d (heap w) (mockStorage w) (requestQueueForTest w) (nextId w) (clock w).
Definition setHeap (h : gmap nat (gmap jsstring cacheEntry)) (w : world) : world :=
  World (document w) h (mockStorage w) (requestQueueForTest w) (nextId w) (clock w).
Definition setMockStorage (st : gmap jsstring jsval) (w : world) : world :=
  World (document w) (heap w) st (requestQueueForTest w) (nextId w) (clock w).
Definition setRequestQueueForTest (q : list jsstring) (w : world) : world :=
  World (document w) (heap w) (mockStorage w) q (nextId w) (clock w).
Definition setNextId (n : nat) (w : world) : world :=
  World (document w) (heap w) (mockStorage w) (requestQueueForTest w) n (clock w).
Definition setClock (t : Z) (w : world) : world :=
  World (document w) (heap w) (mockStorage w) (requestQueueForTest w) (nextId w) t.

(** The [Map] a reference points to; a reference never written reads as a
    new, empty [Map]. *)
Definition getMap (r : nat) (h : gmap nat (gmap jsstring cacheEntry)) : gmap jsstring cacheEntry :=
  default ∅ (h !! r).

(** *** Mode storage *)

Definition saveMode (mode : jsval) (w : world) : world :=
  setMockStorage (Storage.set [(MODE_KEY, mode)] (mockStorage w)) w.

Definition loadMode (w : world) : jsval * world :=
  let result := Storage.get [MODE_KEY] (mockStorage w) in
  (orElse (result !! MODE_KEY) (JStr MODE_AUTO), w).

(** *** Cache expiry and cache writes *)

(** [isCacheEntryExpired(cacheEntry)], with [now] the value of
    [Date.now()].  [None] is a [null] or [undefined] entry. *)
Definition isCacheEntryExpired (now : Z) (entry : option cacheEntry) : bool :=
  match entry with
  | None => true
  | Some e =>
      match expiry e with
      | None => true
      | Some t => if (t =? 0)%Z then true else (t <=? now)%Z
      end
  end.

Definition CACHE_EXPIRY_DAYS : Z := 30.

(** [saveCacheEntry(username, location, cache)]; returns the [Map] it was
    given. *)
Definition saveCacheEntry (username : jsstring) (loc : locationInfo)
    (cache : nat) (w : world) : nat * world :=
  let now := clock w in
  let expiry := (now + CACHE_EXPIRY_DAYS * 24 * 60 * 60 * 1000)%Z in
  (cache,
   setHeap (<[cache := <[username := CacheEntry loc (Some expiry)]>
                         (getMap cache (heap w))]> (heap w)) w).

(** *** Finding the screen name of a container *)

Definition excludedRoutes : list jsstring :=
  map lit ["home"; "explore"; "notifications"; "messages"; "i"; "compose";
           "search"; "settings"]%string.

Definition slash : N := 47.
Definition questionMark : N := 63.
Definition atSign : N := 64.

(** The links below a list of elements, in document order. *)
Definition anchorsOf (kids : list node) : list anchor :=
  flat_map (fun n => match n with Div links => links | _ => [] end) kids.

(** The longest prefix without [/] or [?]: the class [[^\/\?]+]. *)
Fixpoint segment (s : jsstring) : jsstring :=
  match s with
  | c :: s' => if (c =? slash) || (c =? questionMark) then [] else c :: segment s'
  | [] => []
  end.

(** [href.match(/^\/([^\/\?]+)/)], giving the captured group. *)
Definition matchUsername (h : jsstring) : option jsstring :=
  match h with
  | c :: rest =>
      if c =? slash then
        match segment rest with
        | [] => None
        | seg => Some seg
        end
      else None
  | [] => None
  end.

(** The loop over the links of [extractUsernameFromContainer]. *)
Fixpoint firstUsername (links : list anchor) : option jsstring :=
  match links with
  | [] => None
  | link :: links' =>
      match matchUsername (href link) with
      | Some username =>
          if negb (arrayIncludes excludedRoutes username)
             && (0 <? length username)%nat && (length username <? 20)%nat
          then Some username
          else firstUsername links'
      | None => firstUsername links'
      end
  end.

Definition extractUsernameFromContainer (c : container) : option jsstring :=
  match userName c with
  | None => None
  | Some kids =>
      firstUsername
        (List.filter (fun a => startsWith [slash] (href a)) (anchorsOf kids))
  end.

(** *** The selector engine *)

Definition quote : N := 34.
Definition backslash : N := 92.

(** The template literal [a[href=...]] with [value] between the two
    double quotes. *)
Definition hrefSelector (value : jsstring) : jsstring :=
  lit "a[href=" ++ [quote] ++ value ++ [quote] ++ lit "]".

(** The values that stand for themselves between the double quotes of a
    selector: no double quote, which would end the string, no backslash,
    which starts an escape, no line break and no NUL, which the CSS
    tokenizer rejects or replaces, and no lone surrogate. *)
Definition selectorSafe (value : jsstring) : bool :=
  isWellFormed value
  && forallb (fun c => negb ((c =? quote) || (c =? backslash) || (c =? 0x0A)
                             || (c =? 0x0C) || (c =? 0x0D) || (c =? 0))) value.

(** What [section.querySelector(selector)] gives: the first link of the
    section that the selector selects, if any, or a [SyntaxError] for a
    selector that does not parse. *)
Inductive selected :=
| Selected (link : option anchor)
| SyntaxError.

(** [querySelector] belongs to the host, not to the sources.  It is a
    parameter, of which one thing is taken for granted: an attribute
    selector written with a value that stands for itself selects the links
    whose [href] is that value. *)
Class SelectorEngine := {
  querySelector : jsstring -> list anchor -> selected;
  querySelector_literal (value : jsstring) (links : list anchor) :
    selectorSafe value = true ->
    querySelector (hrefSelector value) links
    = Selected (List.find (fun a => strictEq (href a) value) links)
}.

(** How a call that gives a value ends: with the value, or with an
    exception. *)
Inductive completion (A : Type) :=
| Normal (a : A)
| Abrupt.

Arguments Normal {A} a.
Arguments Abrupt {A}.

(** How a call made for its effect ends. *)
Inductive ending := Returns | Throws.

Section Engine.

Context {engine : SelectorEngine}.

(** The callback of [findHandleSection] on one element of
    [querySelectorAll('div')]: a section in which the selector built from
    the name selects a link that reads [@screenName] once trimmed.  The
    selector is parsed at every section, and the exception of one that
    does not parse leaves the callback. *)
Definition isHandleSection (screenName : jsstring) (n : node) : completion bool :=
  match n with
  | Div links =>
      match querySelector (hrefSelector (slash :: screenName)) links with
      | Selected (Some link) =>
          Normal (strictEq (trim (textContent link)) (atSign :: screenName))
      | Selected None => Normal false
      | SyntaxError => Abrupt
      end
  | _ => Normal false
  end.

(** [findHandleSection(container, screenName)]: the position of the first
    such section, or the exception of the callback. *)
Fixpoint findHandleSection (kids : list node) (screenName : jsstring)
    : completion (option nat) :=
  match kids with
  | [] => Normal None
  | n :: kids' =>
      match isHandleSection screenName n with
      | Abrupt => Abrupt
      | Normal true => Normal (Some 0%nat)
      | Normal false =>
          match findHandleSection kids' screenName with
          | Normal found => Normal (option_map S found)
          | Abrupt => Abrupt
          end
      end
  end.

(** [findHandleSection] followed by
    [handleSection.parentNode.insertBefore(x, handleSection)] when a handle
    section is found and by [userNameContainer.appendChild(x)] otherwise.
    The insertion cannot fail on a new element, so the [catch] branches of
    the helpers are never taken; [findHandleSection] is called outside
    every [try], so its exception leaves the helper. *)
Definition insertBeforeHandle (x : node) (screenName : jsstring)
    (kids : list node) : completion (list node) :=
  match findHandleSection kids screenName with
  | Normal (Some i) => Normal (take i kids ++ x :: drop i kids)
  | Normal None => Normal (kids ++ [x])
  | Abrupt => Abrupt
  end.

End Engine.

(** *** Building elements *)

Definition bullet : jsstring := [0x2022].
Definition checkMark : jsstring := [0x2705].
Definition infoMark : jsstring := [0x2139; 0xFE0F].

(** [x || '•'] on a flag field. *)
Definition flagOrBullet (flag : option jsstring) : jsstring :=
  match flag with
  | Some f => if nonEmpty f then f else bullet
  | None => bullet
  end.

(** The text of the wrapper made by [buildBracketedDisplay(displayInfo)]. *)
Definition bracketedText (displayInfo : locationInfo) : jsstring :=
  lit "[" ++ flagOrBullet (locationFlag displayInfo) ++ lit " | "
  ++ (if locationAccurate displayInfo then checkMark else infoMark) ++ lit " | "
  ++ flagOrBullet (sourceFlag displayInfo) ++ lit "]".

Definition buildBracketedDisplay (displayInfo : locationInfo) : node :=
  FlagWrapper (bracketedText displayInfo).

Definition createErrorIndicator : node := ErrorIndicator.

(** [createLocationButton(screenName)] and [createLoadingShimmer()] make a
    new element each time they are called. *)
Definition createLocationButton (screenName : jsstring) (next : nat) : node * nat :=
  (LocationButton next screenName, S next).

Definition createLoadingShimmer (next : nat) : node * nat :=
  (LoadingShimmer next, S next).

(** *** Decorating one container *)

(** Truthiness of [container.dataset.flagAdded]. *)
Definition flagSet (c : container) : bool :=
  match flagAdded c with
  | Some s => nonEmpty s
  | None => false
  end.

Definition setFlagAdded (s : option jsstring) (c : container) : container :=
  Container s (userName c).

Section Decorate.

Context {engine : SelectorEngine}.

(** [addButtonToUsername(container, screenName)]: the container and the
    next identity it leaves, and how it ends.  The marker is set and the
    button is made before the handle section is looked for. *)
Definition addButtonToUsername (c : container) (screenName : jsstring)
    (next : nat) : container * nat * ending :=
  if flagSet c then (c, next, Returns)
  else
    let c := setFlagAdded (Some (lit "button")) c in
    match userName c with
    | None => (c, next, Returns)
    | Some kids =>
        let '(button, next) := createLocationButton screenName next in
        match insertBeforeHandle button screenName kids with
        | Normal kids' => (Container (flagAdded c) (Some kids'), next, Returns)
        | Abrupt => (c, next, Throws)
        end
    end.

(** [displayLocationInfo(container, screenName, displayInfo)]: the
    container it leaves, and whether its promise is fulfilled or
    rejected. *)
Definition displayLocationInfo (c : container) (screenName : jsstring)
    (displayInfo : cacheEntry) : container * ending :=
  let c := setFlagAdded (Some (lit "processing")) c in
  let flagWrapper := buildBracketedDisplay (info displayInfo) in
  match userName c with
  | None => (setFlagAdded (Some (lit "failed")) c, Returns)
  | Some kids =>
      match insertBeforeHandle flagWrapper screenName kids with
      | Normal kids' => (Container (Some (lit "true")) (Some kids'), Returns)
      | Abrupt => (c, Throws)
      end
  end.

End Decorate.

(** [createMockTwitterContainer(screenName)]: an article whose user-name
    element holds the display-name section and the handle section.  The
    links get their target through the [href] property, which takes a
    [USVString]. *)
Definition createMockTwitterContainer (screenName : jsstring) : container :=
  Container None
    (Some [ Div [Anchor (toWellFormed (slash :: screenName)) (lit "Display Name")];
            Div [Anchor (toWellFormed (slash :: screenName)) (atSign :: screenName)] ]).

(** *** Processing the containers of the page *)

(** The markers that make [processUsernamesWithMode] pass over a
    container. *)
Definition alreadyHandled (status : option jsstring) : bool :=
  match status with
  | Some s =>
      strictEq s (lit "true") || strictEq s (lit "processing")
      || strictEq s (lit "waiting") || strictEq s (lit "button")
  | None => false
  end.

(** [mockLocationCache.clear()] followed by copying every entry of
    [cache] into it.  When [cache] is [mockLocationCache] itself the copy
    finds it already emptied. *)
Definition resetMockCache (cache : nat)
    (h : gmap nat (gmap jsstring cacheEntry)) : gmap nat (gmap jsstring cacheEntry) :=
  let h := <[mockLocationCache := ∅]> h in
  <[mockLocationCache := getMap cache h]> h.

Section Process.

Context {engine : SelectorEngine}.

(** The body of the loop of [processUsernamesWithMode]; [cache] is the
    content of [mockLocationCache]. *)
Definition processContainer (mode : jsval) (cache : gmap jsstring cacheEntry)
    (c : container) (next : nat) : container * nat * ending :=
  match extractUsernameFromContainer c with
  | None => (c, next, Returns)
  | Some screenName =>
      if alreadyHandled (flagAdded c) then (c, next, Returns)
      else
        match cache !! screenName with
        | Some cachedLocation =>
            let '(c, e) := displayLocationInfo c screenName cachedLocation in
            (c, next, e)
        | None =>
            if bool_decide (mode = JStr MODE_AUTO)
            then (setFlagAdded (Some (lit "processing")) c, next, Returns)
            else addButtonToUsername c screenName next
        end
  end.

(** The loop over the containers, which an exception leaves. *)
Fixpoint processContainers (mode : jsval) (cache : gmap jsstring cacheEntry)
    (doc : list bodyChild) (next : nat) : list bodyChild * nat * ending :=
  match doc with
  | [] => ([], next, Returns)
  | Tweet c :: doc' =>
      match processContainer mode cache c next with
      | (c', next, Returns) =>
          let '(doc'', next, e) := processContainers mode cache doc' next in
          (Tweet c' :: doc'', next, e)
      | (c', next, Throws) => (Tweet c' :: doc', next, Throws)
      end
  | Loose n :: doc' =>
      let '(doc'', next, e) := processContainers mode cache doc' next in
      (Loose n :: doc'', next, e)
  end.

(** [processUsernamesWithMode(mode, cache)]: the state it leaves and how
    it ends. *)
Definition processUsernamesWithModeCall (mode : jsval) (cache : nat) (w : world)
    : world * ending :=
  let w := setHeap (resetMockCache cache (heap w)) w in
  let '(doc, next, e) :=
    processContainers mode (getMap mockLocationCache (heap w)) (document w) (nextId w) in
  (setNextId next (setDocument doc w), e).

(** The state [processUsernamesWithMode(mode, cache)] leaves, whether its
    promise is fulfilled or rejected. *)
Definition processUsernamesWithMode (mode : jsval) (cache : nat) (w : world) : world :=
  fst (processUsernamesWithModeCall mode cache w).

(** Whether the promise of [processUsernamesWithMode(mode, cache)] is
    fulfilled or rejected. *)
Definition processUsernamesWithModeEnds (mode : jsval) (cache : nat) (w : world)
    : ending :=
  snd (processUsernamesWithModeCall mode cache w).

End Process.

(** *** Replacing and removing elements by reference *)

Definition isButton (id : nat) (n : node) : bool :=
  match n with LocationButton i _ => Nat.eqb i id | _ => false end.

Definition isShimmer (id : nat) (n : node) : bool :=
  match n with LoadingShimmer i => Nat.eqb i id | _ => false end.

Definition isFlagWrapper (n : node) : bool :=
  match n with FlagWrapper _ => true | _ => false end.

(** Replace the first element satisfying [p] by the elements [r]. *)
Fixpoint spliceFirst (p : node -> bool) (r : list node) (kids : list node)
    : option (list node) :=
  match kids with
  | [] => None
  | n :: kids' =>
      if p n then Some (r ++ kids')
      else option_map (cons n) (spliceFirst p r kids')
  end.

Fixpoint spliceFirstDoc (p : node -> bool) (r : list node) (doc : list bodyChild)
    : list bodyChild :=
  match doc with
  | [] => []
  | Loose n :: doc' =>
      if p n then map Loose r ++ doc' else Loose n :: spliceFirstDoc p r doc'
  | Tweet c :: doc' =>
      match userName c ≫= spliceFirst p r with
      | Some kids => Tweet (Container (flagAdded c) (Some kids)) :: doc'
      | None => Tweet c :: spliceFirstDoc p r doc'
      end
  end.

(** [document.querySelectorAll('article[data-testid="tweet"],
    [data-testid="UserCell"]')] *)
Definition containersOf (doc : list bodyChild) : list container :=
  flat_map (fun b => match b with Tweet c => [c] | Loose _ => [] end) doc.

(** [document.querySelectorAll('[data-twitter-location-button]')] *)
Definition buttonsOfNodes (kids : list node) : list (nat * jsstring) :=
  flat_map (fun n => match n with LocationButton i s => [(i, s)] | _ => [] end) kids.

Definition buttonsOf (doc : list bodyChild) : list (nat * jsstring) :=
  flat_map (fun b =>
              match b with
              | Tweet c => buttonsOfNodes (default [] (userName c))
              | Loose n => buttonsOfNodes [n]
              end) doc.

(** The position, among the containers of the page, of the first one whose
    screen name is [screenName]. *)
Fixpoint findContainer (screenName : jsstring) (doc : list bodyChild) : option nat :=
  match doc with
  | [] => None
  | Tweet c :: doc' =>
      if bool_decide (extractUsernameFromContainer c = Some screenName) then Some 0%nat
      else option_map S (findContainer screenName doc')
  | Loose _ :: doc' => findContainer screenName doc'
  end.

Fixpoint updateContainer (i : nat) (f : container -> container) (doc : list bodyChild)
    : list bodyChild :=
  match doc with
  | [] => []
  | Tweet c :: doc' =>
      match i with
      | O => Tweet (f c) :: doc'
      | S i' => Tweet c :: updateContainer i' f doc'
      end
  | Loose n :: doc' => Loose n :: updateContainer i f doc'
  end.

(** *** Changing the mode *)

Section ModeChange.

Context {engine : SelectorEngine}.

(** What the loop over the buttons does to the container it found, once
    the button is removed: the marker is deleted, and the cached data is
    displayed or the marker ['processing'] is set. *)
Definition modeChangeRedo (cachedLocation : option cacheEntry) (screenName : jsstring)
    (c : container) : container * ending :=
  let c := setFlagAdded None c in
  match cachedLocation with
  | Some e => displayLocationInfo c screenName e
  | None => (setFlagAdded (Some (lit "processing")) c, Returns)
  end.

(** One round of the loop over buttons when switching to auto. *)
Definition modeChangeButton (cache : nat) (w : world) (button : nat * jsstring)
    : world * ending :=
  let '(id, screenName) := button in
  if negb (nonEmpty screenName) then (w, Returns)
  else
    match findContainer screenName (document w) with
    | None => (w, Returns)
    | Some i =>
        let doc := spliceFirstDoc (isButton id) [] (document w) in
        let cachedLocation := getMap cache (heap w) !! screenName in
        let e := match containersOf doc !! i with
                 | Some c => snd (modeChangeRedo cachedLocation screenName c)
                 | None => Returns
                 end in
        (setDocument
           (updateContainer i (fun c => fst (modeChangeRedo cachedLocation screenName c))
              doc) w, e)
    end.

(** The loop over the buttons found when the mode changes, which an
    exception leaves. *)
Fixpoint modeChangeButtons (cache : nat) (w : world)
    (buttons : list (nat * jsstring)) : world * ending :=
  match buttons with
  | [] => (w, Returns)
  | button :: buttons' =>
      match modeChangeButton cache w button with
      | (w, Returns) => modeChangeButtons cache w buttons'
      | (w, Throws) => (w, Throws)
      end
  end.

(** One round of the loop over containers when switching to manual. *)
Definition modeChangeContainer (cache : gmap jsstring cacheEntry)
    (c : container) (next : nat) : container * nat * ending :=
  match extractUsernameFromContainer c with
  | None => (c, next, Returns)
  | Some screenName =>
      match userName c ≫= spliceFirst isFlagWrapper [], cache !! screenName with
      | Some kids, None =>
          addButtonToUsername (Container None (Some kids)) screenName next
      | _, _ => (c, next, Returns)
      end
  end.

Fixpoint modeChangeContainers (cache : gmap jsstring cacheEntry)
    (doc : list bodyChild) (next : nat) : list bodyChild * nat * ending :=
  match doc with
  | [] => ([], next, Returns)
  | Tweet c :: doc' =>
      match modeChangeContainer cache c next with
      | (c', next, Returns) =>
          let '(doc'', next, e) := modeChangeContainers cache doc' next in
          (Tweet c' :: doc'', next, e)
      | (c', next, Throws) => (Tweet c' :: doc', next, Throws)
      end
  | Loose n :: doc' =>
      let '(doc'', next, e) := modeChangeContainers cache doc' next in
      (Loose n :: doc'', next, e)
  end.

(** [handleModeChange(newMode, cache)]: the state it leaves and how it
    ends. *)
Definition handleModeChangeCall (newMode : jsval) (cache : nat) (w : world)
    : world * ending :=
  if bool_decide (newMode = JStr MODE_AUTO) then
    modeChangeButtons cache w (buttonsOf (document w))
  else
    let '(doc, next, e) :=
      modeChangeContainers (getMap cache (heap w)) (document w) (nextId w) in
    (setNextId next (setDocument doc w), e).

(** The state [handleModeChange(newMode, cache)] leaves, whether its
    promise is fulfilled or rejected. *)
Definition handleModeChange (newMode : jsval) (cache : nat) (w : world) : world :=
  fst (handleModeChangeCall newMode cache w).

(** Whether the promise of [handleModeChange(newMode, cache)] is fulfilled
    or rejected. *)
Definition handleModeChangeEnds (newMode : jsval) (cache : nat) (w : world) : ending :=
  snd (handleModeChangeCall newMode cache w).

End ModeChange.

(** *** Clicking a button *)

(** How a call of the lookup function settles: it resolves with location
    data or with nothing, or it rejects. *)
Inductive lookupOutcome :=
| Resolves (locationInfo : option locationInfo)
| Rejects.

(** The data the lookup mock of [setupGetUserLocationMock] resolves
    with. *)
Definition usFlag : jsstring := [0xD83C; 0xDDFA; 0xD83C; 0xDDF8].

Definition mockLocationData : locationInfo :=
  LocationInfo (Some (lit "United States")) (Some usFlag)
               (Some (lit "United States")) (Some usFlag)
               (Some (lit "United States")) true false None.

Section Lookup.

Context {engine : SelectorEngine}.

(** What the mocked lookup answers for each screen name. *)
Variable respond : jsstring -> lookupOutcome.

(** [mockGetUserLocation(screenName)]: records the request, then settles. *)
Definition mockGetUserLocation (screenName : jsstring) (w : world)
    : lookupOutcome * world :=
  (respond screenName,
   setRequestQueueForTest (requestQueueForTest w ++ [screenName]) w).

(** [handleButtonClick(button, screenName)] *)
Definition handleButtonClick (button : nat) (screenName : jsstring) (w : world) : world :=
  let shimmerId := nextId w in
  let '(shimmer, next) := createLoadingShimmer shimmerId in
  let w := setNextId next
             (setDocument (spliceFirstDoc (isButton button) [shimmer] (document w)) w) in
  let '(outcome, w) := mockGetUserLocation screenName w in
  let shown :=
    match outcome with
    | Resolves (Some locationInfo) => buildBracketedDisplay locationInfo
    | Resolves None => createErrorIndicator
    | Rejects => createErrorIndicator
    end in
  setDocument (spliceFirstDoc (isShimmer shimmerId) [shown] (document w)) w.

(** *** Runs of the page *)

(** What can happen to the page: the containers are processed, the mode
    changes, a button is clicked, a result is written to a cache, or time
    passes. *)
Inductive event :=
| ProcessUsernames (mode : jsval) (cache : nat)
| ModeChange (newMode : jsval) (cache : nat)
| ButtonClick (button : nat) (screenName : jsstring)
| SaveCacheEntry (username : jsstring) (loc : locationInfo) (cache : nat)
| Elapse (ms : Z).

Definition step (w : world) (e : event) : world :=
  match e with
  | ProcessUsernames mode cache => processUsernamesWithMode mode cache w
  | ModeChange newMode cache => handleModeChange newMode cache w
  | ButtonClick button screenName => handleButtonClick button screenName w
  | SaveCacheEntry username loc cache => snd (saveCacheEntry username loc cache w)
  | Elapse ms => setClock (clock w + ms)%Z w
  end.

Definition run (es : list event) (w : world) : world := foldl step w es.

End Lookup.

(** A page as the tests set it up: one tweet of [screenName], the [Map]
    [entries] at address 1 of the heap, nothing requested yet. *)
Definition pageOf (screenName : jsstring) (entries : gmap jsstring cacheEntry)
    (now : Z) : world :=
  World [Tweet (createMockTwitterContainer screenName)]
        {[ 1%nat := entries ]} ∅ [] 0 now.



(** [document.querySelectorAll('[data-twitter-flag-shimmer]')] *)
Definition shimmersOfNodes (kids : list node) : list nat :=
  flat_map (fun n => match n with LoadingShimmer i => [i] | _ => [] end) kids.

Definition shimmersOf (doc : list bodyChild) : list nat :=
  flat_map (fun b =>
              match b with
              | Tweet c => shimmersOfNodes (default [] (userName c))
              | Loose n => shimmersOfNodes [n]
              end) doc.

(** The screen names of the buttons clicked in a sequence of events, in
    the order of the clicks. *)
Definition clicksOf (es : list event) : list jsstring :=
  flat_map (fun e => match e with ButtonClick _ s => [s] | _ => [] end) es.

(** *** An engine to run the examples with *)

Fixpoint stripPrefix (p s : jsstring) : option jsstring :=
  match p, s with
  | [], _ => Some s
  | c :: p', d :: s' => if c =? d then stripPrefix p' s' else None
  | _ :: _, [] => None
  end.

(** The code units before the first double quote, and those after it. *)
Fixpoint untilQuote (s : jsstring) : option (jsstring * jsstring) :=
  match s with
  | [] => None
  | c :: s' =>
      if c =? quote then Some ([], s')
      else match untilQuote s' with
           | Some (value, rest) => Some (c :: value, rest)
           | None => None
           end
  end.

(** An engine that reads the selectors [hrefSelector] makes from a value
    that stands for itself, and takes every other selector for one that
    does not parse.  The properties below hold for every engine; this one
    serves to evaluate the helpers on the names of the examples. *)
Definition literalQuerySelector (selector : jsstring) (links : list anchor) : selected :=
  match stripPrefix (lit "a[href=" ++ [quote]) selector with
  | Some rest =>
      match untilQuote rest with
      | Some (value, rest') =>
          if strictEq rest' (lit "]") && selectorSafe value
          then Selected (List.find (fun a => strictEq (href a) value) links)
          else SyntaxError
      | None => SyntaxError
      end
  | None => SyntaxError
  end.

#[global, refine] Instance literalEngine : SelectorEngine :=
  {| querySelector := literalQuerySelector |}.
Proof.
  intros value links Hsafe. unfold literalQuerySelector, hrefSelector.
  assert (forall p s, stripPrefix p (p ++ s) = Some s) as Hstrip.
  { induction p as [|c p IH]; intros s; cbn [app stripPrefix]; [done|].
    by rewrite N.eqb_refl. }
  rewrite app_assoc, Hstrip.
  assert (forall tail, untilQuote (value ++ quote :: tail) = Some (value, tail))
    as Hvalue.
  { apply andb_true_iff in Hsafe as [_ Hchars]. clear links Hstrip.
    induction value as [|c value IH]; intros tail; [done|].
    cbn [forallb] in Hchars. apply andb_true_iff in Hchars as [Hc Hchars].
    change ((c :: value) ++ quote :: tail) with (c :: (value ++ quote :: tail)).
    cbn [untilQuote]. rewrite (IH Hchars).
    destruct (c =? quote) eqn:Hq; [|done].
    apply N.eqb_eq in Hq. subst c. vm_compute in Hc. discriminate. }
  change ([quote] ++ lit "]") with (quote :: lit "]"). rewrite Hvalue.
  rewrite Hsafe. unfold strictEq. by rewrite bool_decide_eq_true_2.
Defined.

End Content.

(** ** The click handler of the integration tests *)

Module Integration.

Import Content.

Section Lookup.

Variable respond : jsstring -> lookupOutcome.

(** [handleButtonClick(button, screenName)] as the integration tests
    define it: the shimmer is replaced only when the lookup resolves with
    location data.  The lookup mock is a [vi.fn]; the calls it records are
    kept in the request list of the world. *)
Definition handleButtonClick (button : nat) (screenName : jsstring) (w : world) : world :=
  let shimmerId := nextId w in
  let '(shimmer, next) := createLoadingShimmer shimmerId in
  let w := setNextId next
             (setDocument (spliceFirstDoc (isButton button) [shimmer] (document w)) w) in
  let '(outcome, w) := mockGetUserLocation respond screenName w in
  match outcome with
  | Resolves (Some locationInfo) =>
      let flagWrapper := buildBracketedDisplay locationInfo in
      setDocument (spliceFirstDoc (isShimmer shimmerId) [flagWrapper] (document w)) w
  | Resolves None => w
  | Rejects => w
  end.

End Lookup.

End Integration.

(** ** The popup script *)

Module Popup.

Definition TOGGLE_KEY : jsstring := lit "extension_enabled".
Definition DEFAULT_ENABLED : jsval := JBool true.

Definition MODE_KEY : jsstring := lit "display_mode".
Definition MODE_AUTO : jsstring := lit "auto".
Definition MODE_MANUAL : jsstring := lit "manual".
Definition DEFAULT_MODE : jsstring := MODE_AUTO.

(** What the popup shows: the [enabled] class of the toggle, the status
    line, and the [active] class of the two mode buttons. *)
Record view := View {
  toggleEnabled : bool;
  statusText : jsstring;
  statusColor : jsstring;
  autoActive : bool;
  manualActive : bool
}.

(** A message sent to a tab: its type and payload. *)
Record message := Message {
  msgType : jsstring;
  payload : jsval
}.

Record world := World {
  storage : gmap jsstring jsval;
  ui : view;
  activeTab : option nat;
  sent : list (nat * message)
}.

Definition setUi (v : view) (w : world) : world :=
  World (storage w) v (activeTab w) (sent w).
Definition setStorage (st : gmap jsstring jsval) (w : world) : world :=
  World st (ui w) (activeTab w) (sent w).

(** [updateToggle(isEnabled)] *)
Definition updateToggle (isEnabled : jsval) (v : view) : view :=
  if truthy isEnabled
  then View true (lit "Extension is enabled") (lit "#1d9bf0")
            (autoActive v) (manualActive v)
  else View false (lit "Extension is disabled") (lit "#536471")
            (autoActive v) (manualActive v).

(** [updateModeUI(mode)] *)
Definition updateModeUI (mode : jsval) (v : view) : view :=
  if bool_decide (mode = JStr MODE_AUTO)
  then View (toggleEnabled v) (statusText v) (statusColor v) true false
  else View (toggleEnabled v) (statusText v) (statusColor v) false true.

(** [loadMode(mode)], where [None] is a call without argument. *)
Definition loadMode (mode : option jsval) (v : view) : view :=
  let currentMode := orElse mode (JStr DEFAULT_MODE) in
  updateModeUI currentMode v.

(** [x !== undefined ? x : d] on a property read. *)
Definition definedOr (x : option jsval) (d : jsval) : jsval :=
  match x with
  | Some JUndefined | None => d
  | Some v => v
  end.

(** The mode computed by the callback that loads the current state. *)
Definition storedMode (st : gmap jsstring jsval) : jsval :=
  let result := Storage.get [TOGGLE_KEY; MODE_KEY] st in
  orElse (result !! MODE_KEY) (JStr DEFAULT_MODE).

(** The callback of [chrome.storage.local.get([TOGGLE_KEY, MODE_KEY], ...)]
    run when the popup opens. *)
Definition loadState (w : world) : world :=
  let result := Storage.get [TOGGLE_KEY; MODE_KEY] (storage w) in
  let isEnabled := definedOr (result !! TOGGLE_KEY) DEFAULT_ENABLED in
  let v := updateToggle isEnabled (ui w) in
  let mode := orElse (result !! MODE_KEY) (JStr DEFAULT_MODE) in
  setUi (loadMode (Some mode) v) w.

(** [chrome.tabs.sendMessage] to the active tab, when there is one. *)
Definition notifyActiveTab (m : message) (w : world) : world :=
  match activeTab w with
  | Some tab => World (storage w) (ui w) (activeTab w) (sent w ++ [(tab, m)])
  | None => w
  end.

(** [setMode(newMode)] *)
Definition setMode (newMode : jsval) (w : world) : world :=
  let w := setStorage (Storage.set [(MODE_KEY, newMode)] (storage w)) w in
  let w := setUi (updateModeUI newMode (ui w)) w in
  notifyActiveTab (Message (lit "modeChange") newMode) w.

(** The click handler of the toggle switch. *)
Definition toggleClick (w : world) : world :=
  let result := Storage.get [TOGGLE_KEY] (storage w) in
  let currentState := definedOr (result !! TOGGLE_KEY) DEFAULT_ENABLED in
  let newState := JBool (negb (truthy currentState)) in
  let w := setStorage (Storage.set [(TOGGLE_KEY, newState)] (storage w)) w in
  let w := setUi (updateToggle newState (ui w)) w in
  notifyActiveTab (Message (lit "extensionToggle") newState) w.

(** The listeners the script registers: a click on the toggle switch, on
    the auto button, on the manual button. *)
Inductive event :=
| ClickToggle
| ClickAuto
| ClickManual.

Definition step (w : world) (e : event) : world :=
  match e with
  | ClickToggle => toggleClick w
  | ClickAuto => setMode (JStr MODE_AUTO) w
  | ClickManual => setMode (JStr MODE_MANUAL) w
  end.

(** The popup is opened, which loads the current state, and then
    clicked. *)
Definition run (es : list event) (w : world) : world :=
  foldl step (loadState w) es.

(** The stored enabled state as the script reads it. *)
Definition storedEnabled (st : gmap jsstring jsval) : jsval :=
  let result := Storage.get [TOGGLE_KEY] st in
  definedOr (result !! TOGGLE_KEY) DEFAULT_ENABLED.

End Popup.

(** ** [countryFlags.js] *)

Module CountryFlags.

Definition entry (name code : string) : jsstring * jsstring := (lit name, lit code).

(** The own properties of [COUNTRY_FLAGS], in the order they are written. *)
Definition COUNTRY_FLAGS : list (jsstring * jsstring) :=
  [
     entry "Afghanistan" "AF"; entry "Albania" "AL"; entry "Algeria" "DZ";
      entry "Andorra" "AD"; entry "Angola" "AO";
      entry "Antigua and Barbuda" "AG"; entry "Argentina" "AR";
      entry "Armenia" "AM"; entry "Australia" "AU"; entry "Austria" "AT";
      entry "Azerbaijan" "AZ"; entry "Bahamas" "BS"; entry "Bahrain" "BH";
      entry "Bangladesh" "BD"; entry "Barbados" "BB"; entry "Belarus" "BY";
      entry "Belgium" "BE"; entry "Belize" "BZ"; entry "Benin" "BJ";
      entry "Bhutan" "BT"; entry "Bolivia" "BO";
      entry "Bosnia and Herzegovina" "BA"; entry "Botswana" "BW";
      entry "Brazil" "BR"; entry "Brunei" "BN"; entry "Bulgaria" "BG";
      entry "Burkina Faso" "BF"; entry "Burundi" "BI";
      entry "Cabo Verde" "CV"; entry "Cambodia" "KH"; entry "Cameroon" "CM";
      entry "Canada" "CA"; entry "Central African Republic" "CF";
      entry "Chad" "TD"; entry "Chile" "CL"; entry "China" "CN";
      entry "Colombia" "CO"; entry "Comoros" "KM"; entry "Congo" "CG";
      entry "Democratic Republic of the Congo" "CD"; entry "DR Congo" "CD";
      entry "Costa Rica" "CR";
      (lit "C" ++ [244] ++ lit "te d'Ivoire", lit "CI");
      entry "Ivory Coast" "CI"; entry "Croatia" "HR"; entry "Cuba" "CU";
      entry "Cyprus" "CY"; entry "Czechia" "CZ"; entry "Czech Republic" "CZ";
      entry "Denmark" "DK"; entry "Djibouti" "DJ"; entry "Dominica" "DM";
      entry "Dominican Republic" "DO"; entry "Ecuador" "EC";
      entry "Egypt" "EG"; entry "El Salvador" "SV";
      entry "Equatorial Guinea" "GQ"; entry "Eritrea" "ER";
      entry "Estonia" "EE"; entry "Eswatini" "SZ"; entry "Ethiopia" "ET";
      entry "Fiji" "FJ"; entry "Finland" "FI"; entry "France" "FR";
      entry "Gabon" "GA"; entry "Gambia" "GM"; entry "Georgia" "GE";
      entry "Germany" "DE"; entry "Ghana" "GH"; entry "Greece" "GR";
      entry "Grenada" "GD"; entry "Guatemala" "GT"; entry "Guinea" "GN";
      entry "Guinea-Bissau" "GW"; entry "Guyana" "GY"; entry "Haiti" "HT";
      entry "Honduras" "HN"; entry "Hungary" "HU"; entry "Iceland" "IS";
      entry "India" "IN"; entry "Indonesia" "ID"; entry "Iran" "IR";
      entry "Iraq" "IQ"; entry "Ireland" "IE"; entry "Israel" "IL";
      entry "Italy" "IT"; entry "Jamaica" "JM"; entry "Japan" "JP";
      entry "Jordan" "JO"; entry "Kazakhstan" "KZ"; entry "Kenya" "KE";
      entry "Kiribati" "KI"; entry "Kosovo" "XK"; entry "Kuwait" "KW";
      entry "Kyrgyzstan" "KG"; entry "Laos" "LA"; entry "Latvia" "LV";
      entry "Lebanon" "LB"; entry "Lesotho" "LS"; entry "Liberia" "LR";
      entry "Libya" "LY"; entry "Liechtenstein" "LI"; entry "Lithuania" "LT";
      entry "Luxembourg" "LU"; entry "Madagascar" "MG"; entry "Malawi" "MW";
      entry "Malaysia" "MY"; entry "Maldives" "MV"; entry "Mali" "ML";
      entry "Malta" "MT"; entry "Marshall Islands" "MH";
      entry "Mauritania" "MR"; entry "Mauritius" "MU"; entry "Mexico" "MX";
      entry "Micronesia" "FM"; entry "Moldova" "MD"; entry "Monaco" "MC";
      entry "Mongolia" "MN"; entry "Montenegro" "ME"; entry "Morocco" "MA";
      entry "Mozambique" "MZ"; entry "Myanmar" "MM"; entry "Namibia" "NA";
      entry "Nauru" "NR"; entry "Nepal" "NP"; entry "Netherlands" "NL";
      entry "New Zealand" "NZ"; entry "Nicaragua" "NI"; entry "Niger" "NE";
      entry "Nigeria" "NG"; entry "North Korea" "KP";
      entry "North Macedonia" "MK"; entry "Norway" "NO"; entry "Oman" "OM";
      entry "Pakistan" "PK"; entry "Palau" "PW"; entry "Palestine" "PS";
      entry "Panama" "PA"; entry "Papua New Guinea" "PG";
      entry "Paraguay" "PY"; entry "Peru" "PE"; entry "Philippines" "PH";
      entry "Poland" "PL"; entry "Portugal" "PT"; entry "Qatar" "QA";
      entry "Romania" "RO"; entry "Russia" "RU"; entry "Rwanda" "RW";
      entry "Saint Kitts and Nevis" "KN"; entry "Saint Lucia" "LC";
      entry "Saint Vincent and the Grenadines" "VC"; entry "Samoa" "WS";
      entry "San Marino" "SM"; entry "Sao Tome and Principe" "ST";
      entry "Saudi Arabia" "SA"; entry "Senegal" "SN"; entry "Serbia" "RS";
      entry "Seychelles" "SC"; entry "Sierra Leone" "SL";
      entry "Singapore" "SG"; entry "Slovakia" "SK"; entry "Slovenia" "SI";
      entry "Solomon Islands" "SB"; entry "Somalia" "SO";
      entry "South Africa" "ZA"; entry "South Korea" "KR"; entry "Korea" "KR";
      entry "South Sudan" "SS"; entry "Spain" "ES"; entry "Sri Lanka" "LK";
      entry "Sudan" "SD"; entry "Suriname" "SR"; entry "Sweden" "SE";
      entry "Switzerland" "CH"; entry "Syria" "SY"; entry "Taiwan" "TW";
      entry "Tajikistan" "TJ"; entry "Tanzania" "TZ"; entry "Thailand" "TH";
      entry "Timor-Leste" "TL"; entry "East Timor" "TL"; entry "Togo" "TG";
      entry "Tonga" "TO"; entry "Trinidad and Tobago" "TT";
      entry "Tunisia" "TN"; entry "Turkey" "TR"; entry "Turkmenistan" "TM";
      entry "Tuvalu" "TV"; entry "Uganda" "UG"; entry "Ukraine" "UA";
      entry "United Arab Emirates" "AE"; entry "UAE" "AE";
      entry "United Kingdom" "GB"; entry "UK" "GB";
      entry "Great Britain" "GB"; entry "Britain" "GB";
      entry "United States" "US"; entry "USA" "US"; entry "America" "US";
      entry "Uruguay" "UY"; entry "Uzbekistan" "UZ"; entry "Vanuatu" "VU";
      entry "Vatican City" "VA"; entry "Venezuela" "VE"; entry "Vietnam" "VN";
      entry "Yemen" "YE"; entry "Zambia" "ZM"; entry "Zimbabwe" "ZW";
      entry "Europe" "EU"; entry "European Union" "EU"; entry "EU" "EU";
      entry "Hong Kong" "HK"; entry "Macau" "MO"; entry "Puerto Rico" "PR";
      entry "England" "ENG"; entry "Scotland" "SCT"; entry "Wales" "WAL";
      entry "Northern Ireland" "GB"
  ].

(** The own properties of [SPECIAL_FLAG_EMOJIS]. *)
Definition SPECIAL_FLAG_EMOJIS : list (jsstring * jsstring) :=
  [
    entry "XK" "XK"; entry "EU" "EU"; entry "ENG" "gbeng";
    entry "SCT" "gbsct"; entry "WAL" "gbwls"
  ].

(** What reading a property of one of the two tables can give.  Both are
    object literals, so a name that is not an own property is looked up on
    [Object.prototype]: its methods are functions with a [length], and
    [__proto__] gives the prototype object itself. *)
Inductive value :=
| VStr (s : jsstring)
| VFun (arity : N)
| VObj.

Definition truthyValue (v : value) : bool :=
  match v with
  | VStr s => nonEmpty s
  | VFun _ | VObj => true
  end.

(** The properties every object literal inherits. *)
Definition objectPrototype : list (jsstring * value) :=
  [ (lit "constructor", VFun 1);
    (lit "__defineGetter__", VFun 2);
    (lit "__defineSetter__", VFun 2);
    (lit "hasOwnProperty", VFun 1);
    (lit "__lookupGetter__", VFun 1);
    (lit "__lookupSetter__", VFun 1);
    (lit "isPrototypeOf", VFun 1);
    (lit "propertyIsEnumerable", VFun 1);
    (lit "toString", VFun 0);
    (lit "valueOf", VFun 0);
    (lit "toLocaleString", VFun 0);
    (lit "__proto__", VObj) ].

Fixpoint assoc {A} (name : jsstring) (props : list (jsstring * A)) : option A :=
  match props with
  | [] => None
  | (k, v) :: props' => if strictEq k name then Some v else assoc name props'
  end.

(** [table[name]] *)
Definition getProp (table : list (jsstring * jsstring)) (name : jsstring) : option value :=
  match assoc name table with
  | Some s => Some (VStr s)
  | None => assoc name objectPrototype
  end.

(** [table[code]] where [code] is any value: a function or an object is
    first turned into a string (its source text, [[object Object]]), which
    names no property of the tables or of their prototype. *)
Definition getPropOf (table : list (jsstring * jsstring)) (code : value) : option value :=
  match code with
  | VStr s => getProp table s
  | VFun _ | VObj => None
  end.

(** How a call ends: it returns a value or [null], or it throws a
    [TypeError]. *)
Inductive completion :=
| Return (v : option value)
| ThrowTypeError.

(** [String.fromCodePoint(cp)] as UTF-16 code units. *)
Definition fromCodePoint (cp : N) : jsstring :=
  if cp <? 0x10000 then [cp]
  else
    let v := cp - 0x10000 in
    [0xD800 + N.shiftr v 10; 0xDC00 + N.land v 0x3FF].

(** [code.length] *)
Definition lengthOf (code : value) : option N :=
  match code with
  | VStr s => Some (N.of_nat (length s))
  | VFun arity => Some arity
  | VObj => None
  end.

(** [codeToFlag(code)] *)
Definition codeToFlag (code : value) : completion :=
  if negb (bool_decide (lengthOf code = Some 2)) then Return None
  else
    let base := 0x1F1E6 in
    let A := 65%Z in
    match code with
    | VStr [u1; u2] =>
        let c1 := (Z.of_N u1 - A)%Z in
        let c2 := (Z.of_N u2 - A)%Z in
        if (c1 <? 0)%Z || (c1 >? 25)%Z || (c2 <? 0)%Z || (c2 >? 25)%Z
        then Return None
        else Return (Some (VStr (fromCodePoint (base + Z.to_N c1)
                                 ++ fromCodePoint (base + Z.to_N c2))))
    | _ => ThrowTypeError
    end.

(** [SPECIAL_FLAG_EMOJIS[code] || codeToFlag(code)] *)
Definition flagOfCode (code : value) : completion :=
  match getPropOf SPECIAL_FLAG_EMOJIS code with
  | Some v => if truthyValue v then Return (Some v) else codeToFlag code
  | None => codeToFlag code
  end.

Section Lowercase.

(** [String.prototype.toLowerCase], which follows the Unicode case
    mappings of the host. *)
Variable toLowerCase : jsstring -> jsstring.

(** The test of the fallback on one key: equal to the lowercased name,
    containing it, or contained in it. *)
Definition matchesName (lower key : jsstring) : bool :=
  strictEq (toLowerCase key) lower
  || includes lower (toLowerCase key)
  || includes (toLowerCase key) lower.

(** The loop over [Object.entries(COUNTRY_FLAGS)] of the fallback. *)
Fixpoint fallback (lower : jsstring) (entries : list (jsstring * jsstring)) : completion :=
  match entries with
  | [] => Return None
  | (key, code) :: entries' =>
      if matchesName lower key
      then flagOfCode (VStr code)
      else fallback lower entries'
  end.

(** [getCountryFlag(countryName)]; [None] is a [null] or [undefined]
    argument. *)
Definition getCountryFlag (countryName : option jsstring) : completion :=
  match countryName with
  | None => Return None
  | Some s =>
      if negb (nonEmpty s) then Return None
      else
        let name := trim s in
        match getProp COUNTRY_FLAGS name with
        | Some code =>
            if truthyValue code then flagOfCode code
            else fallback (toLowerCase name) COUNTRY_FLAGS
        | None => fallback (toLowerCase name) COUNTRY_FLAGS
        end
  end.

End Lowercase.

(** Lowercasing of the letters A to Z, which is what [toLowerCase] does on
    strings of ASCII characters. *)
Definition asciiToLowerCase (s : jsstring) : jsstring :=
  map (fun c => if (65 <=? c) && (c <=? 90) then c + 32 else c) s.

End CountryFlags.

(** ** The request scheduler and result cache *)

Module Scheduler.

(** The scheduler of the content script (its lookup function, the request
    queue and the rate limiter) is not among the sources: the tests replace
    it by a mock.  This module models it from the component contracts of the
    specification.  The persistence of the cache to durable storage is left
    out. *)

(** The limits named by the rate-limiting tests of [content.test.js]. *)
Definition MIN_REQUEST_INTERVAL : Z := 2000.
Definition MAX_CONCURRENT_REQUESTS : nat := 2.

(** Modelled from the spec: the recognised configuration options of the
    missing scheduler.  [requeueThrottled] is the configured policy for a
    throttled lookup: back to the front of the queue, or resolved with no
    result. *)
Record config := Config {
  minInterval : Z;
  maxConcurrent : nat;
  ttl : Z;
  fetchTimeout : Z;
  persistDebounce : Z;
  requeueThrottled : bool
}.

(** Modelled from the spec: the defaults of the reference behaviour, with
    the thirty days of [saveCacheEntry] as time to live. *)
Definition defaults : config :=
  Config MIN_REQUEST_INTERVAL MAX_CONCURRENT_REQUESTS
         (Content.CACHE_EXPIRY_DAYS * 24 * 60 * 60 * 1000) 10000 5000 true.

Section Core.

(** The looked-up values, which the scheduler never inspects. *)
Context {V : Type}.

(** Modelled from the spec: the CacheEntry of the missing result cache. *)
Record cacheEntry := CacheEntry {
  value : V;
  expiresAt : Z
}.

(** Modelled from the spec: the ProcessingState the missing tracker keeps
    per key. *)
Inductive processingState := Idle | Queued | InFlight | Done | Failed.

#[global] Instance processingState_eq_dec : EqDecision processingState.
Proof. solve_decision. Defined.

(** Modelled from the spec: the QueueItem of the missing request queue;
    [resultChannel] is the future of the caller that claimed the key. *)
Record queueItem := QueueItem {
  key : jsstring;
  enqueuedAt : Z;
  resultChannel : nat
}.

(** Modelled from the spec: the RateLimiterState of the missing limiter. *)
Record rateLimiterState := RateLimiterState {
  lastDispatchAt : Z;
  inFlightCount : nat;
  blockedUntil : option Z
}.

(** Modelled from the spec: the failures of a Fetcher call, a timeout
    being the failure of the bounded call. *)
Inductive failure := Timeout | TransportFailure.

(** Modelled from the spec: the Result of the external Fetcher. *)
Inductive result :=
| Success (v : V)
| Throttled (resetAt : Z)
| Failure (reason : failure).

(** Modelled from the spec: [ResultCache.get], a hit only for a present
    entry with [expiresAt > now]. *)
Definition get (now : Z) (c : gmap jsstring cacheEntry) (k : jsstring) : option V :=
  match c !! k with
  | Some e => if (now <? expiresAt e)%Z then Some (value e) else None
  | None => None
  end.

(** Modelled from the spec: [ResultCache.set], storing
    [{value, expiresAt: now + ttl}] over any prior entry. *)
Definition set (now : Z) (c : gmap jsstring cacheEntry) (k : jsstring) (v : V) (ttl : Z)
    : gmap jsstring cacheEntry :=
  <[k := CacheEntry v (now + ttl)]> c.

Variable cfg : config.

(** Modelled from the spec: the answer of [RateLimiter.tryAcquire], a
    grant carrying the limiter as it is after the grant. *)
Inductive permission :=
| Granted (l : rateLimiterState)
| MustWaitUntil (t : Z).

(** Modelled from the spec: [RateLimiter.tryAcquire].  A grant records the
    dispatch: it takes a slot and moves [lastDispatchAt] to now. *)
Definition tryAcquire (now : Z) (l : rateLimiterState) : permission :=
  if (inFlightCount l <? maxConcurrent cfg)%nat
     && (minInterval cfg <=? now - lastDispatchAt l)%Z
     && match blockedUntil l with
        | None => true
        | Some b => (b <=? now)%Z
        end
  then Granted (RateLimiterState now (S (inFlightCount l)) (blockedUntil l))
  else MustWaitUntil
         (Z.max now (Z.max (lastDispatchAt l + minInterval cfg)
                           (default now (blockedUntil l)))).

(** Modelled from the spec: [RateLimiter.release]. *)
Definition release (l : rateLimiterState) : rateLimiterState :=
  RateLimiterState (lastDispatchAt l) (pred (inFlightCount l)) (blockedUntil l).

(** Modelled from the spec: [RateLimiter.trip]. *)
Definition trip (untilTimestamp : Z) (l : rateLimiterState) : rateLimiterState :=
  RateLimiterState (lastDispatchAt l) (inFlightCount l) (Some untilTimestamp).

(** Modelled from the spec: the state the missing tracker has for a key.
    A key never seen is [Idle]. *)
Definition stateOf (t : gmap jsstring processingState) (k : jsstring) : processingState :=
  default Idle (t !! k).

(** Modelled from the spec: the answer of
    [ProcessingStateTracker.tryClaim]. *)
Inductive claim :=
| Claimed (t : gmap jsstring processingState)
| AlreadyActive.

(** Modelled from the spec: [ProcessingStateTracker.tryClaim], which takes
    an idle key to [Queued] and refuses a key with work outstanding. *)
Definition tryClaim (k : jsstring) (t : gmap jsstring processingState) : claim :=
  match stateOf t k with
  | Idle => Claimed (<[k := Queued]> t)
  | _ => AlreadyActive
  end.

(** Modelled from the spec: [ProcessingStateTracker.markInFlight]. *)
Definition markInFlight (k : jsstring) (t : gmap jsstring processingState) :=
  <[k := InFlight]> t.

(** Modelled from the spec: [ProcessingStateTracker.markDone]. *)
Definition markDone (k : jsstring) (t : gmap jsstring processingState) :=
  <[k := Done]> t.

(** Modelled from the spec: [ProcessingStateTracker.markFailed]. *)
Definition markFailed (k : jsstring) (t : gmap jsstring processingState) :=
  <[k := Failed]> t.

(** Modelled from the spec: the release of a key of the missing tracker
    back to [Idle], once its result has been observed. *)
Definition backToIdle (k : jsstring) (t : gmap jsstring processingState) :=
  <[k := Idle]> t.

(** Modelled from the spec: the state owned by the RequestScheduler.
    Futures are numbered; [pending] holds, per key, the futures attached to
    its outstanding lookup, [settled] the value each resolved future got
    ([None] for "no result"), and [dispatched] the Fetcher invocations with
    their start times, latest first. *)
Record state := State {
  now : Z;
  cache : gmap jsstring cacheEntry;
  queue : list queueItem;
  tracker : gmap jsstring processingState;
  limiter : rateLimiterState;
  pending : gmap jsstring (list nat);
  settled : gmap nat (option V);
  nextFuture : nat;
  dispatched : list (jsstring * Z)
}.

(** The futures attached to the outstanding lookup of [k]. *)
Definition pendingOf (s : state) (k : jsstring) : list nat :=
  default [] (pending s !! k).

(** Resolve the futures [fs] with [v]. *)
Definition resolveAll (fs : list nat) (v : option V) (m : gmap nat (option V))
    : gmap nat (option V) :=
  foldr (fun f m => <[f := v]> m) m fs.

(** Modelled from the spec: [RequestScheduler.submit], returning the number
    of the future handed to the caller. *)
Definition submit (k : jsstring) (s : state) : nat * state :=
  let f := nextFuture s in
  match get (now s) (cache s) k with
  | Some v =>
      (f, State (now s) (cache s) (queue s) (tracker s) (limiter s) (pending s)
                (<[f := Some v]> (settled s)) (S f) (dispatched s))
  | None =>
      match tryClaim k (tracker s) with
      | AlreadyActive =>
          (f, State (now s) (cache s) (queue s) (tracker s) (limiter s)
                    (<[k := pendingOf s k ++ [f]]> (pending s))
                    (settled s) (S f) (dispatched s))
      | Claimed t =>
          (f, State (now s) (cache s) (queue s ++ [QueueItem k (now s) f]) t
                    (limiter s) (<[k := [f]]> (pending s))
                    (settled s) (S f) (dispatched s))
      end
  end.

(** Modelled from the spec: one round of the drain loop.  It looks at the
    head of the queue and asks the limiter; when refused it sleeps, when
    granted it takes the item, marks it in flight and invokes the Fetcher. *)
Definition drain (s : state) : state :=
  match queue s with
  | [] => s
  | item :: rest =>
      match tryAcquire (now s) (limiter s) with
      | MustWaitUntil _ => s
      | Granted l =>
          State (now s) (cache s) rest (markInFlight (key item) (tracker s)) l
                (pending s) (settled s) (nextFuture s)
                ((key item, now s) :: dispatched s)
      end
  end.

(** Modelled from the spec: the end of a lookup of the missing scheduler,
    which resolves every future attached to [k] with [v] and lets [k] go
    back to [Idle]. *)
Definition finish (k : jsstring) (v : option V) (c : gmap jsstring cacheEntry)
    (t : gmap jsstring processingState) (l : rateLimiterState) (s : state) : state :=
  State (now s) c (queue s) (backToIdle k t) l (delete k (pending s))
        (resolveAll (pendingOf s k) v (settled s)) (nextFuture s) (dispatched s).

(** Modelled from the spec: the completion of the Fetcher call for [k].
    An answer for a key that is not in flight is ignored. *)
Definition complete (k : jsstring) (r : result) (s : state) : state :=
  match stateOf (tracker s) k with
  | InFlight =>
      let l := release (limiter s) in
      match r with
      | Success v =>
          finish k (Some v) (set (now s) (cache s) k v (ttl cfg))
                 (markDone k (tracker s)) l s
      | Failure _ =>
          finish k None (cache s) (markFailed k (tracker s)) l s
      | Throttled resetAt =>
          let l := trip resetAt l in
          if requeueThrottled cfg then
            State (now s) (cache s)
                  (QueueItem k (now s) (hd 0%nat (pendingOf s k)) :: queue s)
                  (<[k := Queued]> (tracker s)) l (pending s) (settled s)
                  (nextFuture s) (dispatched s)
          else
            finish k None (cache s) (markFailed k (tracker s)) l s
      end
  | _ => s
  end.

(** Modelled from the spec: what happens to the scheduler.  A lookup is
    submitted in the course of processing a key or by an explicit trigger
    for that key; the drain loop runs; the Fetcher answers; time passes. *)
Inductive event :=
| Submit (k : jsstring)
| TriggerFetch (k : jsstring)
| Drain
| Complete (k : jsstring) (r : result)
| Advance (dt : N).

(** Modelled from the spec: the effect of one event on the missing
    scheduler. *)
Definition step (s : state) (e : event) : state :=
  match e with
  | Submit k => snd (submit k s)
  | TriggerFetch k => snd (submit k s)
  | Drain => drain s
  | Complete k r => complete k r s
  | Advance dt =>
      State (now s + Z.of_N dt) (cache s) (queue s) (tracker s) (limiter s)
            (pending s) (settled s) (nextFuture s) (dispatched s)
  end.

(** The scheduler after a sequence of events. *)
Definition run (es : list event) (s : state) : state := foldl step s es.

(** Modelled from the spec: the scheduler at start, at time [t0], with an
    empty cache and a limiter that lets the first dispatch through. *)
Definition initial (t0 : Z) : state :=
  State t0 ∅ [] ∅ (RateLimiterState (t0 - minInterval cfg) 0 None) ∅ ∅ 0 [].

(** The futures handed out for [k] along a run. *)
Fixpoint futuresFor (k : jsstring) (es : list event) (s : state) : list nat :=
  match es with
  | [] => []
  | e :: es' =>
      match e with
      | Submit k' | TriggerFetch k' =>
          if strictEq k' k then fst (submit k' s) :: futuresFor k es' (step s e)
          else futuresFor k es' (step s e)
      | _ => futuresFor k es' (step s e)
      end
  end.

(** The events that hand a future to a caller. *)
Definition submits (e : event) : bool :=
  match e with
  | Submit _ | TriggerFetch _ => true
  | _ => false
  end.

(** No answer of the Fetcher for [k] among the events. *)
Definition answersFor (k : jsstring) (e : event) : bool :=
  match e with
  | Complete k' _ => strictEq k' k
  | _ => false
  end.

(** How often the Fetcher was invoked for [k]. *)
Definition invocationsFor (k : jsstring) (s : state) : nat :=
  length (List.filter (fun d => strictEq (fst d) k) (dispatched s)).

(** The number of keys marked in flight. *)
Definition inFlightOnly (t : gmap jsstring processingState) : nat :=
  size (filter (fun p => snd p = InFlight) t).

(** The Fetcher calls that have no answer yet. *)
Definition outstanding (s : state) : nat := inFlightOnly (tracker s).

(** Every two consecutive dispatches start at least [minInterval] apart. *)
Fixpoint paced (ds : list (jsstring * Z)) : Prop :=
  match ds with
  | later :: (((_, t) :: _) as ds') => (minInterval cfg <= snd later - t)%Z /\ paced ds'
  | _ => True
  end.

(** An answer that settles the futures of the lookup. *)
Definition settles (r : result) : bool :=
  match r with
  | Throttled _ => negb (requeueThrottled cfg)
  | _ => true
  end.

Definition outcome (r : result) : option V :=
  match r with
  | Success v => Some v
  | _ => None
  end.

(** What holds of the scheduler state at all times: a key is queued at
    most once and exactly the queued keys are in the queue's items, no key
    rests in [Done] or [Failed], the limiter counts the calls in flight and
    stays within its cap, a key with outstanding work has no valid cache
    entry, only keys with outstanding work have futures attached, attached
    futures are unsettled and belong to one key, and the dispatches are
    paced. *)
Record invariant (s : state) : Prop := Invariant {
  inv_nodup : NoDup (map key (queue s));
  inv_queued : forall item, item ∈ queue s ->
    stateOf (tracker s) (key item) = Queued;
  inv_inqueue : forall k, stateOf (tracker s) k = Queued -> k ∈ map key (queue s);
  inv_states : forall k,
    stateOf (tracker s) k = Idle \/ stateOf (tracker s) k = Queued
    \/ stateOf (tracker s) k = InFlight;
  inv_count : inFlightCount (limiter s) = outstanding s;
  inv_bound : (inFlightCount (limiter s) <= maxConcurrent cfg)%nat;
  inv_miss : forall k, stateOf (tracker s) k <> Idle ->
    get (now s) (cache s) k = None;
  inv_pending : forall k, stateOf (tracker s) k = Idle -> pendingOf s k = [];
  inv_unsettled : forall k f, f ∈ pendingOf s k ->
    settled s !! f = None /\ (f < nextFuture s)%nat;
  inv_owner : forall k k' f, f ∈ pendingOf s k -> f ∈ pendingOf s k' -> k = k';
  inv_fresh : forall f, (nextFuture s <= f)%nat -> settled s !! f = None;
  inv_paced : paced (dispatched s);
  inv_last : forall d ds, dispatched s = d :: ds ->
    lastDispatchAt (limiter s) = snd d
}.

(** Where the lookup of [k] stands after the futures [fs] were handed out
    for it, [n] being the number of Fetcher invocations for [k] before the
    first of them: not yet asked for, queued, or in flight after one more
    invocation. *)
Definition lookupPhase (k : jsstring) (n : nat) (fs : list nat) (s : state) : Prop :=
  (fs = [] /\ stateOf (tracker s) k = Idle /\ get (now s) (cache s) k = None
   /\ invocationsFor k s = n) \/
  (fs <> [] /\ stateOf (tracker s) k = Queued /\ pendingOf s k = fs
   /\ invocationsFor k s = n) \/
  (fs <> [] /\ stateOf (tracker s) k = InFlight /\ pendingOf s k = fs
   /\ invocationsFor k s = S n).

End Core.

End Scheduler.

(** * Properties *)

Section ContentProperties.

Import Content.

Context {engine : SelectorEngine}.

Lemma getMap_insert_eq (r : nat) (m : gmap jsstring cacheEntry)
    (h : gmap nat (gmap jsstring cacheEntry)) :
  getMap r (<[r := m]> h) = m.
Proof. unfold getMap. by rewrite lookup_insert_eq. Qed.

Lemma getMap_insert_ne (r r' : nat) (m : gmap jsstring cacheEntry)
    (h : gmap nat (gmap jsstring cacheEntry)) :
  r <> r' -> getMap r' (<[r := m]> h) = getMap r' h.
Proof. intros Hne. unfold getMap. by rewrite lookup_insert_ne. Qed.

(** C2. With [now], the value of [Date.now()], a count of milliseconds
    since the epoch, [isCacheEntryExpired] answers [true] exactly when the
    entry is absent, has no [expiry], or has an [expiry] that is at most
    [now]; an entry whose [expiry] lies strictly after [now] is valid. *)
Theorem isCacheEntryExpired_spec (now : Z) (entry : option cacheEntry) :
  (0 <= now)%Z ->
  (isCacheEntryExpired now entry = true <->
     entry = None \/
     exists e, entry = Some e /\
       (expiry e = None \/ exists t, expiry e = Some t /\ (t <= now)%Z)) /\
  (forall e t, entry = Some e -> expiry e = Some t -> (now < t)%Z ->
     isCacheEntryExpired now entry = false).
Proof.
  intros Hnow. split.
  - destruct entry as [e|]; simpl.
    + destruct (expiry e) as [t|] eqn:Ht.
      * destruct (Z.eqb_spec t 0) as [->|Hne].
        -- split; [|done]. intros _. right. exists e. split; [done|].
           right. exists 0%Z. by rewrite Ht.
        -- rewrite Z.leb_le. split.
           ++ intros Hle. right. exists e. split; [done|]. right. exists t.
              by rewrite Ht.
           ++ intros [Hn|(e' & He' & [Hn|(t' & Ht' & Hle)])]; try done.
              ** injection He' as <-. congruence.
              ** injection He' as <-. rewrite Ht in Ht'. by injection Ht' as <-.
      * split; [|done]. intros _. right. exists e. split; [done|]. left. done.
    + split; [|done]. intros _. by left.
  - intros e t -> Ht Hlt. simpl. rewrite Ht.
    destruct (Z.eqb_spec t 0) as [->|_]; [lia|]. apply Z.leb_gt. lia.
Qed.

Lemma isCacheEntryExpired_spec_witness :
  isCacheEntryExpired 1700000000000
    (Some (CacheEntry mockLocationData (Some 1700000000001%Z))) = false.
Proof.
  apply (proj2 (isCacheEntryExpired_spec 1700000000000
                  (Some (CacheEntry mockLocationData (Some 1700000000001%Z)))
                  ltac:(lia))
               (CacheEntry mockLocationData (Some 1700000000001%Z))
               1700000000001%Z);
    [reflexivity | reflexivity | lia].
Defined.

(** C7. [saveCacheEntry] stores, under the user name, the fields of the
    fetched result unchanged together with an expiry of now plus thirty
    days, whatever entry the name had before; it returns the [Map] it was
    given and touches no other name, no other [Map] and nothing else. *)
Theorem saveCacheEntry_spec (username : jsstring) (loc : locationInfo)
    (cache : nat) (w : world) :
  let w' := snd (saveCacheEntry username loc cache w) in
  fst (saveCacheEntry username loc cache w) = cache /\
  getMap cache (heap w') !! username
    = Some (CacheEntry loc (Some (clock w + 30 * 24 * 60 * 60 * 1000)%Z)) /\
  (forall other, other <> username ->
     getMap cache (heap w') !! other = getMap cache (heap w) !! other) /\
  (forall r, r <> cache -> getMap r (heap w') = getMap r (heap w)) /\
  document w' = document w /\ mockStorage w' = mockStorage w /\
  requestQueueForTest w' = requestQueueForTest w /\ clock w' = clock w.
Proof.
  simpl. split; [done|]. rewrite getMap_insert_eq. split.
  - by rewrite lookup_insert_eq.
  - split.
    + intros other Hne. by rewrite lookup_insert_ne.
    + split; [|done]. intros r Hne. by rewrite getMap_insert_ne.
Qed.

(** *** Inserting before the handle section *)

(** Where the new element goes: between two parts of the children, which
    keep their order. *)
Lemma insertBeforeHandle_split (x : node) (screenName : jsstring)
    (kids kids' : list node) :
  insertBeforeHandle x screenName kids = Normal kids' ->
  exists pre post, kids = pre ++ post /\ kids' = pre ++ x :: post.
Proof.
  unfold insertBeforeHandle.
  destruct (findHandleSection kids screenName) as [[i|]|]; [| |done].
  - intros [= <-]. exists (take i kids), (drop i kids). by rewrite take_drop.
  - intros [= <-]. exists kids, []. by rewrite app_nil_r.
Qed.

Lemma buttonsOfNodes_app (xs ys : list node) :
  buttonsOfNodes (xs ++ ys) = buttonsOfNodes xs ++ buttonsOfNodes ys.
Proof. unfold buttonsOfNodes. apply flat_map_app. Qed.

Lemma anchorsOf_app (xs ys : list node) :
  anchorsOf (xs ++ ys) = anchorsOf xs ++ anchorsOf ys.
Proof. unfold anchorsOf. apply flat_map_app. Qed.

Lemma insertBeforeHandle_elem (x : node) (screenName : jsstring)
    (kids kids' : list node) :
  insertBeforeHandle x screenName kids = Normal kids' -> x ∈ kids'.
Proof.
  intros (pre & post & -> & ->)%insertBeforeHandle_split.
  rewrite elem_of_app. right. by left.
Qed.

Lemma insertBeforeHandle_wrapper_buttons (text : jsstring) (screenName : jsstring)
    (kids kids' : list node) :
  insertBeforeHandle (FlagWrapper text) screenName kids = Normal kids' ->
  buttonsOfNodes kids' = buttonsOfNodes kids.
Proof.
  intros (pre & post & -> & ->)%insertBeforeHandle_split.
  change (FlagWrapper text :: post) with ([FlagWrapper text] ++ post).
  by rewrite !buttonsOfNodes_app.
Qed.

Lemma insertBeforeHandle_wrappers (x : node) (screenName : jsstring)
    (kids kids' : list node) :
  isFlagWrapper x = false ->
  insertBeforeHandle x screenName kids = Normal kids' ->
  List.filter isFlagWrapper kids' = List.filter isFlagWrapper kids.
Proof.
  intros Hx (pre & post & -> & ->)%insertBeforeHandle_split.
  rewrite !List.filter_app. simpl. by rewrite Hx.
Qed.

Lemma insertBeforeHandle_anchors (x : node) (screenName : jsstring)
    (kids kids' : list node) :
  anchorsOf [x] = [] ->
  insertBeforeHandle x screenName kids = Normal kids' ->
  anchorsOf kids' = anchorsOf kids.
Proof.
  intros Hx (pre & post & -> & ->)%insertBeforeHandle_split.
  change (x :: post) with ([x] ++ post).
  by rewrite !anchorsOf_app, Hx.
Qed.

(** *** What the two decorating helpers leave *)

Lemma extractUsername_userName (c : container) (screenName : jsstring) :
  extractUsernameFromContainer c = Some screenName ->
  exists kids, userName c = Some kids.
Proof.
  unfold extractUsernameFromContainer. destruct (userName c) as [kids|]; [|done].
  intros _. by exists kids.
Qed.

(** The screen name of a container depends on the links of its user-name
    element only. *)
Lemma extractUsername_anchors (c c' : container) :
  option_map anchorsOf (userName c') = option_map anchorsOf (userName c) ->
  extractUsernameFromContainer c' = extractUsernameFromContainer c.
Proof.
  unfold extractUsernameFromContainer.
  destruct (userName c') as [k'|], (userName c) as [k|]; simpl; try done.
  by intros [= ->].
Qed.

(** The cases of [addButtonToUsername]. *)
Lemma addButtonToUsername_cases (c : container) (screenName : jsstring) (next : nat) :
  (flagSet c = true /\ addButtonToUsername c screenName next = (c, next, Returns)) \/
  (flagSet c = false /\ userName c = None /\
   addButtonToUsername c screenName next
   = (Container (Some (lit "button")) None, next, Returns)) \/
  (exists kids kids',
     flagSet c = false /\ userName c = Some kids /\
     insertBeforeHandle (LocationButton next screenName) screenName kids
     = Normal kids' /\
     addButtonToUsername c screenName next
     = (Container (Some (lit "button")) (Some kids'), S next, Returns)) \/
  (exists kids,
     flagSet c = false /\ userName c = Some kids /\
     insertBeforeHandle (LocationButton next screenName) screenName kids = Abrupt /\
     addButtonToUsername c screenName next
     = (Container (Some (lit "button")) (Some kids), S next, Throws)).
Proof.
  unfold addButtonToUsername. destruct (flagSet c) eqn:Hf; [by left|]. right.
  destruct c as [f [kids|]]; cbn [setFlagAdded userName flagAdded createLocationButton].
  - right.
    destruct (insertBeforeHandle (LocationButton next screenName) screenName kids)
      as [kids'|] eqn:Hins.
    + left. by exists kids, kids'.
    + right. by exists kids.
  - by left.
Qed.

Lemma addButtonToUsername_flagSet (c : container) (s : jsstring) (n : nat) :
  flagSet (fst (fst (addButtonToUsername c s n))) = true.
Proof.
  destruct (addButtonToUsername_cases c s n)
    as [[Hf ->]|[(_ & _ & ->)|[(kids & kids' & _ & _ & _ & ->)|(kids & _ & _ & _ & ->)]]];
    done.
Qed.

Lemma addButtonToUsername_flag (c : container) (screenName : jsstring) (next : nat) :
  flagSet c = false ->
  flagAdded (fst (fst (addButtonToUsername c screenName next))) = Some (lit "button").
Proof.
  intros Hf.
  destruct (addButtonToUsername_cases c screenName next)
    as [[Hf' _]|[(_ & _ & ->)|[(kids & kids' & _ & _ & _ & ->)|(kids & _ & _ & _ & ->)]]];
    [congruence|done..].
Qed.

(** [addButtonToUsername] keeps the links, hence the screen name, and the
    flag wrappers of the container, whether it returns or throws. *)
Lemma addButtonToUsername_keeps (c : container) (s : jsstring) (n : nat) :
  let c' := fst (fst (addButtonToUsername c s n)) in
  extractUsernameFromContainer c' = extractUsernameFromContainer c /\
  List.filter isFlagWrapper (default [] (userName c'))
  = List.filter isFlagWrapper (default [] (userName c)).
Proof.
  cbv zeta.
  destruct (addButtonToUsername_cases c s n)
    as [[_ ->]|[(_ & Hu & ->)|[(kids & kids' & _ & Hu & Hins & ->)
                               |(kids & _ & Hu & _ & ->)]]];
    cbn [fst].
  - done.
  - split; [|by rewrite Hu]. apply extractUsername_anchors. by rewrite Hu.
  - split.
    + apply extractUsername_anchors. rewrite Hu. simpl.
      by rewrite (insertBeforeHandle_anchors (LocationButton n s) s kids kids'
                    eq_refl Hins).
    + rewrite Hu. simpl.
      by apply (insertBeforeHandle_wrappers (LocationButton n s) s).
  - split; [|by rewrite Hu]. apply extractUsername_anchors. by rewrite Hu.
Qed.


(** The cases of [displayLocationInfo]. *)
Lemma displayLocationInfo_cases (c : container) (screenName : jsstring)
    (e : cacheEntry) :
  (userName c = None /\
   displayLocationInfo c screenName e = (Container (Some (lit "failed")) None, Returns)) \/
  (exists kids kids',
     userName c = Some kids /\
     insertBeforeHandle (FlagWrapper (bracketedText (info e))) screenName kids
     = Normal kids' /\
     displayLocationInfo c screenName e
     = (Container (Some (lit "true")) (Some kids'), Returns)) \/
  (exists kids,
     userName c = Some kids /\
     insertBeforeHandle (FlagWrapper (bracketedText (info e))) screenName kids
     = Abrupt /\
     displayLocationInfo c screenName e
     = (Container (Some (lit "processing")) (Some kids), Throws)).
Proof.
  unfold displayLocationInfo, buildBracketedDisplay.
  destruct c as [f [kids|]]; cbn [setFlagAdded userName flagAdded].
  - right.
    destruct (insertBeforeHandle (FlagWrapper (bracketedText (info e))) screenName kids)
      as [kids'|] eqn:Hins.
    + left. by exists kids, kids'.
    + right. by exists kids.
  - by left.
Qed.

(** [displayLocationInfo] keeps the links, hence the screen name, and the
    buttons of the container, whether it returns or throws. *)
Lemma displayLocationInfo_keeps (c : container) (s : jsstring) (e : cacheEntry) :
  let c' := fst (displayLocationInfo c s e) in
  extractUsernameFromContainer c' = extractUsernameFromContainer c /\
  buttonsOfNodes (default [] (userName c')) = buttonsOfNodes (default [] (userName c)).
Proof.
  cbv zeta.
  destruct (displayLocationInfo_cases c s e)
    as [(Hu & ->)|[(kids & kids' & Hu & Hins & ->)|(kids & Hu & _ & ->)]];
    cbn [fst].
  - split; [|by rewrite Hu]. apply extractUsername_anchors. by rewrite Hu.
  - split.
    + apply extractUsername_anchors. rewrite Hu. simpl.
      by rewrite (insertBeforeHandle_anchors (FlagWrapper (bracketedText (info e)))
                    s kids kids' eq_refl Hins).
    + rewrite Hu. simpl.
      by apply (insertBeforeHandle_wrapper_buttons (bracketedText (info e)) s).
  - split; [|by rewrite Hu]. apply extractUsername_anchors. by rewrite Hu.
Qed.

(** What [displayLocationInfo] leaves in a container that has a user-name
    element, when it returns. *)
Lemma displayLocationInfo_shown (c : container) (screenName : jsstring)
    (e : cacheEntry) (kids : list node) :
  userName c = Some kids ->
  snd (displayLocationInfo c screenName e) = Returns ->
  let c' := fst (displayLocationInfo c screenName e) in
  flagAdded c' = Some (lit "true") /\
  exists kids', userName c' = Some kids' /\
    FlagWrapper (bracketedText (info e)) ∈ kids' /\
    buttonsOfNodes kids' = buttonsOfNodes kids.
Proof.
  intros Hk. cbv zeta.
  destruct (displayLocationInfo_cases c screenName e)
    as [(Hu & _)|[(k & kids' & Hu & Hins & ->)|(k & _ & _ & ->)]];
    [congruence| |done].
  intros _. cbn [fst flagAdded userName]. split; [done|].
  rewrite Hk in Hu. injection Hu as <-.
  exists kids'. split; [done|]. split.
  - by apply (insertBeforeHandle_elem _ screenName kids).
  - by apply (insertBeforeHandle_wrapper_buttons (bracketedText (info e)) screenName).
Qed.

(** *** The loop over the containers *)

Lemma processContainer_passes (mode : jsval) (cache : gmap jsstring cacheEntry)
    (c : container) (m : nat) :
  alreadyHandled (flagAdded c) = true ->
  processContainer mode cache c m = (c, m, Returns).
Proof.
  intros Hh. unfold processContainer. rewrite Hh.
  by destruct (extractUsernameFromContainer c).
Qed.

(** The loop body on a container whose name has a cache entry: the entry
    is displayed, whatever the mode. *)
Lemma processContainer_cached (mode : jsval) (cache : gmap jsstring cacheEntry)
    (c : container) (next : nat) (screenName : jsstring) (e : cacheEntry) :
  extractUsernameFromContainer c = Some screenName ->
  alreadyHandled (flagAdded c) = false ->
  cache !! screenName = Some e ->
  processContainer mode cache c next
  = (fst (displayLocationInfo c screenName e), next,
     snd (displayLocationInfo c screenName e)).
Proof.
  intros Hn Hs He. unfold processContainer. rewrite Hn, Hs, He.
  by destruct (displayLocationInfo c screenName e).
Qed.

Lemma processContainer_manual_miss (cache : gmap jsstring cacheEntry)
    (c : container) (next : nat) (screenName : jsstring) :
  extractUsernameFromContainer c = Some screenName ->
  alreadyHandled (flagAdded c) = false ->
  cache !! screenName = None ->
  processContainer (JStr MODE_MANUAL) cache c next
  = addButtonToUsername c screenName next.
Proof.
  intros Hn Hs He. unfold processContainer. by rewrite Hn, Hs, He.
Qed.

(** The loop body keeps the screen name of the container. *)
Lemma extractUsername_processContainer (mode : jsval)
    (cache : gmap jsstring cacheEntry) (c : container) (n : nat) :
  extractUsernameFromContainer (fst (fst (processContainer mode cache c n)))
  = extractUsernameFromContainer c.
Proof.
  unfold processContainer.
  destruct (extractUsernameFromContainer c) as [s|] eqn:Hs; [|done].
  destruct (alreadyHandled (flagAdded c)); [done|].
  destruct (cache !! s) as [e|].
  - pose proof (displayLocationInfo_keeps c s e) as [Hk _].
    destruct (displayLocationInfo c s e) as [c' x]. simpl in *. congruence.
  - case_bool_decide; [done|].
    pose proof (addButtonToUsername_keeps c s n) as [Hk _]. simpl in Hk. congruence.
Qed.

(** A container of the page after the loop: the loop body was run on it,
    or an exception left the loop before it was reached.  When the loop
    ends without exception the body was run on it and returned. *)
Lemma processContainers_lookup (mode : jsval) (cache : gmap jsstring cacheEntry)
    (doc : list bodyChild) (next : nat) (i : nat) (c : container) :
  containersOf doc !! i = Some c ->
  exists c',
    containersOf (fst (fst (processContainers mode cache doc next))) !! i = Some c' /\
    (c' = c \/ exists n, c' = fst (fst (processContainer mode cache c n))) /\
    (snd (processContainers mode cache doc next) = Returns ->
     exists n, c' = fst (fst (processContainer mode cache c n)) /\
               snd (processContainer mode cache c n) = Returns).
Proof.
  revert next i. induction doc as [|[c0|x] doc IH]; intros next i;
    cbn [processContainers containersOf flat_map app]; [done| |].
  - destruct (processContainer mode cache c0 next) as [[c0' n1] [|]] eqn:Hc0.
    + pose proof (IH n1) as IH1.
      destruct (processContainers mode cache doc n1) as [[doc' n2] x'].
      cbn [fst snd containersOf flat_map app] in *.
      destruct i as [|i]; cbn [lookup list_lookup].
      * intros [= <-]. exists c0'. split; [done|]. split.
        -- right. exists next. by rewrite Hc0.
        -- intros _. exists next. by rewrite Hc0.
      * apply IH1.
    + cbn [fst snd containersOf flat_map app].
      destruct i as [|i]; cbn [lookup list_lookup].
      * intros [= <-]. exists c0'. split; [done|]. split; [|done].
        right. exists next. by rewrite Hc0.
      * intros Hi. exists c. split; [done|]. split; [by left|done].
  - pose proof (IH next) as IH1.
    destruct (processContainers mode cache doc next) as [[doc' n2] x'].
    cbn [fst snd containersOf flat_map app] in *. apply IH1.
Qed.

(** The other direction: a container of the page after the loop stands
    where a container stood before. *)
Lemma processContainers_from (mode : jsval) (cache : gmap jsstring cacheEntry)
    (doc : list bodyChild) (next : nat) (i : nat) (c' : container) :
  containersOf (fst (fst (processContainers mode cache doc next))) !! i = Some c' ->
  exists c, containersOf doc !! i = Some c.
Proof.
  revert next i. induction doc as [|[c0|x] doc IH]; intros next i;
    cbn [processContainers containersOf flat_map app]; [done| |].
  - destruct (processContainer mode cache c0 next) as [[c0' n1] [|]] eqn:Hc0.
    + pose proof (IH n1) as IH1.
      destruct (processContainers mode cache doc n1) as [[doc' n2] x'].
      cbn [fst snd containersOf flat_map app] in *.
      destruct i as [|i]; cbn [lookup list_lookup]; [by exists c0|apply IH1].
    + cbn [fst snd containersOf flat_map app].
      destruct i as [|i]; cbn [lookup list_lookup]; [by exists c0|].
      intros Hi. by exists c'.
  - pose proof (IH next) as IH1.
    destruct (processContainers mode cache doc next) as [[doc' n2] x'].
    cbn [fst snd containersOf flat_map app] in *. apply IH1.
Qed.

(** [processUsernamesWithMode] in terms of the loop. *)
Lemma processUsernamesWithMode_unfold (mode : jsval) (cache : nat) (w : world) :
  let r := processContainers mode
             (getMap mockLocationCache (resetMockCache cache (heap w)))
             (document w) (nextId w) in
  processUsernamesWithMode mode cache w
  = World (fst (fst r)) (resetMockCache cache (heap w)) (mockStorage w)
          (requestQueueForTest w) (snd (fst r)) (clock w) /\
  processUsernamesWithModeEnds mode cache w = snd r.
Proof.
  cbv zeta. unfold processUsernamesWithMode, processUsernamesWithModeEnds,
    processUsernamesWithModeCall.
  cbn [heap document nextId setHeap].
  by destruct (processContainers _ _ _ _) as [[doc n] x].
Qed.

Lemma processUsernamesWithMode_lookup (mode : jsval) (cache : nat) (w : world)
    (i : nat) (c : container) :
  containersOf (document w) !! i = Some c ->
  exists c',
    containersOf (document (processUsernamesWithMode mode cache w)) !! i = Some c' /\
    (c' = c \/
     exists n, c' = fst (fst (processContainer mode
                    (getMap mockLocationCache (resetMockCache cache (heap w))) c n))) /\
    (processUsernamesWithModeEnds mode cache w = Returns ->
     exists n,
       c' = fst (fst (processContainer mode
                  (getMap mockLocationCache (resetMockCache cache (heap w))) c n)) /\
       snd (processContainer mode
              (getMap mockLocationCache (resetMockCache cache (heap w))) c n)
       = Returns).
Proof.
  intros Hi.
  destruct (processUsernamesWithMode_unfold mode cache w) as [-> ->].
  apply (processContainers_lookup _ _ _ _ _ _ Hi).
Qed.

Lemma processUsernamesWithMode_requests (mode : jsval) (cache : nat) (w : world) :
  requestQueueForTest (processUsernamesWithMode mode cache w) = requestQueueForTest w.
Proof. by destruct (processUsernamesWithMode_unfold mode cache w) as [-> _]. Qed.

(** A [Map] other than [mockLocationCache] is copied into it as it is. *)
Lemma resetMockCache_copy (cache : nat) (h : gmap nat (gmap jsstring cacheEntry)) :
  cache <> mockLocationCache ->
  getMap mockLocationCache (resetMockCache cache h) = getMap cache h.
Proof.
  intros Hne. unfold resetMockCache. rewrite getMap_insert_eq.
  by rewrite getMap_insert_ne.
Qed.


(** *** Changing the mode leaves everything but the page *)

Lemma modeChangeButton_frame (cache : nat) (w : world) (button : nat * jsstring) :
  let w' := fst (modeChangeButton cache w button) in
  heap w' = heap w /\ mockStorage w' = mockStorage w /\
  requestQueueForTest w' = requestQueueForTest w /\ clock w' = clock w /\
  nextId w' = nextId w.
Proof.
  destruct button as [id screenName]. unfold modeChangeButton.
  destruct (negb (nonEmpty screenName)); [done|].
  by destruct (findContainer screenName (document w)).
Qed.

Lemma modeChangeButtons_frame (cache : nat) (buttons : list (nat * jsstring)) (w : world) :
  let w' := fst (modeChangeButtons cache w buttons) in
  heap w' = heap w /\ mockStorage w' = mockStorage w /\
  requestQueueForTest w' = requestQueueForTest w /\ clock w' = clock w /\
  nextId w' = nextId w.
Proof.
  revert w. induction buttons as [|b bs IH]; intros w; cbn [modeChangeButtons]; [done|].
  pose proof (modeChangeButton_frame cache w b) as Hb.
  destruct (modeChangeButton cache w b) as [w1 [|]]; cbn [fst] in *.
  - destruct (IH w1) as (-> & -> & -> & -> & ->). done.
  - done.
Qed.

Lemma handleModeChange_frame (newMode : jsval) (cache : nat) (w : world) :
  let w' := handleModeChange newMode cache w in
  heap w' = heap w /\ mockStorage w' = mockStorage w /\
  requestQueueForTest w' = requestQueueForTest w /\ clock w' = clock w.
Proof.
  unfold handleModeChange, handleModeChangeCall. case_bool_decide.
  - destruct (modeChangeButtons_frame cache (buttonsOf (document w)) w)
      as (? & ? & ? & ? & _). done.
  - by destruct (modeChangeContainers _ _ _) as [[doc n] x].
Qed.

(** C8. [handleModeChange], towards auto or towards manual, leaves every
    [Map] of the heap as it was, so every cached entry, value and expiry, is
    the same after as before; the storage, the requests made and the clock
    are untouched as well: only the page changes. *)
Theorem handleModeChange_preserves_cache (newMode : jsval) (cache : nat) (w : world) :
  let w' := handleModeChange newMode cache w in
  heap w' = heap w /\
  (forall r username, getMap r (heap w') !! username = getMap r (heap w) !! username) /\
  mockStorage w' = mockStorage w /\
  requestQueueForTest w' = requestQueueForTest w /\ clock w' = clock w.
Proof.
  destruct (handleModeChange_frame newMode cache w) as (Hh & Hs & Hq & Hc).
  simpl in *. repeat split; try done. intros r username. by rewrite Hh.
Qed.

(** C1, as amended.  [processUsernamesWithMode] reads the cache before it
    looks at the mode, but only for the containers it does not pass over.
    Take a container with a screen name and without one of the markers
    ['true'], ['processing'], ['waiting'] and ['button'], let its screen
    name have a present, non-expired entry in the [Map] given, a [Map]
    other than [mockLocationCache], and let the call end without
    exception.  Then the entry is displayed in the container: the marker
    becomes ['true'], the wrapper whose text is made of the entry's
    location flag, accuracy and source flag is in the container, no button
    is added, and no lookup is requested.  The container is the same
    whatever the mode, for every mode in which the call ends without
    exception. *)
Theorem cache_first (mode : jsval) (cache : nat) (w : world) (i : nat)
    (c : container) (screenName : jsstring) (e : cacheEntry) :
  containersOf (document w) !! i = Some c ->
  extractUsernameFromContainer c = Some screenName ->
  alreadyHandled (flagAdded c) = false ->
  cache <> mockLocationCache ->
  getMap cache (heap w) !! screenName = Some e ->
  isCacheEntryExpired (clock w) (Some e) = false ->
  processUsernamesWithModeEnds mode cache w = Returns ->
  let w' := processUsernamesWithMode mode cache w in
  (exists c' kids',
     containersOf (document w') !! i = Some c' /\
     c' = fst (displayLocationInfo c screenName e) /\
     flagAdded c' = Some (lit "true") /\
     userName c' = Some kids' /\
     FlagWrapper
       (lit "[" ++ flagOrBullet (locationFlag (info e)) ++ lit " | "
        ++ (if locationAccurate (info e) then checkMark else infoMark)
        ++ lit " | " ++ flagOrBullet (sourceFlag (info e)) ++ lit "]") ∈ kids' /\
     buttonsOfNodes kids' = buttonsOfNodes (default [] (userName c)) /\
     forall mode',
       processUsernamesWithModeEnds mode' cache w = Returns ->
       containersOf (document (processUsernamesWithMode mode' cache w)) !! i
       = Some c') /\
  requestQueueForTest w' = requestQueueForTest w.
Proof.
  intros Hi Hn Hs Hcache He _ Hends. cbv zeta.
  rewrite <- (resetMockCache_copy cache (heap w) Hcache) in He.
  assert (forall m,
            processUsernamesWithModeEnds m cache w = Returns ->
            containersOf (document (processUsernamesWithMode m cache w)) !! i
            = Some (fst (displayLocationInfo c screenName e)) /\
            snd (displayLocationInfo c screenName e) = Returns) as Hany.
  { intros m Hm.
    destruct (processUsernamesWithMode_lookup m cache w i c Hi)
      as (c' & Hc' & _ & Hret).
    destruct (Hret Hm) as (n & -> & Hr).
    rewrite (processContainer_cached _ _ _ _ _ _ Hn Hs He) in Hr, Hc'. done. }
  destruct (Hany mode Hends) as [Hlook Hret].
  split; [|apply processUsernamesWithMode_requests].
  destruct (extractUsername_userName c screenName Hn) as [kids Hk].
  destruct (displayLocationInfo_shown c screenName e kids Hk Hret)
    as (Hflag & kids' & Hk' & Hin & Hb).
  exists (fst (displayLocationInfo c screenName e)), kids'.
  rewrite Hk. simpl. repeat split; try done.
  intros mode' Hm. by destruct (Hany mode' Hm).
Qed.

(** The click handler asks the lookup function once, for the name it was
    given, and leaves the heap alone whatever the answer. *)
Lemma handleButtonClick_effect (respond : jsstring -> lookupOutcome)
    (button : nat) (screenName : jsstring) (w : world) :
  let w' := handleButtonClick respond button screenName w in
  requestQueueForTest w' = requestQueueForTest w ++ [screenName] /\
  heap w' = heap w /\ mockStorage w' = mockStorage w /\ clock w' = clock w.
Proof. done. Qed.






End ContentProperties.

Section ContentWitnesses.

Import Content.

Lemma saveCacheEntry_spec_witness :
  getMap 1 (heap (snd (saveCacheEntry (lit "bob") mockLocationData 1
                         (pageOf (lit "bob") ∅ 1000)))) !! lit "alice"
  = getMap 1 (heap (pageOf (lit "bob") ∅ 1000)) !! lit "alice".
Proof.
  exact (proj1 (proj2 (proj2
    (saveCacheEntry_spec (lit "bob") mockLocationData 1 (pageOf (lit "bob") ∅ 1000))))
    (lit "alice") ltac:(vm_compute; discriminate)).
Defined.

Lemma cache_first_witness :
  requestQueueForTest
    (processUsernamesWithMode (JStr MODE_MANUAL) 1
       (pageOf (lit "bob")
          {[ lit "bob" := CacheEntry mockLocationData (Some 2000%Z) ]} 1000))
  = [].
Proof.
  refine (proj2
    (cache_first (JStr MODE_MANUAL) 1
       (pageOf (lit "bob")
          {[ lit "bob" := CacheEntry mockLocationData (Some 2000%Z) ]} 1000)
       0 (createMockTwitterContainer (lit "bob")) (lit "bob")
       (CacheEntry mockLocationData (Some 2000%Z)) _ _ _ _ _ _ _));
    try (vm_compute; reflexivity).
  discriminate.
Defined.

(** C1, as it was stated, fails in three ways.  On a container the loop
    passes over: the tweet of [bob] got its button while nothing was
    cached, an entry for [bob] is saved afterwards, and processing the page
    again, in auto mode, leaves the button and shows no flag, although the
    entry is present and not expired.  On a name the selector cannot
    carry: for the name made of [a], a double quote and [b], the search
    for the handle section throws, which leaves the marker ['processing'] and no
    flag on its container and ends the call before the tweet of [bob],
    cached as well, is reached.  And when the [Map] given is
    [mockLocationCache] itself: it is emptied before it is read, and in
    auto mode the tweet of [bob] gets the marker ['processing'] and no
    flag. *)
Lemma cache_first_counterexample :
  (let w0 := processUsernamesWithMode (JStr MODE_MANUAL) 1 (pageOf (lit "bob") ∅ 1000) in
   let w1 := snd (saveCacheEntry (lit "bob") mockLocationData 1 w0) in
   let w2 := processUsernamesWithMode (JStr MODE_AUTO) 1 w1 in
   isCacheEntryExpired (clock w1) (getMap 1 (heap w1) !! lit "bob") = false /\
   processUsernamesWithModeEnds (JStr MODE_AUTO) 1 w1 = Returns /\
   containersOf (document w2)
   = [Container (Some (lit "button"))
        (Some [ Div [Anchor (lit "/bob") (lit "Display Name")];
                LocationButton 0 (lit "bob");
                Div [Anchor (lit "/bob") (lit "@bob")] ])] /\
   ~ (exists c' kids' text,
        containersOf (document w2) !! 0%nat = Some c' /\
        userName c' = Some kids' /\ FlagWrapper text ∈ kids')) /\
  (let q := lit "a" ++ [quote] ++ lit "b" in
   let e := CacheEntry mockLocationData (Some 2000%Z) in
   let w := World [ Tweet (createMockTwitterContainer q);
                    Tweet (createMockTwitterContainer (lit "bob")) ]
                  {[ 1%nat := <[q := e]> {[ lit "bob" := e ]} ]} ∅ [] 0 1000 in
   extractUsernameFromContainer (createMockTwitterContainer q) = Some q /\
   isCacheEntryExpired (clock w) (getMap 1 (heap w) !! q) = false /\
   isCacheEntryExpired (clock w) (getMap 1 (heap w) !! lit "bob") = false /\
   processUsernamesWithModeEnds (JStr MODE_AUTO) 1 w = Throws /\
   containersOf (document (processUsernamesWithMode (JStr MODE_AUTO) 1 w))
   = [ Container (Some (lit "processing"))
         (Some [ Div [Anchor (slash :: q) (lit "Display Name")];
                 Div [Anchor (slash :: q) (atSign :: q)] ]);
       createMockTwitterContainer (lit "bob") ]) /\
  (let e := CacheEntry mockLocationData (Some 2000%Z) in
   let w := World [Tweet (createMockTwitterContainer (lit "bob"))]
                  {[ mockLocationCache := {[ lit "bob" := e ]} ]} ∅ [] 0 1000 in
   isCacheEntryExpired (clock w) (getMap mockLocationCache (heap w) !! lit "bob")
   = false /\
   processUsernamesWithModeEnds (JStr MODE_AUTO) mockLocationCache w = Returns /\
   containersOf (document (processUsernamesWithMode (JStr MODE_AUTO)
                             mockLocationCache w))
   = [ Container (Some (lit "processing"))
         (Some [ Div [Anchor (lit "/bob") (lit "Display Name")];
                 Div [Anchor (lit "/bob") (lit "@bob")] ]) ]).
Proof.
  cbv zeta. split; [|split; repeat split; vm_compute; reflexivity].
  split; [vm_compute; reflexivity|]. split; [vm_compute; reflexivity|].
  assert (containersOf (document
            (processUsernamesWithMode (JStr MODE_AUTO) 1
               (snd (saveCacheEntry (lit "bob") mockLocationData 1
                       (processUsernamesWithMode (JStr MODE_MANUAL) 1
                          (pageOf (lit "bob") ∅ 1000))))))
          = [Container (Some (lit "button"))
               (Some [ Div [Anchor (lit "/bob") (lit "Display Name")];
                       LocationButton 0 (lit "bob");
                       Div [Anchor (lit "/bob") (lit "@bob")] ])]) as Hdoc
    by (vm_compute; reflexivity).
  split; [exact Hdoc|]. rewrite Hdoc.
  intros (c' & kids' & text & [= <-] & [= <-] & Hin).
  repeat (apply elem_of_cons in Hin as [Hin|Hin]; [discriminate|]).
  by apply elem_of_nil in Hin.
Qed.


End ContentWitnesses.

Section ModeDefault.

(** What the result of [get] holds under a key. *)
Lemma storage_get_lookup_gen (keys : list jsstring) (st : gmap jsstring jsval)
    (k : jsstring) :
  Storage.get keys st !! k
  = if decide (k ∈ keys)
    then (if strictEq k Storage.PROTO then None else st !! k)
    else None.
Proof.
  unfold Storage.get.
  assert (forall acc : gmap jsstring jsval,
            foldl (fun result key =>
                     match st !! key with
                     | Some v =>
                         if strictEq key Storage.PROTO then result
                         else <[key := v]> result
                     | None => result
                     end) acc keys !! k
            = if decide (k ∈ keys)
              then (if strictEq k Storage.PROTO then acc !! k
                    else match st !! k with Some v => Some v | None => acc !! k end)
              else acc !! k) as Hgen.
  { induction keys as [|key keys IH]; intros acc; cbn [foldl].
    - destruct (decide (k ∈ [])) as [Hin|_]; [|done].
      by apply elem_of_nil in Hin.
    - rewrite IH.
      assert (k <> key ->
              match st !! key with
              | Some v =>
                  if strictEq key Storage.PROTO then acc else <[key:=v]> acc
              | None => acc
              end !! k = acc !! k) as Hother.
      { intros Hne. destruct (st !! key); [|done].
        destruct (strictEq key Storage.PROTO); [done|by rewrite lookup_insert_ne]. }
      assert (match st !! k with
              | Some v => if strictEq k Storage.PROTO then acc else <[k:=v]> acc
              | None => acc
              end !! k
              = if strictEq k Storage.PROTO then acc !! k
                else match st !! k with Some v => Some v | None => acc !! k end)
        as Hsame.
      { destruct (st !! k); [|by destruct (strictEq k Storage.PROTO)].
        destruct (strictEq k Storage.PROTO); [done|by rewrite lookup_insert_eq]. }
      destruct (decide (k ∈ keys)) as [Hin|Hnin];
        destruct (decide (k ∈ key :: keys)) as [Hin'|Hnin'].
      + destruct (decide (k = key)) as [<-|Hne].
        * rewrite Hsame. destruct (strictEq k Storage.PROTO); [done|].
          by destruct (st !! k).
        * by rewrite Hother.
      + exfalso. apply Hnin'. by right.
      + apply elem_of_cons in Hin' as [<-|Hin']; [|done]. apply Hsame.
      + apply Hother. intros ->. apply Hnin'. by left. }
  rewrite Hgen, lookup_empty. destruct (decide (k ∈ keys)); [|done].
  destruct (strictEq k Storage.PROTO); [done|]. by destruct (st !! k).
Qed.

(** Under a key other than [__proto__]: the stored value, when the key was
    requested. *)
Lemma storage_get_lookup (keys : list jsstring) (st : gmap jsstring jsval)
    (k : jsstring) :
  k <> Storage.PROTO ->
  Storage.get keys st !! k = if decide (k ∈ keys) then st !! k else None.
Proof.
  intros Hk. rewrite storage_get_lookup_gen. unfold strictEq.
  by rewrite (bool_decide_eq_false_2 _ Hk).
Qed.

Lemma mode_key_plain : Content.MODE_KEY <> Storage.PROTO.
Proof. vm_compute. discriminate. Qed.

Lemma toggle_key_plain : Popup.TOGGLE_KEY <> Storage.PROTO.
Proof. vm_compute. discriminate. Qed.

(** C9. With no mode preference in storage, [loadMode] of the content
    script gives ['auto'] and leaves the world, storage included, as it
    was; the popup computes the same default, which is its [DEFAULT_MODE],
    shows the auto button as active and writes nothing either. *)
Theorem loadMode_defaults_to_auto (w : Content.world) (pw : Popup.world) :
  Content.mockStorage w !! Content.MODE_KEY = None ->
  Popup.storage pw !! Popup.MODE_KEY = None ->
  Content.loadMode w = (JStr Content.MODE_AUTO, w) /\
  Popup.storedMode (Popup.storage pw) = JStr Popup.DEFAULT_MODE /\
  Popup.DEFAULT_MODE = Content.MODE_AUTO /\
  Popup.storage (Popup.loadState pw) = Popup.storage pw /\
  Popup.autoActive (Popup.ui (Popup.loadState pw)) = true /\
  Popup.manualActive (Popup.ui (Popup.loadState pw)) = false.
Proof.
  intros Hc Hp.
  assert (Storage.get [Popup.TOGGLE_KEY; Popup.MODE_KEY] (Popup.storage pw)
            !! Popup.MODE_KEY = None) as Hget.
  { rewrite storage_get_lookup by apply mode_key_plain. by destruct (decide _). }
  split.
  { unfold Content.loadMode. rewrite storage_get_lookup by apply mode_key_plain.
    destruct (decide _); by rewrite ?Hc. }
  split; [unfold Popup.storedMode; by rewrite Hget|].
  split; [done|]. split; [done|].
  unfold Popup.loadState. rewrite Hget. simpl.
  unfold Popup.loadMode, Popup.updateModeUI. simpl. done.
Qed.

Lemma loadMode_defaults_to_auto_witness :
  Content.loadMode (Content.World [] ∅ ∅ [] 0 0)
    = (JStr Content.MODE_AUTO, Content.World [] ∅ ∅ [] 0 0) /\
  Popup.autoActive
    (Popup.ui (Popup.loadState
                 (Popup.World ∅ (Popup.View false [] [] false false) None [])))
    = true.
Proof.
  pose proof (loadMode_defaults_to_auto
                (Content.World [] ∅ ∅ [] 0 0)
                (Popup.World ∅ (Popup.View false [] [] false false) None [])
                (lookup_empty _) (lookup_empty _)) as H.
  split; [exact (proj1 H) | exact (proj1 (proj2 (proj2 (proj2 (proj2 H)))))].
Defined.

End ModeDefault.

Section SchedulerProperties.

Import Scheduler.

Context {V : Type}.
Variable cfg : config.

Implicit Types (s : state (V := V)) (k : jsstring) (t : gmap jsstring processingState).

Lemma stateOf_insert_eq t k x : stateOf (<[k := x]> t) k = x.
Proof. unfold stateOf. by rewrite lookup_insert_eq. Qed.

Lemma stateOf_insert_ne t k k' x : k <> k' -> stateOf (<[k := x]> t) k' = stateOf t k'.
Proof. intros Hne. unfold stateOf. by rewrite lookup_insert_ne. Qed.

Lemma stateOf_InFlight t k : stateOf t k = InFlight -> t !! k = Some InFlight.
Proof. unfold stateOf. destruct (t !! k) as [x|]; simpl; congruence. Qed.

Lemma inFlightOnly_start t k :
  stateOf t k <> InFlight ->
  inFlightOnly (<[k := InFlight]> t) = S (inFlightOnly t).
Proof.
  intros Hne. unfold inFlightOnly.
  rewrite map_filter_insert_True by done.
  apply map_size_insert_None. apply map_lookup_filter_None.
  unfold stateOf in Hne. destruct (t !! k) as [x|]; [right|by left].
  intros y [= <-]. simpl in *. congruence.
Qed.

Lemma inFlightOnly_same t k x :
  x <> InFlight -> stateOf t k <> InFlight ->
  inFlightOnly (<[k := x]> t) = inFlightOnly t.
Proof.
  intros Hx Hne. unfold inFlightOnly. f_equal.
  apply map_filter_insert_not'; [done|].
  intros y Hy. unfold stateOf in Hne. rewrite Hy in Hne. simpl in *. congruence.
Qed.

Lemma inFlightOnly_end t k x :
  x <> InFlight -> stateOf t k = InFlight ->
  inFlightOnly (<[k := x]> t) = pred (inFlightOnly t).
Proof.
  intros Hx Hk. unfold inFlightOnly.
  rewrite map_filter_insert_False by done.
  rewrite map_filter_delete. apply map_size_delete_Some.
  exists InFlight. apply map_lookup_filter_Some. split; [|done].
  by apply stateOf_InFlight.
Qed.

Lemma get_later (c : gmap jsstring (cacheEntry (V := V))) k (t1 t2 : Z) :
  (t1 <= t2)%Z -> get t1 c k = None -> get t2 c k = None.
Proof.
  unfold get. destruct (c !! k) as [e|]; [|done].
  destruct (Z.ltb_spec t1 (expiresAt e)); [done|]. intros Hle _.
  destruct (Z.ltb_spec t2 (expiresAt e)); [lia|done].
Qed.

Lemma resolveAll_lookup (fs : list nat) (v : option V) (m : gmap nat (option V)) (f : nat) :
  resolveAll fs v m !! f = if decide (f ∈ fs) then Some v else m !! f.
Proof.
  induction fs as [|g fs IH]; simpl.
  - destruct (decide (f ∈ [])) as [Hin|_]; [by apply elem_of_nil in Hin|done].
  - destruct (decide (f = g)) as [->|Hne].
    + rewrite lookup_insert_eq. rewrite decide_True; [done|by left].
    + rewrite lookup_insert_ne by done. rewrite IH.
      destruct (decide (f ∈ fs)) as [Hin|Hnin].
      * rewrite decide_True; [done|by right].
      * rewrite decide_False; [done|]. rewrite elem_of_cons. tauto.
Qed.

Lemma initial_invariant (t0 : Z) : invariant (V := V) cfg (initial cfg t0).
Proof.
  split; simpl; try done.
  - constructor.
  - intros item Hin. by apply elem_of_nil in Hin.
  - intros k. left. done.
  - lia.
  - intros k f Hin. unfold pendingOf in Hin. simpl in Hin.
    rewrite lookup_empty in Hin. by apply elem_of_nil in Hin.
  - intros k k' f Hin. unfold pendingOf in Hin. simpl in Hin.
    rewrite lookup_empty in Hin. by apply elem_of_nil in Hin.
Qed.

Lemma tryClaim_idle t k :
  stateOf t k = Idle -> tryClaim k t = Claimed (<[k := Queued]> t).
Proof. intros Hk. unfold tryClaim. by rewrite Hk. Qed.

Lemma tryClaim_active t k :
  stateOf t k <> Idle -> tryClaim k t = AlreadyActive.
Proof. intros Hk. unfold tryClaim. by destruct (stateOf t k). Qed.

Lemma queued_elem_of s k :
  (forall item, item ∈ queue s -> stateOf (tracker s) (key item) = Queued) ->
  stateOf (tracker s) k <> Queued -> k ∉ map key (queue s).
Proof.
  intros Hq Hk Hin. apply list_elem_of_fmap in Hin as (item & -> & Hitem).
  by apply Hk, Hq.
Qed.

Lemma submit_invariant s k : invariant cfg s -> invariant cfg (snd (submit k s)).
Proof.
  intros [Hnd Hq Hiq Hst Hcnt Hbd Hmiss Hpend Huns Hown Hfresh Hpaced Hlast].
  unfold submit. destruct (get (now s) (cache s) k) as [v|] eqn:Hget.
  { split; simpl; try done.
    - intros k' f Hin. destruct (Huns k' f Hin) as [Hn Hlt]. split; [|lia].
      rewrite lookup_insert_ne; [done|lia].
    - intros f Hle. rewrite lookup_insert_ne; [|lia]. apply Hfresh. lia. }
  destruct (decide (stateOf (tracker s) k = Idle)) as [Hk|Hk].
  - rewrite (tryClaim_idle _ _ Hk). split; simpl.
    + rewrite map_app. simpl. apply NoDup_app. split; [done|]. split.
      * intros k' Hin Hin'. apply list_elem_of_singleton in Hin' as ->.
        revert Hin. apply (queued_elem_of s k Hq). congruence.
      * apply NoDup_singleton.
    + intros item [Hin|Hin]%elem_of_app.
      * destruct (decide (k = key item)) as [<-|Hne].
        -- by rewrite stateOf_insert_eq.
        -- rewrite stateOf_insert_ne by done. by apply Hq.
      * apply list_elem_of_singleton in Hin as ->. simpl.
        by rewrite stateOf_insert_eq.
    + intros k'. rewrite map_app, elem_of_app. simpl.
      destruct (decide (k = k')) as [<-|Hne].
      * intros _. right. by left.
      * rewrite stateOf_insert_ne by done. intros Hk'. left. by apply Hiq.
    + intros k'. destruct (decide (k = k')) as [<-|Hne].
      * rewrite stateOf_insert_eq. auto.
      * rewrite stateOf_insert_ne by done. apply Hst.
    + unfold outstanding. simpl. rewrite inFlightOnly_same; [done|done|congruence].
    + done.
    + intros k'. destruct (decide (k = k')) as [<-|Hne]; [done|].
      rewrite stateOf_insert_ne by done. apply Hmiss.
    + intros k'. unfold pendingOf. simpl.
      destruct (decide (k = k')) as [<-|Hne].
      * by rewrite stateOf_insert_eq.
      * rewrite stateOf_insert_ne, lookup_insert_ne by done. apply Hpend.
    + intros k' f. unfold pendingOf. simpl.
      destruct (decide (k = k')) as [<-|Hne].
      * rewrite lookup_insert_eq. simpl. intros ->%list_elem_of_singleton.
        split; [|lia]. by apply Hfresh.
      * rewrite lookup_insert_ne by done. intros Hin.
        destruct (Huns k' f Hin). split; [done|lia].
    + intros k1 k2 f. unfold pendingOf. simpl.
      destruct (decide (k = k1)) as [<-|Hne1]; destruct (decide (k = k2)) as [<-|Hne2];
        rewrite ?lookup_insert_eq, ?lookup_insert_ne by done; simpl; try done.
      * intros ->%list_elem_of_singleton Hin. destruct (Huns k2 _ Hin). lia.
      * intros Hin ->%list_elem_of_singleton. destruct (Huns k1 _ Hin). lia.
      * apply Hown.
    + intros f Hle. apply Hfresh. lia.
    + done.
    + done.
  - rewrite (tryClaim_active _ _ Hk). split; simpl; try done.
    + intros k'. unfold pendingOf. simpl. intros Hk'.
      rewrite lookup_insert_ne by congruence. by apply Hpend.
    + intros k' f. unfold pendingOf. simpl.
      destruct (decide (k = k')) as [<-|Hne].
      * rewrite lookup_insert_eq. simpl. intros [Hin | ->%list_elem_of_singleton]%elem_of_app.
        -- destruct (Huns k f Hin). split; [done|lia].
        -- split; [|lia]. by apply Hfresh.
      * rewrite lookup_insert_ne by done. intros Hin.
        destruct (Huns k' f Hin). split; [done|lia].
    + intros k1 k2 f. unfold pendingOf. simpl.
      destruct (decide (k = k1)) as [<-|Hne1]; destruct (decide (k = k2)) as [<-|Hne2];
        rewrite ?lookup_insert_eq, ?lookup_insert_ne by done; simpl; try done.
      * intros [Hin | ->%list_elem_of_singleton]%elem_of_app Hin'.
        -- by apply (Hown k k2 f).
        -- destruct (Huns k2 _ Hin'). lia.
      * intros Hin' [Hin | ->%list_elem_of_singleton]%elem_of_app.
        -- by apply (Hown k1 k f).
        -- destruct (Huns k1 _ Hin'). lia.
      * apply Hown.
    + intros f Hle. apply Hfresh. lia.
Qed.

Lemma tryAcquire_granted (t : Z) (l l' : rateLimiterState) :
  tryAcquire cfg t l = Granted l' ->
  l' = RateLimiterState t (S (inFlightCount l)) (blockedUntil l) /\
  (inFlightCount l < maxConcurrent cfg)%nat /\
  (minInterval cfg <= t - lastDispatchAt l)%Z /\
  (forall b, blockedUntil l = Some b -> (b <= t)%Z).
Proof.
  unfold tryAcquire.
  destruct (Nat.ltb_spec (inFlightCount l) (maxConcurrent cfg)); simpl; [|done].
  destruct (Z.leb_spec (minInterval cfg) (t - lastDispatchAt l)); simpl; [|done].
  destruct (blockedUntil l) as [b|] eqn:Hb.
  - destruct (Z.leb_spec b t); [|done]. intros [= <-]. repeat split; try done.
    by intros b' [= <-].
  - intros [= <-]. repeat split; done.
Qed.

Lemma drain_invariant s : invariant cfg s -> invariant cfg (drain cfg s).
Proof.
  intros Hinv. unfold drain. destruct (queue s) as [|item rest] eqn:Hqueue; [done|].
  destruct (tryAcquire cfg (now s) (limiter s)) as [l|] eqn:Hacq; [|done].
  destruct Hinv as [Hnd Hq Hiq Hst Hcnt Hbd Hmiss Hpend Huns Hown Hfresh Hpaced Hlast].
  apply tryAcquire_granted in Hacq as (-> & Hlt & Hgap & _).
  rewrite Hqueue in Hnd, Hq. simpl in Hnd. apply NoDup_cons in Hnd as [Hnotin Hnd].
  assert (stateOf (tracker s) (key item) = Queued) as Hitem by (apply Hq; left).
  unfold markInFlight. split; simpl; try done.
  - intros item' Hin. rewrite stateOf_insert_ne.
    + apply Hq. by right.
    + intros Heq. apply Hnotin. rewrite Heq. by apply list_elem_of_fmap_2.
  - intros k. destruct (decide (key item = k)) as [<-|Hne].
    + by rewrite stateOf_insert_eq.
    + rewrite stateOf_insert_ne by done. intros Hk. apply Hiq in Hk.
      rewrite Hqueue in Hk. simpl in Hk. by apply elem_of_cons in Hk as [->|Hk].
  - intros k. destruct (decide (key item = k)) as [<-|Hne].
    + rewrite stateOf_insert_eq. auto.
    + rewrite stateOf_insert_ne by done. apply Hst.
  - unfold outstanding. simpl. rewrite inFlightOnly_start; [|congruence].
    by rewrite Hcnt.
  - intros k. destruct (decide (key item = k)) as [<-|Hne].
    + intros _. apply Hmiss. congruence.
    + rewrite stateOf_insert_ne by done. apply Hmiss.
  - intros k. destruct (decide (key item = k)) as [<-|Hne].
    + by rewrite stateOf_insert_eq.
    + rewrite stateOf_insert_ne by done. apply Hpend.
  - destruct (dispatched s) as [|[k' t'] ds] eqn:Hds; [done|].
    split; [|done]. simpl. by rewrite (Hlast _ _ eq_refl) in Hgap.
  - by intros d ds [= <- _].
Qed.

Lemma pendingOf_delete_eq s k (c : gmap jsstring (cacheEntry (V := V))) t
    (l : rateLimiterState) (v : option V) :
  pendingOf (finish k v c t l s) k = [].
Proof. unfold pendingOf, finish. simpl. by rewrite lookup_delete_eq. Qed.

Lemma pendingOf_delete_ne s k k' (c : gmap jsstring (cacheEntry (V := V))) t
    (l : rateLimiterState) (v : option V) :
  k <> k' -> pendingOf (finish k v c t l s) k' = pendingOf s k'.
Proof. intros Hne. unfold pendingOf, finish. simpl. by rewrite lookup_delete_ne. Qed.

(** Letting a key in flight go keeps the invariant, provided the cache it
    leaves has no valid entry for the keys that still have work
    outstanding. *)
Lemma finish_invariant s k (v : option V) (c : gmap jsstring (cacheEntry (V := V)))
    (x : processingState)
    (l : rateLimiterState) :
  invariant cfg s ->
  stateOf (tracker s) k = InFlight ->
  (forall k', k' <> k -> get (now s) c k' = get (now s) (cache s) k') ->
  lastDispatchAt l = lastDispatchAt (limiter s) ->
  inFlightCount l = pred (inFlightCount (limiter s)) ->
  invariant cfg (finish k v c (<[k := x]> (tracker s)) l s).
Proof.
  intros [Hnd Hq Hiq Hst Hcnt Hbd Hmiss Hpend Huns Hown Hfresh Hpaced Hlast] Hk Hc Hl Hn.
  unfold backToIdle. split.
  - done.
  - intros item Hin. simpl in *. unfold backToIdle.
    rewrite insert_insert_eq, stateOf_insert_ne; [by apply Hq|].
    intros ->. apply Hq in Hin. congruence.
  - intros k'. simpl. unfold backToIdle. rewrite insert_insert_eq.
    destruct (decide (k = k')) as [<-|Hne].
    + by rewrite stateOf_insert_eq.
    + rewrite stateOf_insert_ne by done. apply Hiq.
  - intros k'. simpl. unfold backToIdle. rewrite insert_insert_eq.
    destruct (decide (k = k')) as [<-|Hne].
    + rewrite stateOf_insert_eq. auto.
    + rewrite stateOf_insert_ne by done. apply Hst.
  - unfold outstanding. simpl. unfold backToIdle. rewrite insert_insert_eq.
    rewrite inFlightOnly_end; [|done|done]. rewrite Hn. by rewrite Hcnt.
  - simpl. rewrite Hn. lia.
  - intros k'. simpl. unfold backToIdle. rewrite insert_insert_eq.
    destruct (decide (k = k')) as [<-|Hne].
    + by rewrite stateOf_insert_eq.
    + rewrite stateOf_insert_ne by done. intros Hk'. rewrite Hc by done.
      by apply Hmiss.
  - intros k'. destruct (decide (k = k')) as [<-|Hne].
    + intros _. apply pendingOf_delete_eq.
    + rewrite pendingOf_delete_ne by done. simpl. unfold backToIdle.
      rewrite insert_insert_eq, stateOf_insert_ne by done. apply Hpend.
  - intros k' f. destruct (decide (k = k')) as [<-|Hne].
    + rewrite pendingOf_delete_eq. by intros Hin%elem_of_nil.
    + rewrite pendingOf_delete_ne by done. intros Hin. simpl.
      destruct (Huns k' f Hin) as [Hnone Hlt]. split; [|done].
      rewrite resolveAll_lookup. rewrite decide_False; [done|].
      intros Hin'. apply Hne. by apply (Hown k k' f).
  - intros k1 k2 f. destruct (decide (k = k1)) as [<-|Hne1].
    + rewrite pendingOf_delete_eq. by intros Hin%elem_of_nil.
    + destruct (decide (k = k2)) as [<-|Hne2].
      * rewrite (pendingOf_delete_eq s k). by intros _ Hin%elem_of_nil.
      * rewrite !pendingOf_delete_ne by done. apply Hown.
  - intros f Hle. simpl in *. rewrite resolveAll_lookup. rewrite decide_False.
    + by apply Hfresh.
    + intros Hin. destruct (Huns k f Hin). lia.
  - done.
  - intros d ds Hd. simpl in *. rewrite Hl. by apply (Hlast d ds).
Qed.

Lemma get_set_ne (t0 : Z) (c : gmap jsstring (cacheEntry (V := V))) k k' (v : V) (d : Z) :
  k' <> k -> get t0 (set t0 c k v d) k' = get t0 c k'.
Proof. intros Hne. unfold get, set. by rewrite lookup_insert_ne. Qed.

Lemma complete_invariant s k (r : result) :
  invariant cfg s -> invariant cfg (complete cfg k r s).
Proof.
  intros Hinv. unfold complete.
  destruct (stateOf (tracker s) k) eqn:Hk; try done.
  destruct r as [v|resetAt|reason].
  - apply finish_invariant; try done. intros k' Hne. by apply get_set_ne.
  - destruct (requeueThrottled cfg).
    + destruct Hinv as [Hnd Hq Hiq Hst Hcnt Hbd Hmiss Hpend Huns Hown Hfresh Hpaced Hlast].
      split; simpl; try done.
      * apply NoDup_cons. split; [|done]. apply (queued_elem_of s k Hq). congruence.
      * intros item [->|Hin]%elem_of_cons.
        -- simpl. by rewrite stateOf_insert_eq.
        -- destruct (decide (k = key item)) as [<-|Hne].
           ++ by rewrite stateOf_insert_eq.
           ++ rewrite stateOf_insert_ne by done. by apply Hq.
      * intros k'. destruct (decide (k = k')) as [<-|Hne].
        -- intros _. by left.
        -- rewrite stateOf_insert_ne by done. intros Hk'. right. by apply Hiq.
      * intros k'. destruct (decide (k = k')) as [<-|Hne].
        -- rewrite stateOf_insert_eq. auto.
        -- rewrite stateOf_insert_ne by done. apply Hst.
      * unfold outstanding. simpl. rewrite inFlightOnly_end; [|done|done].
        by rewrite Hcnt.
      * lia.
      * intros k'. destruct (decide (k = k')) as [<-|Hne].
        -- intros _. apply Hmiss. congruence.
        -- rewrite stateOf_insert_ne by done. apply Hmiss.
      * intros k'. destruct (decide (k = k')) as [<-|Hne].
        -- by rewrite stateOf_insert_eq.
        -- rewrite stateOf_insert_ne by done. apply Hpend.
    + by apply finish_invariant.
  - by apply finish_invariant.
Qed.

Lemma step_invariant s (e : event) : invariant cfg s -> invariant cfg (step cfg s e).
Proof.
  destruct e as [k|k| |k r|dt]; simpl.
  - apply submit_invariant.
  - apply submit_invariant.
  - apply drain_invariant.
  - apply complete_invariant.
  - intros [Hnd Hq Hiq Hst Hcnt Hbd Hmiss Hpend Huns Hown Hfresh Hpaced Hlast].
    split; simpl; try done.
    intros k Hk. apply (get_later _ _ (now s)); [lia|by apply Hmiss].
Qed.

Lemma run_invariant (es : list event) s : invariant cfg s -> invariant cfg (run cfg es s).
Proof.
  unfold run. revert s. induction es as [|e es IH]; intros s Hs; simpl; [done|].
  by apply IH, step_invariant.
Qed.

Lemma paced_lookup (ds : list (jsstring * Z)) (i : nat) (d1 d2 : jsstring * Z) :
  paced cfg ds -> ds !! i = Some d1 -> ds !! S i = Some d2 ->
  (minInterval cfg <= snd d1 - snd d2)%Z.
Proof.
  revert i. induction ds as [|d ds IH]; intros i; [done|].
  destruct ds as [|[k' t'] ds']; [by destruct i|].
  intros [Hgap Hrest]. destruct i as [|i]; simpl.
  - by intros [= <-] [= <-].
  - intros H1 H2. by apply (IH i).
Qed.

(** C5. Along every run of the scheduler from its start, whatever mix of
    submissions made while processing keys and of explicit triggers (button
    clicks) it handles, any two consecutive Fetcher invocations start at
    least [minInterval] apart, and the calls without an answer never exceed
    [maxConcurrent], which is the count the limiter keeps.  An explicit
    trigger takes the same path as any other submission, and the defaults
    are 2000 ms and 2. *)
Theorem pacing_and_concurrency (t0 : Z) (es : list event) :
  let s : state (V := V) := run cfg es (initial cfg t0) in
  (forall i d1 d2,
     dispatched s !! i = Some d1 -> dispatched s !! S i = Some d2 ->
     (minInterval cfg <= snd d1 - snd d2)%Z) /\
  (outstanding s <= maxConcurrent cfg)%nat /\
  outstanding s = inFlightCount (limiter s) /\
  (forall (s' : state (V := V)) k,
     step cfg s' (TriggerFetch k) = step cfg s' (Submit k)) /\
  minInterval defaults = 2000%Z /\ maxConcurrent defaults = 2%nat.
Proof.
  intros s.
  assert (invariant cfg s) as Hinv by apply run_invariant, initial_invariant.
  destruct Hinv as [Hnd Hq Hiq Hst Hcnt Hbd Hmiss Hpend Huns Hown Hfresh Hpaced Hlast].
  split; [|split; [|split; [|split]]]; try done.
  - intros i d1 d2. by apply paced_lookup.
  - by rewrite <- Hcnt.
Qed.

Lemma strictEq_true (a b : jsstring) : strictEq a b = true <-> a = b.
Proof. unfold strictEq. apply bool_decide_eq_true. Qed.

Lemma strictEq_false (a b : jsstring) : strictEq a b = false <-> a <> b.
Proof. unfold strictEq. apply bool_decide_eq_false. Qed.

(** A submission for another key leaves everything about [k] alone. *)
Lemma submit_other s k k' :
  k' <> k ->
  let s' := snd (submit k' s) in
  stateOf (tracker s') k = stateOf (tracker s) k /\
  pendingOf s' k = pendingOf s k /\
  cache s' = cache s /\ now s' = now s /\ dispatched s' = dispatched s.
Proof.
  intros Hne. unfold submit.
  destruct (get (now s) (cache s) k'); [done|].
  unfold tryClaim. destruct (stateOf (tracker s) k'); simpl; unfold pendingOf; simpl;
    rewrite ?stateOf_insert_ne, ?lookup_insert_ne by done; done.
Qed.

Lemma submit_future s k : fst (submit k s) = nextFuture s.
Proof.
  unfold submit. destruct (get (now s) (cache s) k); [done|].
  by destruct (tryClaim k (tracker s)).
Qed.

Lemma submit_nextFuture s k : nextFuture (snd (submit k s)) = S (nextFuture s).
Proof.
  unfold submit. destruct (get (now s) (cache s) k); [done|].
  by destruct (tryClaim k (tracker s)).
Qed.

(** A submission for [k] itself moves its lookup from not asked for to
    queued, or attaches one more future to it. *)
Lemma submit_phase s k n fs :
  invariant cfg s ->
  lookupPhase k n fs s ->
  lookupPhase k n (fs ++ [nextFuture s]) (snd (submit k s)).
Proof.
  intros Hinv Hphase.
  assert (get (now s) (cache s) k = None) as Hget.
  { destruct Hphase as [(_ & _ & Hget & _)|[(_ & Hk & _)|(_ & Hk & _)]];
      [done| |]; apply (inv_miss _ _ Hinv); congruence. }
  assert (fs ++ [nextFuture s] <> []) as Hnil by (by destruct fs).
  unfold submit. rewrite Hget.
  destruct Hphase as [(-> & Hk & _ & Hn)|[(_ & Hk & Hp & Hn)|(_ & Hk & Hp & Hn)]].
  - rewrite (tryClaim_idle _ _ Hk). right. left. simpl.
    split; [done|]. split; [by rewrite stateOf_insert_eq|].
    split; [|done]. unfold pendingOf. simpl. by rewrite lookup_insert_eq.
  - rewrite tryClaim_active by congruence. right. left. simpl.
    split; [done|]. split; [done|]. split; [|done].
    unfold pendingOf. simpl. rewrite lookup_insert_eq. simpl.
    by rewrite <- Hp.
  - rewrite tryClaim_active by congruence. right. right. simpl.
    split; [done|]. split; [done|]. split; [|done].
    unfold pendingOf. simpl. rewrite lookup_insert_eq. simpl.
    by rewrite <- Hp.
Qed.

Lemma phase_frame s s' k n fs :
  lookupPhase k n fs s ->
  stateOf (tracker s') k = stateOf (tracker s) k ->
  pendingOf s' k = pendingOf s k ->
  (get (now s) (cache s) k = None -> get (now s') (cache s') k = None) ->
  invocationsFor k s' = invocationsFor k s ->
  lookupPhase k n fs s'.
Proof.
  intros Hphase Hk Hp Hg Hi. unfold lookupPhase. rewrite Hk, Hp, Hi.
  destruct Hphase as [(? & ? & ? & ?)|[?|?]]; auto.
  left. auto.
Qed.

Lemma drain_phase s k n fs :
  invariant cfg s ->
  lookupPhase k n fs s ->
  lookupPhase k n fs (drain cfg s).
Proof.
  intros Hinv Hphase. unfold drain.
  destruct (queue s) as [|item rest] eqn:Hqueue; [done|].
  destruct (tryAcquire cfg (now s) (limiter s)) as [l|]; [|done].
  assert (stateOf (tracker s) (key item) = Queued) as Hitem.
  { apply (inv_queued _ _ Hinv). rewrite Hqueue. by left. }
  destruct (decide (key item = k)) as [Heq|Hne].
  - rewrite Heq in Hitem.
    destruct Hphase as [(_ & Hk & _)|[(Hfs & Hk & Hp & Hn)|(_ & Hk & _)]];
      [congruence| |congruence].
    right. right. unfold markInFlight. simpl. rewrite Heq.
    split; [done|]. split; [by rewrite stateOf_insert_eq|]. split; [done|].
    unfold invocationsFor in *. simpl.
    rewrite (proj2 (strictEq_true k k) eq_refl). simpl. by rewrite Hn.
  - apply (phase_frame s); try done.
    + unfold markInFlight. simpl. by rewrite stateOf_insert_ne.
    + unfold invocationsFor. simpl.
      by rewrite (proj2 (strictEq_false (key item) k) Hne).
Qed.

Lemma complete_other s k k' (r : result) :
  k' <> k ->
  let s' := complete cfg k' r s in
  stateOf (tracker s') k = stateOf (tracker s) k /\
  pendingOf s' k = pendingOf s k /\
  get (now s') (cache s') k = get (now s) (cache s) k /\
  dispatched s' = dispatched s.
Proof.
  intros Hne. unfold complete.
  destruct (stateOf (tracker s) k'); try done.
  destruct r as [v|resetAt|reason]; [| destruct (requeueThrottled cfg) |];
    simpl; unfold pendingOf, backToIdle, markDone, markFailed; simpl;
    rewrite ?insert_insert_eq, ?stateOf_insert_ne, ?lookup_delete_ne by done;
    try done.
  split; [done|]. split; [done|]. split; [|done]. by apply get_set_ne.
Qed.

Lemma step_phase s k n fs (e : event) :
  invariant cfg s ->
  answersFor k e = false ->
  lookupPhase k n fs s ->
  lookupPhase k n (fs ++ futuresFor cfg k [e] s) (step cfg s e).
Proof.
  intros Hinv He Hphase.
  assert (forall k', lookupPhase k n
             (fs ++ (if strictEq k' k then [fst (submit k' s)] else []))
             (snd (submit k' s))) as Hsubmit.
  { intros k'. destruct (decide (k' = k)) as [->|Hne].
    - rewrite (proj2 (strictEq_true k k) eq_refl), submit_future.
      by apply submit_phase.
    - rewrite (proj2 (strictEq_false k' k) Hne), app_nil_r.
      destruct (submit_other s k k' Hne) as (Hk & Hp & Hc & Ht & Hd).
      apply (phase_frame s); try done.
      + by rewrite Hc, Ht.
      + unfold invocationsFor. by rewrite Hd. }
  destruct e as [k'|k'| |k' r|dt]; simpl.
  - apply Hsubmit.
  - apply Hsubmit.
  - rewrite app_nil_r. by apply drain_phase.
  - rewrite app_nil_r. simpl in He. apply strictEq_false in He.
    destruct (complete_other s k k' r He) as (Hk & Hp & Hg & Hd).
    apply (phase_frame s); try done.
    + by rewrite Hg.
    + unfold invocationsFor. by rewrite Hd.
  - rewrite app_nil_r. apply (phase_frame s); try done. simpl.
    apply get_later. lia.
Qed.

Lemma futuresFor_cons k (e : event) (es : list event) s :
  futuresFor cfg k (e :: es) s
  = futuresFor cfg k [e] s ++ futuresFor cfg k es (step cfg s e).
Proof.
  simpl. destruct e as [k'|k'| |k' r|dt]; simpl; try done;
    by destruct (strictEq k' k).
Qed.

Lemma run_phase (es : list event) s k n fs :
  invariant cfg s ->
  forallb (fun e => negb (answersFor k e)) es = true ->
  lookupPhase k n fs s ->
  lookupPhase k n (fs ++ futuresFor cfg k es s) (run cfg es s).
Proof.
  unfold run. revert s fs. induction es as [|e es IH]; intros s fs Hinv Hes Hphase.
  - simpl. by rewrite app_nil_r.
  - apply andb_true_iff in Hes as [He Hes]. apply negb_true_iff in He.
    rewrite futuresFor_cons, app_assoc. cbn [foldl].
    apply IH; [by apply step_invariant|done|by apply step_phase].
Qed.

Lemma step_nextFuture s (e : event) : (nextFuture s <= nextFuture (step cfg s e))%nat.
Proof.
  destruct e as [k'|k'| |k' r|dt]; simpl; rewrite ?submit_nextFuture; try lia.
  - unfold drain. destruct (queue s); [done|].
    by destruct (tryAcquire cfg (now s) (limiter s)).
  - unfold complete. destruct (stateOf (tracker s) k'); try done.
    destruct r; try done. by destruct (requeueThrottled cfg).
Qed.

Lemma futuresFor_lower k (es : list event) s (f : nat) :
  f ∈ futuresFor cfg k es s -> (nextFuture s <= f)%nat.
Proof.
  revert s. induction es as [|e es IH]; intros s; [by intros Hin%elem_of_nil|].
  rewrite futuresFor_cons. intros [Hin|Hin]%elem_of_app.
  - destruct e as [k'|k'| |k' r|dt]; simpl in Hin;
      try (by apply elem_of_nil in Hin);
      destruct (strictEq k' k); try (by apply elem_of_nil in Hin);
      apply list_elem_of_singleton in Hin as ->; by rewrite submit_future.
  - apply IH in Hin. pose proof (step_nextFuture s e). lia.
Qed.

Lemma futuresFor_NoDup k (es : list event) s : NoDup (futuresFor cfg k es s).
Proof.
  revert s. induction es as [|e es IH]; intros s; [constructor|].
  assert (forall k', NoDup ((if strictEq k' k then [fst (submit k' s)] else [])
                            ++ futuresFor cfg k es (snd (submit k' s)))) as Hsubmit.
  { intros k'. destruct (strictEq k' k); simpl; [|apply IH].
    apply NoDup_cons. split; [|apply IH].
    intros Hin%futuresFor_lower. rewrite submit_future, submit_nextFuture in Hin. lia. }
  rewrite futuresFor_cons. destruct e as [k'|k'| |k' r|dt]; simpl;
    try apply IH; apply Hsubmit.
Qed.

Lemma run_app (es1 es2 : list event) s :
  run cfg (es1 ++ es2) s = run cfg es2 (run cfg es1 s).
Proof. unfold run. apply foldl_app. Qed.

Lemma complete_failure_frame s k' :
  stateOf (tracker s) k' = InFlight ->
  let s' := complete cfg k' (Failure Timeout) s in
  outstanding s' = pred (outstanding s) /\ queue s' = queue s /\
  (forall k, k <> k' -> stateOf (tracker s') k = stateOf (tracker s) k).
Proof.
  intros Hk. unfold complete. rewrite Hk. simpl. split; [|split; [done|]].
  - unfold outstanding. simpl. unfold backToIdle, markFailed.
    rewrite insert_insert_eq. by apply inFlightOnly_end.
  - intros k Hne. unfold backToIdle, markFailed.
    rewrite insert_insert_eq. by rewrite stateOf_insert_ne.
Qed.

(** Every call in flight can be answered, which frees every slot and
    leaves the queue and the keys that are not in flight as they are. *)
Lemma answer_all (n : nat) s :
  outstanding s = n ->
  exists es,
    forallb (fun e => negb (submits e)) es = true /\
    outstanding (run cfg es s) = 0%nat /\ queue (run cfg es s) = queue s /\
    (forall k, stateOf (tracker s) k <> InFlight ->
       forallb (fun e => negb (answersFor k e)) es = true /\
       stateOf (tracker (run cfg es s)) k = stateOf (tracker s) k).
Proof.
  revert s. induction n as [|n IH]; intros s Hn.
  { exists []. by repeat split. }
  assert (exists k', stateOf (tracker s) k' = InFlight) as [k' Hk'].
  { unfold outstanding, inFlightOnly in Hn.
    destruct (map_size_ne_0_lookup_1
                (filter (fun p : jsstring * processingState => p.2 = InFlight)
                        (tracker s))) as [k' [x Hx]]; [lia|].
    apply map_lookup_filter_Some in Hx as [Hx Hp]. simpl in Hp. subst x.
    exists k'. unfold stateOf. by rewrite Hx. }
  destruct (complete_failure_frame s k' Hk') as (Ho & Hq & Hst).
  destruct (IH (complete cfg k' (Failure Timeout) s)) as (es & Hsub & Hzero & Hqueue & Hkeep).
  { rewrite Ho, Hn. done. }
  exists (Complete k' (Failure Timeout) :: es).
  change (run cfg (Complete k' (Failure Timeout) :: es) s)
    with (run cfg es (complete cfg k' (Failure Timeout) s)).
  split; [done|]. split; [done|]. split; [by rewrite Hqueue|].
  intros k Hk. assert (k <> k') as Hne by congruence.
  destruct (Hkeep k) as [Hans Hsame]; [by rewrite Hst|].
  split.
  - cbn [forallb answersFor]. rewrite Hans.
    rewrite (proj2 (strictEq_false k' k)); [done|congruence].
  - by rewrite Hsame, Hst.
Qed.

(** With a free slot, waiting long enough lets the drain loop dispatch the
    head of the queue. *)
Lemma dispatch_head s (item : queueItem) (rest : list queueItem) :
  queue s = item :: rest ->
  inFlightCount (limiter s) = 0%nat ->
  (1 <= maxConcurrent cfg)%nat ->
  exists dt,
    queue (run cfg [Advance dt; Drain] s) = rest /\
    tracker (run cfg [Advance dt; Drain] s) = markInFlight (key item) (tracker s).
Proof.
  intros Hq Hzero Hmax.
  set (wait := Z.max 0 (Z.max (lastDispatchAt (limiter s) + minInterval cfg - now s)
                              (default 0%Z (blockedUntil (limiter s)) - now s))).
  exists (Z.to_N wait). unfold run. simpl. unfold drain. simpl. rewrite Hq.
  assert (Z.of_N (Z.to_N wait) = wait) as -> by (apply Z2N.id; unfold wait; lia).
  unfold tryAcquire. rewrite Hzero.
  destruct (Nat.ltb_spec 0 (maxConcurrent cfg)); [|lia]. simpl.
  destruct (Z.leb_spec (minInterval cfg) (now s + wait - lastDispatchAt (limiter s)));
    [|unfold wait in *; lia]. simpl.
  destruct (blockedUntil (limiter s)) as [b|] eqn:Hb; simpl; [|done].
  destruct (Z.leb_spec b (now s + wait)); [done|]. simpl in *. unfold wait in *. lia.
Qed.

(** Progress: a key in the queue can be brought in flight by answering
    the calls in flight, waiting and draining, without any answer for the
    key itself and without any new submission. *)
Lemma queued_can_fly (pre : list queueItem) s (item : queueItem) (post : list queueItem) :
  invariant cfg s ->
  (1 <= maxConcurrent cfg)%nat ->
  queue s = pre ++ item :: post ->
  exists es,
    forallb (fun e => negb (submits e)) es = true /\
    forallb (fun e => negb (answersFor (key item) e)) es = true /\
    stateOf (tracker (run cfg es s)) (key item) = InFlight.
Proof.
  intros Hinv Hmax. revert s Hinv. induction pre as [|p pre IH]; intros s Hinv Hq.
  - assert (stateOf (tracker s) (key item) <> InFlight) as Hk.
    { rewrite (inv_queued _ _ Hinv item); [done|]. rewrite Hq. by left. }
    destruct (answer_all _ s eq_refl) as (esa & Hsub & Hzero & Hqa & Hkeep).
    destruct (Hkeep _ Hk) as [Hans _].
    assert (invariant cfg (run cfg esa s)) as Hinva by by apply run_invariant.
    destruct (dispatch_head (run cfg esa s) item post) as (dt & _ & Ht); [by rewrite Hqa| |done|].
    { by rewrite (inv_count _ _ Hinva). }
    exists (esa ++ [Advance dt; Drain]). rewrite !forallb_app, Hsub, Hans, run_app, Ht.
    split; [done|]. split; [done|]. unfold markInFlight. by rewrite stateOf_insert_eq.
  - assert (key p <> key item) as Hne.
    { pose proof (inv_nodup _ _ Hinv) as Hnd. rewrite Hq in Hnd. simpl in Hnd.
      apply NoDup_cons in Hnd as [Hnotin _]. intros Heq. apply Hnotin.
      rewrite Heq, map_app, elem_of_app. right. by left. }
    assert (stateOf (tracker s) (key item) <> InFlight) as Hk.
    { rewrite (inv_queued _ _ Hinv item); [done|]. rewrite Hq.
      right. apply elem_of_app. right. by left. }
    destruct (answer_all _ s eq_refl) as (esa & Hsub & Hzero & Hqa & Hkeep).
    destruct (Hkeep _ Hk) as [Hans _].
    assert (invariant cfg (run cfg esa s)) as Hinva by by apply run_invariant.
    destruct (dispatch_head (run cfg esa s) p (pre ++ item :: post))
      as (dt & Hqb & _); [by rewrite Hqa| |done|].
    { by rewrite (inv_count _ _ Hinva). }
    destruct (IH (run cfg [Advance dt; Drain] (run cfg esa s))) as (esc & Hsubc & Hansc & Hfly);
      [by apply run_invariant|done|].
    exists (esa ++ [Advance dt; Drain] ++ esc).
    rewrite !forallb_app, Hsub, Hans, Hsubc, Hansc, !run_app.
    done.
Qed.

(** C3, as amended.  Start from any reachable state in which [k] has no
    outstanding lookup and no valid cache entry, and let a run follow in
    which the Fetcher gives no answer for [k], a throttling signal
    included, so that no submission for [k] has resolved and the lookup
    was not put back in the queue, and in which [k] is submitted at least
    twice, by processing or by explicit trigger.  The futures handed out
    for [k] are distinct and all pending.  The lookup can always be brought
    in flight, with no answer for [k] and no further submission.  And
    however the run goes on without an answer for [k], once the call in
    flight for [k] gets an answer that settles the lookup, the Fetcher has
    been invoked for [k] exactly once since the start, and all those
    futures are resolved with one and the same value: the fetched value on
    success, no result otherwise. *)
Theorem dedup (t0 : Z) (es0 es : list event) (k : jsstring) (r : result) :
  let s0 : state (V := V) := run cfg es0 (initial cfg t0) in
  let s1 := run cfg es s0 in
  let fs := futuresFor cfg k es s0 in
  stateOf (tracker s0) k = Idle ->
  get (now s0) (cache s0) k = None ->
  forallb (fun e => negb (answersFor k e)) es = true ->
  (2 <= length fs)%nat ->
  settles cfg r = true ->
  (1 <= maxConcurrent cfg)%nat ->
  NoDup fs /\
  (forall f, f ∈ fs -> settled s1 !! f = None) /\
  (exists es',
     forallb (fun e => negb (submits e)) es' = true /\
     forallb (fun e => negb (answersFor k e)) es' = true /\
     stateOf (tracker (run cfg es' s1)) k = InFlight) /\
  (forall es',
     forallb (fun e => negb (answersFor k e)) es' = true ->
     stateOf (tracker (run cfg es' s1)) k = InFlight ->
     invocationsFor k (complete cfg k r (run cfg es' s1))
     = S (invocationsFor k s0) /\
     (forall f, f ∈ fs ->
        settled (complete cfg k r (run cfg es' s1)) !! f = Some (outcome r))).
Proof.
  intros s0 s1 fs Hidle Hmiss Hes Hlen Hr Hmax.
  assert (invariant cfg s0) as Hinv0 by apply run_invariant, initial_invariant.
  assert (invariant cfg s1) as Hinv1 by by apply run_invariant.
  assert (lookupPhase k (invocationsFor k s0) fs s1) as Hphase.
  { apply (run_phase es s0 k _ [] Hinv0 Hes). left. done. }
  assert (fs <> []) as Hfs by (destruct fs; [simpl in Hlen; lia|done]).
  split; [apply futuresFor_NoDup|]. split; [|split].
  - intros f Hin.
    destruct Hphase as [(Hnil & _)|[(_ & _ & Hp & _)|(_ & _ & Hp & _)]];
      [done| |]; rewrite <- Hp in Hin; by apply (inv_unsettled _ _ Hinv1 k).
  - destruct Hphase as [(Hnil & _)|[(_ & Hk & _)|(_ & Hk & _)]]; [done| |].
    + apply (inv_inqueue _ _ Hinv1) in Hk.
      apply list_elem_of_fmap in Hk as (item & -> & Hitem).
      apply list_elem_of_split in Hitem as (pre & post & Hq).
      by apply (queued_can_fly pre s1 item post).
    + by exists [].
  - intros es' Hes' Hfly.
    assert (invariant cfg (run cfg es' s1)) as Hinv' by by apply run_invariant.
    pose proof (run_phase es' s1 k _ fs Hinv1 Hes' Hphase) as Hphase'.
    destruct Hphase' as [(_ & Hk & _)|[(_ & Hk & _)|(_ & _ & Hp & Hn)]];
      [congruence|congruence|].
    assert (dispatched (complete cfg k r (run cfg es' s1)) = dispatched (run cfg es' s1) /\
            settled (complete cfg k r (run cfg es' s1))
            = resolveAll (pendingOf (run cfg es' s1) k) (outcome r)
                         (settled (run cfg es' s1)))
      as [Hd Hs].
    { unfold complete. rewrite Hfly. unfold settles in Hr.
      destruct r as [v|resetAt|reason]; [done| |done].
      apply negb_true_iff in Hr. by rewrite Hr. }
    split.
    + unfold invocationsFor in *. by rewrite Hd.
    + intros f Hin. rewrite Hs, resolveAll_lookup, Hp.
      rewrite decide_True; [done|]. apply elem_of_app. by left.
Qed.

(** C6. When the Fetcher call in flight for [k] ends with anything but a
    success (a timeout, a transport failure, a throttling signal under
    either policy), the cache is left exactly as it was, so [get] still
    misses for [k].  If the answer settles the lookup, [k] is idle again and
    a new submission queues it afresh; if the lookup is requeued, [k] is
    back in the queue.  Over any step from any state the cache changes only
    by the [set] of a successful completion.  The click handler of the page
    itself writes to no cache, whatever the lookup answers. *)
Theorem no_negative_caching (t0 : Z) (es : list event) (k : jsstring) (r : result) :
  let s : state (V := V) := run cfg es (initial cfg t0) in
  let s' := complete cfg k r s in
  stateOf (tracker s) k = InFlight ->
  (forall v, r <> Success v) ->
  cache s' = cache s /\
  get (now s') (cache s') k = None /\
  (settles cfg r = true ->
     stateOf (tracker s') k = Idle /\
     stateOf (tracker (snd (submit k s'))) k = Queued /\
     k ∈ map key (queue (snd (submit k s')))) /\
  (settles cfg r = false ->
     stateOf (tracker s') k = Queued /\ k ∈ map key (queue s')) /\
  (forall (s1 : state (V := V)) (e : event),
     cache (step cfg s1 e) = cache s1 \/
     exists k1 v, e = Complete k1 (Success v) /\
       stateOf (tracker s1) k1 = InFlight /\
       cache (step cfg s1 e) = set (now s1) (cache s1) k1 v (ttl cfg)) /\
  (forall respond button w,
     Content.heap (Content.handleButtonClick respond button k w) = Content.heap w).
Proof.
  intros s s' Hfly Hr.
  assert (invariant cfg s) as Hinv by apply run_invariant, initial_invariant.
  assert (get (now s) (cache s) k = None) as Hmiss.
  { apply (inv_miss _ _ Hinv). congruence. }
  assert (cache s' = cache s /\ now s' = now s) as [Hc Ht].
  { unfold s', complete. rewrite Hfly.
    destruct r as [v|resetAt|reason]; [by destruct (Hr v)| |done].
    by destruct (requeueThrottled cfg). }
  split; [done|]. split; [by rewrite Hc, Ht|]. split; [|split; [|split]].
  - intros Hset.
    assert (stateOf (tracker s') k = Idle) as Hidle.
    { unfold s', complete. rewrite Hfly. unfold settles in Hset.
      destruct r as [v|resetAt|reason]; [by destruct (Hr v)| |].
      - apply negb_true_iff in Hset. rewrite Hset. simpl.
        unfold backToIdle. by rewrite stateOf_insert_eq.
      - simpl. unfold backToIdle. by rewrite stateOf_insert_eq. }
    split; [done|]. unfold submit. rewrite Hc, Ht, Hmiss.
    rewrite (tryClaim_idle _ _ Hidle). simpl.
    split; [by rewrite stateOf_insert_eq|].
    rewrite map_app. apply elem_of_app. right. by left.
  - intros Hset. unfold s', complete. rewrite Hfly. unfold settles in Hset.
    destruct r as [v|resetAt|reason]; [done| |done].
    apply negb_false_iff in Hset. rewrite Hset. simpl.
    split; [by rewrite stateOf_insert_eq|by left].
  - intros s1 e. destruct e as [k'|k'| |k' r'|dt]; simpl.
    + left. unfold submit. destruct (get (now s1) (cache s1) k'); [done|].
      by destruct (tryClaim k' (tracker s1)).
    + left. unfold submit. destruct (get (now s1) (cache s1) k'); [done|].
      by destruct (tryClaim k' (tracker s1)).
    + left. unfold drain. destruct (queue s1); [done|].
      by destruct (tryAcquire cfg (now s1) (limiter s1)).
    + unfold complete. destruct (stateOf (tracker s1) k') eqn:Hk'; auto.
      destruct r' as [v|resetAt|reason]; [right|left|left].
      * by exists k', v.
      * by destruct (requeueThrottled cfg).
      * done.
    + by left.
  - done.
Qed.

End SchedulerProperties.

Section SchedulerWitnesses.

Import Scheduler.

Lemma pacing_and_concurrency_witness :
  (minInterval defaults <= 2000 - 0)%Z.
Proof.
  exact (proj1 (pacing_and_concurrency (V := nat) defaults 0
                  [ Submit (lit "alice"); TriggerFetch (lit "bob"); Drain;
                    Advance 2000; Drain ])
               0%nat (lit "bob", 2000%Z) (lit "alice", 0%Z)
               ltac:(vm_compute; reflexivity) ltac:(vm_compute; reflexivity)).
Defined.

Lemma dedup_witness :
  invocationsFor (lit "erin")
    (complete defaults (lit "erin") (Success 7%nat)
       (run defaults [ Drain ]
          (run defaults [ Submit (lit "erin"); TriggerFetch (lit "erin") ]
               (initial defaults 0))))
  = 1%nat.
Proof.
  exact (proj1 (proj2 (proj2 (proj2
    (dedup (V := nat) defaults 0 []
       [ Submit (lit "erin"); TriggerFetch (lit "erin") ]
       (lit "erin") (Success 7%nat)
       ltac:(vm_compute; reflexivity) ltac:(vm_compute; reflexivity)
       ltac:(vm_compute; reflexivity) ltac:(vm_compute; lia)
       ltac:(vm_compute; reflexivity) ltac:(vm_compute; lia))))
    [ Drain ] ltac:(vm_compute; reflexivity) ltac:(vm_compute; reflexivity))).
Defined.

Lemma no_negative_caching_witness :
  get (V := nat) 0
    (cache (complete defaults (lit "carol") (Failure Timeout)
              (run defaults [ Submit (lit "carol"); Drain ] (initial defaults 0))))
    (lit "carol")
  = None.
Proof.
  exact (proj1 (proj2
    (no_negative_caching (V := nat) defaults 0 [ Submit (lit "carol"); Drain ]
       (lit "carol") (Failure Timeout)
       ltac:(vm_compute; reflexivity) ltac:(intros v; discriminate)))).
Defined.

(** C3, as it was stated, fails when the Fetcher answers with a throttling
    signal: with the default policy the lookup goes back to the queue, no
    future is resolved, and the next dispatch invokes the Fetcher for the
    key a second time.  Two submissions of [erin], none of them resolved
    until the end, come with two invocations. *)
Lemma dedup_counterexample :
  let es := [ Submit (lit "erin"); TriggerFetch (lit "erin"); Drain;
              Complete (lit "erin") (Throttled 5000); Advance 5000; Drain ] in
  let s := run (V := nat) defaults es (initial defaults 0) in
  futuresFor defaults (lit "erin") es (initial defaults 0) = [0%nat; 1%nat] /\
  settled s !! 0%nat = None /\ settled s !! 1%nat = None /\
  invocationsFor (lit "erin") s = 2%nat /\
  invocationsFor (lit "erin")
    (run defaults [ Complete (lit "erin") (Success 7%nat) ] s) = 2%nat /\
  settled (run defaults [ Complete (lit "erin") (Success 7%nat) ] s) !! 0%nat
  = Some (Some 7%nat) /\
  settled (run defaults [ Complete (lit "erin") (Success 7%nat) ] s) !! 1%nat
  = Some (Some 7%nat).
Proof. cbv zeta. repeat split; vm_compute; reflexivity. Qed.

End SchedulerWitnesses.

Section CountryFlagProperties.

Import CountryFlags.

Variable toLowerCase : jsstring -> jsstring.

(** On a string, [codeToFlag] returns [null] unless the string is two code
    units in the range A to Z, and then it returns the two regional
    indicators. *)
Lemma codeToFlag_string (s : jsstring) :
  codeToFlag (VStr s)
  = match s with
    | [u1; u2] =>
        if (65 <=? u1) && (u1 <=? 90) && (65 <=? u2) && (u2 <=? 90)
        then Return (Some (VStr (fromCodePoint (0x1F1E6 + (u1 - 65))
                                 ++ fromCodePoint (0x1F1E6 + (u2 - 65)))))
        else Return None
    | _ => Return None
    end.
Proof.
  destruct s as [|u1 [|u2 [|u3 s]]]; try done.
  - unfold codeToFlag. simpl.
    destruct (Z.ltb_spec (Z.of_N u1 - 65) 0), (Z.gtb_spec (Z.of_N u1 - 65) 25),
      (Z.ltb_spec (Z.of_N u2 - 65) 0), (Z.gtb_spec (Z.of_N u2 - 65) 25),
      (N.leb_spec 65 u1), (N.leb_spec u1 90), (N.leb_spec 65 u2), (N.leb_spec u2 90);
      simpl; try lia; try done.
    do 4 f_equal; f_equal; lia.
  - unfold codeToFlag. rewrite bool_decide_eq_false_2; [done|].
    simpl. intros [= H]. lia.
Qed.

Lemma codeToFlag_string_returns (s : jsstring) :
  exists v, codeToFlag (VStr s) = Return v.
Proof.
  rewrite codeToFlag_string. destruct s as [|u1 [|u2 [|u3 s]]]; eauto.
  destruct ((65 <=? u1) && (u1 <=? 90) && (65 <=? u2) && (u2 <=? 90)); eauto.
Qed.

Lemma flagOfCode_string_returns (code : jsstring) :
  exists v, flagOfCode (VStr code) = Return v.
Proof.
  unfold flagOfCode.
  destruct (getPropOf SPECIAL_FLAG_EMOJIS (VStr code)) as [v|];
    [destruct (truthyValue v); eauto|]; apply codeToFlag_string_returns.
Qed.

Lemma fallback_returns (lower : jsstring) (entries : list (jsstring * jsstring)) :
  exists v, fallback toLowerCase lower entries = Return v.
Proof.
  induction entries as [|[key code] entries IH]; simpl; [eauto|].
  destruct (matchesName _ _ _); [apply flagOfCode_string_returns|done].
Qed.

Lemma fallback_no_match (lower : jsstring) (entries : list (jsstring * jsstring)) :
  (forall key code, (key, code) ∈ entries ->
     matchesName toLowerCase lower key = false) ->
  fallback toLowerCase lower entries = Return None.
Proof.
  induction entries as [|[key code] entries IH]; simpl; [done|].
  intros Hno. rewrite (Hno key code) by left. apply IH.
  intros key' code' Hin. apply (Hno key' code'). by right.
Qed.

(** The only inherited properties with two parameters. *)
Lemma objectPrototype_arity_two (name : jsstring) :
  assoc name objectPrototype = Some (VFun 2) ->
  name = lit "__defineGetter__" \/ name = lit "__defineSetter__".
Proof.
  unfold objectPrototype, assoc, strictEq.
  repeat (case_bool_decide;
          [intros Heq;
           first [discriminate Heq | left; by symmetry | right; by symmetry]|]).
  done.
Qed.

(** Apart from the two names that reach an inherited function of two
    parameters, [getCountryFlag] returns. *)
Lemma getCountryFlag_returns (countryName : option jsstring) :
  (forall s, countryName = Some s ->
     trim s <> lit "__defineGetter__" /\ trim s <> lit "__defineSetter__") ->
  exists v, getCountryFlag toLowerCase countryName = Return v.
Proof.
  intros Hname. unfold getCountryFlag. destruct countryName as [s|]; [|eauto].
  destruct (nonEmpty s); cbn [negb]; [|eauto].
  destruct (Hname s eq_refl) as [Hg Hs].
  unfold getProp.
  destruct (assoc (trim s) COUNTRY_FLAGS) as [code|].
  { cbn [truthyValue]. destruct (nonEmpty code);
      [apply flagOfCode_string_returns|apply fallback_returns]. }
  destruct (assoc (trim s) objectPrototype) as [[code|arity|]|] eqn:Hp;
    [| | |apply fallback_returns]; cbn [truthyValue].
  - destruct (nonEmpty code);
      [apply flagOfCode_string_returns|apply fallback_returns].
  - unfold flagOfCode, codeToFlag. cbn [getPropOf lengthOf].
    case_bool_decide as Ha; cbn [negb]; [|eauto].
    injection Ha as ->. destruct (objectPrototype_arity_two _ Hp); congruence.
  - unfold flagOfCode, codeToFlag. cbn [getPropOf lengthOf].
    rewrite bool_decide_eq_false_2 by done. eauto.
Qed.

(** A name that is no own key, reaches no inherited function of two
    parameters and matches no key in the fallback gives [null]. *)
Lemma getCountryFlag_no_match (s : jsstring) :
  assoc (trim s) COUNTRY_FLAGS = None ->
  trim s <> lit "__defineGetter__" -> trim s <> lit "__defineSetter__" ->
  (forall key code, (key, code) ∈ COUNTRY_FLAGS ->
     matchesName toLowerCase (toLowerCase (trim s)) key = false) ->
  getCountryFlag toLowerCase (Some s) = Return None.
Proof.
  intros Hown Hg Hs Hno. unfold getCountryFlag.
  destruct (nonEmpty s); cbn [negb]; [|done].
  unfold getProp. rewrite Hown.
  destruct (assoc (trim s) objectPrototype) as [[code|arity|]|] eqn:Hp;
    cbn [truthyValue]; [| | |by apply fallback_no_match].
  - exfalso. revert Hp. unfold objectPrototype, assoc, strictEq.
    repeat (case_bool_decide; [discriminate|]). done.
  - unfold flagOfCode, codeToFlag. cbn [getPropOf lengthOf].
    case_bool_decide as Ha; cbn [negb]; [|done].
    injection Ha as ->. destruct (objectPrototype_arity_two _ Hp); congruence.
  - unfold flagOfCode, codeToFlag. cbn [getPropOf lengthOf].
    by rewrite bool_decide_eq_false_2.
Qed.

(** An absent or empty argument gives [null]. *)
Lemma getCountryFlag_absent :
  getCountryFlag toLowerCase None = Return None /\
  getCountryFlag toLowerCase (Some []) = Return None.
Proof. done. Qed.

(** C10, at the input where it fails.  [__defineGetter__] is not a country,
    but [COUNTRY_FLAGS["__defineGetter__"]] is the function every object
    inherits; its [length] is 2, so [codeToFlag] goes on to call
    [charCodeAt] on it and throws a [TypeError], where [null] is expected
    for a name that matches no country. *)
Theorem getCountryFlag_inherited_name_throws :
  getCountryFlag toLowerCase (Some (lit "__defineGetter__")) = ThrowTypeError /\
  getCountryFlag toLowerCase (Some (lit "__defineSetter__")) = ThrowTypeError /\
  codeToFlag (VFun 2) = ThrowTypeError.
Proof. split; [|split]; vm_compute; reflexivity. Qed.

End CountryFlagProperties.

(** * Examples from the tests *)

Section Examples.

Import Content.

(** Property 1 of the tests: a saved mode is the mode loaded. *)
Lemma saveMode_loadMode (mode : jsval) (w : world) :
  truthy mode = true ->
  fst (loadMode (saveMode mode w)) = mode.
Proof.
  intros Hm. unfold loadMode, saveMode. simpl.
  rewrite storage_get_lookup by apply mode_key_plain.
  rewrite decide_True by (by left).
  unfold Storage.set. simpl. rewrite lookup_insert_eq. simpl. by rewrite Hm.
Qed.

(** A fresh entry written by [saveCacheEntry] is valid, and is expired
    thirty days later. *)
Example saved_entry_valid :
  let w := snd (saveCacheEntry (lit "bob") mockLocationData 1 (pageOf (lit "bob") ∅ 1000)) in
  isCacheEntryExpired 1000 (getMap 1 (heap w) !! lit "bob") = false /\
  isCacheEntryExpired (1000 + 2592000000) (getMap 1 (heap w) !! lit "bob") = true.
Proof. split; vm_compute; reflexivity. Qed.

(** Clicking the button of a page in manual mode asks for that name once
    and shows the flags in place of the button. *)
Example click_shows_location :
  let w := processUsernamesWithMode (JStr MODE_MANUAL) 1 (pageOf (lit "bob") ∅ 1000) in
  let w' := handleButtonClick (fun _ => Resolves (Some mockLocationData)) 0 (lit "bob") w in
  buttonsOf (document w) = [(0%nat, lit "bob")] /\
  requestQueueForTest w' = [lit "bob"] /\
  buttonsOf (document w') = [] /\
  containersOf (document w')
  = [Container (Some (lit "button"))
       (Some [ Div [Anchor (lit "/bob") (lit "Display Name")];
               FlagWrapper (bracketedText mockLocationData);
               Div [Anchor (lit "/bob") (lit "@bob")] ])].
Proof. repeat split; vm_compute; reflexivity. Qed.

(** A lookup that rejects leaves the error indicator. *)
Example click_failure_shows_error :
  let w := processUsernamesWithMode (JStr MODE_MANUAL) 1 (pageOf (lit "bob") ∅ 1000) in
  let w' := handleButtonClick (fun _ => Rejects) 0 (lit "bob") w in
  containersOf (document w')
  = [Container (Some (lit "button"))
       (Some [ Div [Anchor (lit "/bob") (lit "Display Name")];
               ErrorIndicator;
               Div [Anchor (lit "/bob") (lit "@bob")] ])] /\
  heap w' = heap w.
Proof. split; vm_compute; reflexivity. Qed.

(** Reserved routes are not screen names. *)
Example reserved_route_skipped :
  extractUsernameFromContainer (createMockTwitterContainer (lit "home")) = None /\
  extractUsernameFromContainer (createMockTwitterContainer (lit "bob")) = Some (lit "bob").
Proof. split; vm_compute; reflexivity. Qed.

Import CountryFlags.

(** Exact, case-insensitive and special-flag lookups. *)
Example flags_of_countries :
  getCountryFlag asciiToLowerCase (Some (lit "Germany"))
  = Return (Some (VStr [0xD83C; 0xDDE9; 0xD83C; 0xDDEA])) /\
  getCountryFlag asciiToLowerCase (Some (lit "  japan "))
  = Return (Some (VStr [0xD83C; 0xDDEF; 0xD83C; 0xDDF5])) /\
  getCountryFlag asciiToLowerCase (Some (lit "Scotland"))
  = Return (Some (VStr (lit "gbsct"))) /\
  getCountryFlag asciiToLowerCase (Some (lit "Atlantis")) = Return None /\
  getCountryFlag asciiToLowerCase (Some (lit "constructor")) = Return None.
Proof. repeat split; vm_compute; reflexivity. Qed.

Import Scheduler.

(** An entry whose time is up is a miss. *)
Example expired_entry_misses :
  get (V := nat) 1000 {[ lit "alice" := CacheEntry 1%nat 999 ]} (lit "alice") = None /\
  get (V := nat) 1000 {[ lit "alice" := CacheEntry 1%nat 1001 ]} (lit "alice") = Some 1%nat.
Proof. split; vm_compute; reflexivity. Qed.

(** After a throttling signal nothing is dispatched before the reset
    time, and the throttled key goes first after it. *)
Example throttled_then_retried :
  let s := run (V := nat) defaults
             [ Submit (lit "carol"); Drain; Complete (lit "carol") (Throttled 5000);
               Advance 1000; Submit (lit "dave"); Drain ] (initial defaults 0) in
  dispatched s = [(lit "carol", 0%Z)] /\
  dispatched (run defaults [ Advance 4000; Drain ] s)
  = [(lit "carol", 5000%Z); (lit "carol", 0%Z)].
Proof. split; vm_compute; reflexivity. Qed.

End Examples.

(** * Further properties of the helpers *)

Section StorageAndMode.




Import Content.

(** X2. Saving a mode and loading it gives the mode back when the mode is
    a truthy value, and ['auto'] when it is falsy (an empty string, [null],
    [undefined], [0], [false]); of two saves the later one counts.  Saving
    writes the mode key only and leaves the page and the caches alone, and
    loading changes nothing. *)
Theorem saveMode_then_loadMode (mode earlier : jsval) (w : world) :
  fst (loadMode (saveMode mode w))
  = (if truthy mode then mode else JStr MODE_AUTO) /\
  fst (loadMode (saveMode mode (saveMode earlier w)))
  = fst (loadMode (saveMode mode w)) /\
  (forall k, k <> MODE_KEY ->
     mockStorage (saveMode mode w) !! k = mockStorage w !! k) /\
  document (saveMode mode w) = document w /\
  heap (saveMode mode w) = heap w /\
  snd (loadMode (saveMode mode w)) = saveMode mode w.
Proof.
  assert (forall m w0, fst (loadMode (saveMode m w0))
                       = if truthy m then m else JStr MODE_AUTO) as Hload.
  { intros m w0. unfold loadMode, saveMode. simpl.
      rewrite storage_get_lookup by apply mode_key_plain.
    rewrite decide_True by (by left).
    unfold Storage.set. simpl. rewrite lookup_insert_eq. simpl.
    by destruct (truthy m). }
  split; [apply Hload|]. split; [by rewrite !Hload|].
  split; [|done].
  intros k Hne. unfold saveMode, Storage.set. simpl.
  by rewrite lookup_insert_ne.
Qed.

(** X3. An entry written by [saveCacheEntry] at a time that is not before
    the epoch is valid from the moment it is written until thirty days
    have passed, and expired from then on: [isCacheEntryExpired] answers
    [true] exactly when the time it is asked at is thirty days or more
    after the write. *)
Theorem saved_entry_valid_for_30_days (username : jsstring) (loc : locationInfo)
    (cache : nat) (w : world) (now : Z) :
  (0 <= clock w)%Z ->
  let w' := snd (saveCacheEntry username loc cache w) in
  isCacheEntryExpired now (getMap cache (heap w') !! username)
  = bool_decide (clock w + 30 * 24 * 60 * 60 * 1000 <= now)%Z /\
  isCacheEntryExpired (clock w') (getMap cache (heap w') !! username) = false.
Proof.
  intros Hc. simpl. rewrite getMap_insert_eq, lookup_insert_eq. simpl.
  unfold CACHE_EXPIRY_DAYS.
  destruct (Z.eqb_spec (clock w + 30 * 24 * 60 * 60 * 1000) 0) as [H0|_]; [lia|].
  split.
  - destruct (Z.leb_spec (clock w + 30 * 24 * 60 * 60 * 1000) now).
    + by rewrite bool_decide_eq_true_2.
    + rewrite bool_decide_eq_false_2; [done|lia].
  - apply Z.leb_gt. lia.
Qed.

Lemma saved_entry_valid_for_30_days_witness :
  isCacheEntryExpired 2592000999
    (getMap 1 (heap (snd (saveCacheEntry (lit "bob") mockLocationData 1
                            (pageOf (lit "bob") ∅ 1000)))) !! lit "bob")
  = bool_decide (1000 + 30 * 24 * 60 * 60 * 1000 <= 2592000999)%Z.
Proof.
  exact (proj1 (saved_entry_valid_for_30_days (lit "bob") mockLocationData 1
                  (pageOf (lit "bob") ∅ 1000) 2592000999 ltac:(simpl; lia))).
Defined.

End StorageAndMode.

Section ScreenNames.

Import Content.

Lemma segment_chars (s : jsstring) (c : N) :
  c ∈ segment s -> c <> slash /\ c <> questionMark.
Proof.
  induction s as [|d s IH]; simpl; [by intros ?%elem_of_nil|].
  destruct (N.eqb_spec d slash) as [->|Hs]; simpl; [by intros ?%elem_of_nil|].
  destruct (N.eqb_spec d questionMark) as [->|Hq]; simpl; [by intros ?%elem_of_nil|].
  intros [->|Hin]%elem_of_cons; [done|by apply IH].
Qed.

Lemma segment_rest (s : jsstring) :
  exists rest, s = segment s ++ rest /\
    (rest = [] \/ exists c r, rest = c :: r /\ (c = slash \/ c = questionMark)).
Proof.
  induction s as [|d s (rest & Hs & Hrest)]; simpl; [exists []; by split; [|left]|].
  destruct (N.eqb_spec d slash) as [->|Hd]; simpl.
  { exists (slash :: s). split; [done|]. right. exists slash, s. by split; [|left]. }
  destruct (N.eqb_spec d questionMark) as [->|Hq]; simpl.
  { exists (questionMark :: s). split; [done|]. right. exists questionMark, s.
    by split; [|right]. }
  exists rest. split; [by rewrite <- Hs|done].
Qed.

Lemma segment_id (s : jsstring) :
  Forall (fun c => c <> slash /\ c <> questionMark) s -> segment s = s.
Proof.
  induction 1 as [|c s [Hs Hq] _ IH]; simpl; [done|].
  destruct (N.eqb_spec c slash); [done|].
  destruct (N.eqb_spec c questionMark); [done|]. simpl. by rewrite IH.
Qed.

Lemma arrayIncludes_elem (arr : list jsstring) (x : jsstring) :
  arrayIncludes arr x = true <-> x ∈ arr.
Proof.
  unfold arrayIncludes. rewrite existsb_exists. split.
  - intros (y & Hin & Heq). apply bool_decide_eq_true in Heq. subst y.
    by apply list_elem_of_In.
  - intros Hin. exists x. split; [by apply list_elem_of_In|].
    by apply bool_decide_eq_true.
Qed.

Lemma firstUsername_sound (links : list anchor) (u : jsstring) :
  firstUsername links = Some u ->
  exists a, a ∈ links /\ matchUsername (href a) = Some u /\
    arrayIncludes excludedRoutes u = false /\ (0 < length u < 20)%nat.
Proof.
  induction links as [|a links IH]; cbn [firstUsername]; [done|].
  destruct (matchUsername (href a)) as [v|] eqn:Hm.
  - destruct (arrayIncludes excludedRoutes v) eqn:Hex; cbn [negb andb].
    { intros (b & Hb & Hrec)%IH. exists b. split; [by right|done]. }
    destruct (Nat.ltb_spec 0 (length v)); cbn [andb];
      [|intros (b & Hb & Hrec)%IH; exists b; split; [by right|done]].
    destruct (Nat.ltb_spec (length v) 20);
      [|intros (b & Hb & Hrec)%IH; exists b; split; [by right|done]].
    intros [= <-]. exists a. split; [by left|]. repeat split; try done.
  - intros (b & Hb & Hrec)%IH. exists b. split; [by right|done].
Qed.

Lemma matchUsername_sound (h u : jsstring) :
  matchUsername h = Some u ->
  exists rest, h = slash :: u ++ rest /\
    (rest = [] \/ exists c r, rest = c :: r /\ (c = slash \/ c = questionMark)) /\
    (forall c, c ∈ u -> c <> slash /\ c <> questionMark).
Proof.
  destruct h as [|c h]; simpl; [done|].
  destruct (N.eqb_spec c slash) as [->|]; [|done].
  destruct (segment h) as [|d seg] eqn:Hseg; [done|]. intros [= <-].
  destruct (segment_rest h) as (rest & Hh & Hrest). exists rest.
  split; [by rewrite <- Hseg, <- Hh|]. split; [done|].
  intros x Hx. apply (segment_chars h). by rewrite Hseg.
Qed.

(** X4. A screen name that [extractUsernameFromContainer] returns is
    never one of the reserved routes, has between 1 and 19 code units, and
    contains neither [/] nor [?]; it is the whole first path segment of a
    link of the container's user-name element: the link's [href] is [/],
    the name, and then nothing or a rest that starts with [/] or [?]. *)
Theorem extractUsername_sound (c : container) (u : jsstring) :
  extractUsernameFromContainer c = Some u ->
  (u ∉ excludedRoutes) /\ (1 <= length u <= 19)%nat /\
  (slash ∉ u) /\ (questionMark ∉ u) /\
  exists kids a rest,
    userName c = Some kids /\ a ∈ anchorsOf kids /\
    href a = slash :: u ++ rest /\
    (rest = [] \/ exists d r, rest = d :: r /\ (d = slash \/ d = questionMark)).
Proof.
  unfold extractUsernameFromContainer.
  destruct (userName c) as [kids|]; [|done].
  intros (a & Ha & Hm & Hex & Hlen)%firstUsername_sound.
  destruct (matchUsername_sound _ _ Hm) as (rest & Hh & Hrest & Hchars).
  split.
  { intros Hin%arrayIncludes_elem. congruence. }
  split; [lia|].
  split; [intros Hin; by destruct (Hchars _ Hin)|].
  split; [intros Hin; by destruct (Hchars _ Hin)|].
  exists kids, a, rest. split; [done|]. split; [|done].
  apply list_elem_of_In in Ha. apply filter_In in Ha as [Ha _].
  by apply list_elem_of_In.
Qed.

Lemma extractUsername_sound_witness :
  (lit "bob" ∉ excludedRoutes) /\ (1 <= length (lit "bob") <= 19)%nat.
Proof.
  pose proof (extractUsername_sound (createMockTwitterContainer (lit "bob"))
                (lit "bob") ltac:(vm_compute; reflexivity)) as H.
  exact (conj (proj1 H) (proj1 (proj2 H))).
Defined.

Lemma toWellFormed_slash (s : jsstring) :
  toWellFormed (slash :: s) = slash :: toWellFormed s.
Proof. done. Qed.

Lemma isWellFormed_id (s : jsstring) :
  isWellFormed s = true -> toWellFormed s = s.
Proof. apply bool_decide_eq_true. Qed.

(** The screen name of the container [createMockTwitterContainer] builds:
    the first path segment of the name as the [href] property stores it,
    when it is acceptable. *)
Lemma extractUsername_mock (screenName : jsstring) :
  extractUsernameFromContainer (createMockTwitterContainer screenName)
  = (let u := segment (toWellFormed screenName) in
     if negb (arrayIncludes excludedRoutes u)
        && (0 <? length u)%nat && (length u <? 20)%nat
     then Some u else None).
Proof.
  unfold extractUsernameFromContainer, createMockTwitterContainer.
  rewrite toWellFormed_slash.
  cbn [userName anchorsOf flat_map app List.filter href startsWith].
  rewrite N.eqb_refl. cbn [andb firstUsername href matchUsername].
  rewrite N.eqb_refl.
  destruct (segment (toWellFormed screenName)) as [|d seg] eqn:Hseg; [done|].
  cbv zeta.
  by destruct (negb (arrayIncludes excludedRoutes (d :: seg))
               && (0 <? length (d :: seg))%nat
               && (length (d :: seg) <? 20)%nat).
Qed.

Lemma extractUsername_mock_valid (screenName : jsstring) :
  isWellFormed screenName = true ->
  Forall (fun c => c <> slash /\ c <> questionMark) screenName ->
  screenName ∉ excludedRoutes ->
  (1 <= length screenName <= 19)%nat ->
  extractUsernameFromContainer (createMockTwitterContainer screenName)
  = Some screenName.
Proof.
  intros Hwf Hchars Hex Hlen. rewrite extractUsername_mock. cbv zeta.
  rewrite (isWellFormed_id _ Hwf), (segment_id _ Hchars).
  destruct (arrayIncludes excludedRoutes screenName) eqn:Hin.
  { apply arrayIncludes_elem in Hin. done. }
  destruct (Nat.ltb_spec 0 (length screenName)); [|lia].
  destruct (Nat.ltb_spec (length screenName) 20); [done|lia].
Qed.

(** X5. On the container [createMockTwitterContainer] builds for a name,
    whose links keep the name with every lone surrogate replaced by
    U+FFFD, [extractUsernameFromContainer] gives the part of that stored
    name before its first [/] or [?] when that part is not empty, not a
    reserved route and shorter than 20, and [null] otherwise.  So a
    well-formed name without [/] and [?] that is not reserved and has 1 to
    19 code units is read back as it is. *)
Theorem extractUsername_of_mock_container (screenName : jsstring) :
  extractUsernameFromContainer (createMockTwitterContainer screenName)
  = (let u := segment (toWellFormed screenName) in
     if negb (arrayIncludes excludedRoutes u)
        && (0 <? length u)%nat && (length u <? 20)%nat
     then Some u else None) /\
  (isWellFormed screenName = true ->
   Forall (fun c => c <> slash /\ c <> questionMark) screenName ->
   screenName ∉ excludedRoutes ->
   (1 <= length screenName <= 19)%nat ->
   extractUsernameFromContainer (createMockTwitterContainer screenName)
   = Some screenName).
Proof.
  split; [apply extractUsername_mock|apply extractUsername_mock_valid].
Qed.

Lemma extractUsername_of_mock_container_witness :
  extractUsernameFromContainer (createMockTwitterContainer (lit "elonmusk"))
  = Some (lit "elonmusk").
Proof.
  apply (proj2 (extractUsername_of_mock_container (lit "elonmusk"))).
  - reflexivity.
  - repeat constructor; vm_compute; discriminate.
  - intros Hin%arrayIncludes_elem. vm_compute in Hin. discriminate.
  - simpl. lia.
Defined.

End ScreenNames.

Section Decoration.

Import Content.

Context {engine : SelectorEngine}.

Lemma findHandleSection_found (s : jsstring) (pre post : list node) (h : node) :
  Forall (fun x => isHandleSection s x = Normal false) pre ->
  isHandleSection s h = Normal true ->
  findHandleSection (pre ++ h :: post) s = Normal (Some (length pre)).
Proof.
  intros Hpre Hh. induction Hpre as [|x pre Hx _ IH]; cbn [app findHandleSection length].
  - by rewrite Hh.
  - by rewrite Hx, IH.
Qed.

Lemma findHandleSection_none (s : jsstring) (kids : list node) :
  Forall (fun x => isHandleSection s x = Normal false) kids ->
  findHandleSection kids s = Normal None.
Proof.
  induction 1 as [|x kids Hx _ IH]; cbn [findHandleSection]; [done|].
  by rewrite Hx, IH.
Qed.

Lemma findHandleSection_throws (s : jsstring) (pre post : list node) (h : node) :
  Forall (fun x => isHandleSection s x = Normal false) pre ->
  isHandleSection s h = Abrupt ->
  findHandleSection (pre ++ h :: post) s = Abrupt.
Proof.
  intros Hpre Hh. induction Hpre as [|x pre Hx _ IH]; cbn [app findHandleSection].
  - by rewrite Hh.
  - by rewrite Hx, IH.
Qed.

(** The new element goes directly before the first handle section, and to
    the end when there is none; the exception of a selector that does not
    parse, at a section before any handle section, leaves the search. *)
Lemma insertBeforeHandle_found (x : node) (s : jsstring) (pre post : list node)
    (h : node) :
  Forall (fun y => isHandleSection s y = Normal false) pre ->
  isHandleSection s h = Normal true ->
  insertBeforeHandle x s (pre ++ h :: post) = Normal (pre ++ x :: h :: post).
Proof.
  intros Hpre Hh. unfold insertBeforeHandle.
  rewrite (findHandleSection_found _ _ _ _ Hpre Hh).
  by rewrite take_app_length, drop_app_length.
Qed.

Lemma insertBeforeHandle_none (x : node) (s : jsstring) (kids : list node) :
  Forall (fun y => isHandleSection s y = Normal false) kids ->
  insertBeforeHandle x s kids = Normal (kids ++ [x]).
Proof.
  intros Hk. unfold insertBeforeHandle. by rewrite (findHandleSection_none _ _ Hk).
Qed.

Lemma insertBeforeHandle_throws (x : node) (s : jsstring) (pre post : list node)
    (h : node) :
  Forall (fun y => isHandleSection s y = Normal false) pre ->
  isHandleSection s h = Abrupt ->
  insertBeforeHandle x s (pre ++ h :: post) = Abrupt.
Proof.
  intros Hpre Hh. unfold insertBeforeHandle.
  by rewrite (findHandleSection_throws _ _ _ _ Hpre Hh).
Qed.

(** For a name that stands for itself in the selector, a handle section
    is a section whose first link to [/name] reads [@name] once
    trimmed. *)
Lemma isHandleSection_safe (s : jsstring) (y : node) :
  selectorSafe (slash :: s) = true ->
  isHandleSection s y
  = Normal match y with
           | Div links =>
               match List.find (fun a => strictEq (href a) (slash :: s)) links with
               | Some link => strictEq (trim (textContent link)) (atSign :: s)
               | None => false
               end
           | _ => false
           end.
Proof.
  intros Hsafe. destruct y as [links|i sn|i| |text]; try done.
  unfold isHandleSection. rewrite (querySelector_literal _ _ Hsafe).
  by destruct (List.find _ links).
Qed.

(** X6. On a container without marker that has a user-name element,
    [addButtonToUsername] sets the marker ['button'], makes one new button
    for the name and looks for the handle section, asking every section in
    turn for the link the selector built from the name selects.  The
    button goes directly before the first section whose link reads
    [@name], the children before and after keeping their places, and
    becomes the last child when no section is one.  When the selector does
    not parse, the exception thrown at the first section leaves the call:
    the marker is set and no button is in the container.  For a name that
    stands for itself in the selector, the link asked for is the first
    link whose [href] is [/name]. *)
Theorem addButtonToUsername_position (c : container) (s : jsstring) (n : nat)
    (kids : list node) :
  flagSet c = false ->
  userName c = Some kids ->
  (forall pre h post,
     kids = pre ++ h :: post ->
     Forall (fun y => isHandleSection s y = Normal false) pre ->
     isHandleSection s h = Normal true ->
     addButtonToUsername c s n
     = (Container (Some (lit "button"))
          (Some (pre ++ LocationButton n s :: h :: post)), S n, Returns)) /\
  (Forall (fun y => isHandleSection s y = Normal false) kids ->
   addButtonToUsername c s n
   = (Container (Some (lit "button")) (Some (kids ++ [LocationButton n s])),
      S n, Returns)) /\
  (forall pre h post,
     kids = pre ++ h :: post ->
     Forall (fun y => isHandleSection s y = Normal false) pre ->
     isHandleSection s h = Abrupt ->
     addButtonToUsername c s n
     = (Container (Some (lit "button")) (Some kids), S n, Throws)) /\
  (selectorSafe (slash :: s) = true ->
   forall y,
     isHandleSection s y
     = Normal match y with
              | Div links =>
                  match List.find (fun a => strictEq (href a) (slash :: s)) links with
                  | Some link => strictEq (trim (textContent link)) (atSign :: s)
                  | None => false
                  end
              | _ => false
              end).
Proof.
  intros Hf Hk. unfold addButtonToUsername. rewrite Hf.
  destruct c as [f u]. cbn [setFlagAdded userName flagAdded createLocationButton] in *.
  subst u. split; [|split; [|split]].
  - intros pre h post -> Hpre Hh. by rewrite insertBeforeHandle_found.
  - intros Hnone. by rewrite insertBeforeHandle_none.
  - intros pre h post -> Hpre Hh. by rewrite (insertBeforeHandle_throws _ _ _ _ _ Hpre Hh).
  - intros Hsafe y. by apply isHandleSection_safe.
Qed.

(** X7. [addButtonToUsername] acts once: on any container, a second call,
    for whatever name, changes nothing and makes no button.  A container
    that has a marker already is left as it is.  A container without
    marker and without user-name element gets the marker ['button'] all
    the same, though no button is made for it. *)
Theorem addButtonToUsername_once (c : container) (s s' : jsstring) (n n' : nat) :
  addButtonToUsername (fst (fst (addButtonToUsername c s n))) s' n'
  = (fst (fst (addButtonToUsername c s n)), n', Returns) /\
  (flagSet c = true -> addButtonToUsername c s n = (c, n, Returns)) /\
  (flagSet c = false -> userName c = None ->
   addButtonToUsername c s n = (Container (Some (lit "button")) None, n, Returns)).
Proof.
  split; [|split].
  - pose proof (addButtonToUsername_flagSet c s n) as Hset.
    generalize dependent (fst (fst (addButtonToUsername c s n))). intros c' Hset.
    unfold addButtonToUsername. by rewrite Hset.
  - intros Hf. unfold addButtonToUsername. by rewrite Hf.
  - intros Hf Hu. unfold addButtonToUsername. rewrite Hf.
    destruct c as [f u]. cbn [setFlagAdded userName flagAdded] in *. by subst u.
Qed.

(** X8. [displayLocationInfo] overwrites whatever marker the container
    had.  Without a user-name element it leaves the marker ['failed'] and
    shows nothing.  With one it looks for the handle section as
    [addButtonToUsername] does, leaves the marker ['true'] and puts the
    wrapper built from the data directly before the first handle section,
    or last when no section is one, the other children keeping their
    places.  When the selector built from the name does not parse, the
    exception leaves the call: the marker stays ['processing'] and nothing
    is shown. *)
Theorem displayLocationInfo_outcome (c : container) (s : jsstring) (e : cacheEntry) :
  (userName c = None ->
   displayLocationInfo c s e = (Container (Some (lit "failed")) None, Returns)) /\
  (forall pre h post,
     userName c = Some (pre ++ h :: post) ->
     Forall (fun y => isHandleSection s y = Normal false) pre ->
     isHandleSection s h = Normal true ->
     displayLocationInfo c s e
     = (Container (Some (lit "true"))
          (Some (pre ++ FlagWrapper (bracketedText (info e)) :: h :: post)),
        Returns)) /\
  (forall kids,
     userName c = Some kids ->
     Forall (fun y => isHandleSection s y = Normal false) kids ->
     displayLocationInfo c s e
     = (Container (Some (lit "true"))
          (Some (kids ++ [FlagWrapper (bracketedText (info e))])), Returns)) /\
  (forall pre h post,
     userName c = Some (pre ++ h :: post) ->
     Forall (fun y => isHandleSection s y = Normal false) pre ->
     isHandleSection s h = Abrupt ->
     displayLocationInfo c s e
     = (Container (Some (lit "processing")) (Some (pre ++ h :: post)), Throws)).
Proof.
  destruct c as [f u]. unfold displayLocationInfo.
  cbn [setFlagAdded userName flagAdded buildBracketedDisplay].
  split; [|split; [|split]].
  - by intros ->.
  - intros pre h post -> Hpre Hh. by rewrite insertBeforeHandle_found.
  - intros kids -> Hnone. by rewrite insertBeforeHandle_none.
  - intros pre h post -> Hpre Hh.
    by rewrite (insertBeforeHandle_throws _ _ _ _ _ Hpre Hh).
Qed.

Lemma trimStart_head (c : N) (s : jsstring) :
  isWhiteSpace c = false -> trimStart (c :: s) = c :: s.
Proof. intros Hc. simpl. by rewrite Hc. Qed.

(** [@name] is what its own trimming gives when the name ends in no white
    space. *)
Lemma trim_handle (name : jsstring) :
  Forall (fun c => isWhiteSpace c = false) name ->
  trim (atSign :: name) = atSign :: name.
Proof.
  intros Hname. unfold trim. rewrite trimStart_head by done.
  assert (trimStart (rev (atSign :: name)) = rev (atSign :: name)) as ->.
  { destruct (rev (atSign :: name)) as [|c r] eqn:Hrev; [done|].
    apply trimStart_head.
    assert (c ∈ atSign :: name) as Hin.
    { apply list_elem_of_In, in_rev. rewrite Hrev. by left. }
    apply elem_of_cons in Hin as [->|Hin]; [done|].
    by apply (proj1 (Forall_forall _ _) Hname). }
  apply rev_involutive.
Qed.

(** The container [createMockTwitterContainer] builds for a name that
    stands for itself in a selector keeps the name as it is. *)
Lemma createMockTwitterContainer_safe (name : jsstring) :
  selectorSafe (slash :: name) = true ->
  createMockTwitterContainer name
  = Container None
      (Some [ Div [Anchor (slash :: name) (lit "Display Name")];
              Div [Anchor (slash :: name) (atSign :: name)] ]).
Proof.
  intros [Hwf _]%andb_true_iff. unfold createMockTwitterContainer.
  by rewrite (bool_decide_eq_true_1 _ Hwf).
Qed.

(** Between the two sections of the container [createMockTwitterContainer]
    builds for a name without white space that stands for itself in a
    selector. *)
Lemma insertBeforeHandle_mock (name : jsstring) (x : node) :
  Forall (fun c => isWhiteSpace c = false) name ->
  selectorSafe (slash :: name) = true ->
  insertBeforeHandle x name
    [ Div [Anchor (slash :: name) (lit "Display Name")];
      Div [Anchor (slash :: name) (atSign :: name)] ]
  = Normal [ Div [Anchor (slash :: name) (lit "Display Name")]; x;
             Div [Anchor (slash :: name) (atSign :: name)] ].
Proof.
  intros Hname Hsafe.
  assert (strictEq (slash :: name) (slash :: name) = true) as Hself
    by (by apply bool_decide_eq_true).
  assert (isHandleSection name (Div [Anchor (slash :: name) (lit "Display Name")])
          = Normal false) as Hd.
  { rewrite isHandleSection_safe by done. cbn [List.find href]. rewrite Hself.
    cbn [textContent]. done. }
  assert (isHandleSection name (Div [Anchor (slash :: name) (atSign :: name)])
          = Normal true) as Hh.
  { rewrite isHandleSection_safe by done. cbn [List.find href]. rewrite Hself.
    cbn [textContent]. rewrite trim_handle by done. f_equal.
    by apply bool_decide_eq_true. }
  apply (insertBeforeHandle_found x name
           [Div [Anchor (slash :: name) (lit "Display Name")]] []); [|done].
  by constructor.
Qed.

Lemma selectorSafe_wellFormed (name : jsstring) :
  selectorSafe (slash :: name) = true -> isWellFormed name = true.
Proof.
  intros [Hwf _]%andb_true_iff. apply bool_decide_eq_true in Hwf.
  rewrite toWellFormed_slash in Hwf. injection Hwf as Hwf.
  by apply bool_decide_eq_true.
Qed.

Lemma addButtonToUsername_mock (name : jsstring) (n : nat) :
  Forall (fun c => isWhiteSpace c = false) name ->
  selectorSafe (slash :: name) = true ->
  addButtonToUsername (createMockTwitterContainer name) name n
  = (Container (Some (lit "button"))
       (Some [ Div [Anchor (slash :: name) (lit "Display Name")];
               LocationButton n name;
               Div [Anchor (slash :: name) (atSign :: name)] ]), S n, Returns).
Proof.
  intros Hname Hsafe. rewrite (createMockTwitterContainer_safe _ Hsafe).
  unfold addButtonToUsername.
  cbn [flagSet flagAdded setFlagAdded userName createLocationButton].
  by rewrite insertBeforeHandle_mock.
Qed.

Lemma displayLocationInfo_mock (name : jsstring) (e : cacheEntry) :
  Forall (fun c => isWhiteSpace c = false) name ->
  selectorSafe (slash :: name) = true ->
  displayLocationInfo (createMockTwitterContainer name) name e
  = (Container (Some (lit "true"))
       (Some [ Div [Anchor (slash :: name) (lit "Display Name")];
               FlagWrapper (bracketedText (info e));
               Div [Anchor (slash :: name) (atSign :: name)] ]), Returns).
Proof.
  intros Hname Hsafe. rewrite (createMockTwitterContainer_safe _ Hsafe).
  unfold displayLocationInfo.
  cbn [flagAdded setFlagAdded userName buildBracketedDisplay].
  by rewrite insertBeforeHandle_mock.
Qed.

(** X9. On the container [createMockTwitterContainer] builds for a name
    without white space that stands for itself in a selector (no double
    quote, backslash, line break, NUL or lone surrogate), the button of
    [addButtonToUsername] and the wrapper of [displayLocationInfo] stand
    between the display-name section and the handle section. *)
Theorem mock_container_decorated_before_handle (name : jsstring) (n : nat)
    (e : cacheEntry) :
  Forall (fun c => isWhiteSpace c = false) name ->
  selectorSafe (slash :: name) = true ->
  addButtonToUsername (createMockTwitterContainer name) name n
  = (Container (Some (lit "button"))
       (Some [ Div [Anchor (slash :: name) (lit "Display Name")];
               LocationButton n name;
               Div [Anchor (slash :: name) (atSign :: name)] ]), S n, Returns) /\
  displayLocationInfo (createMockTwitterContainer name) name e
  = (Container (Some (lit "true"))
       (Some [ Div [Anchor (slash :: name) (lit "Display Name")];
               FlagWrapper (bracketedText (info e));
               Div [Anchor (slash :: name) (atSign :: name)] ]), Returns).
Proof.
  intros Hname Hsafe. split.
  - by apply addButtonToUsername_mock.
  - by apply displayLocationInfo_mock.
Qed.

End Decoration.

Section DecorationWitnesses.

Import Content.

Lemma addButtonToUsername_position_witness :
  addButtonToUsername (createMockTwitterContainer (lit "bob")) (lit "bob") 7
  = (Container (Some (lit "button"))
       (Some ([Div [Anchor (lit "/bob") (lit "Display Name")]]
              ++ LocationButton 7 (lit "bob")
              :: Div [Anchor (lit "/bob") (lit "@bob")] :: [])), 8%nat, Returns).
Proof.
  apply (proj1 (addButtonToUsername_position
                  (createMockTwitterContainer (lit "bob")) (lit "bob") 7
                  [Div [Anchor (lit "/bob") (lit "Display Name")];
                   Div [Anchor (lit "/bob") (lit "@bob")]]
                  ltac:(reflexivity) ltac:(reflexivity))).
  - reflexivity.
  - repeat constructor.
  - vm_compute. reflexivity.
Defined.

Lemma addButtonToUsername_once_witness :
  addButtonToUsername (Container None None) (lit "bob") 3
  = (Container (Some (lit "button")) None, 3%nat, Returns).
Proof.
  exact (proj2 (proj2 (addButtonToUsername_once (Container None None)
                         (lit "bob") (lit "bob") 3 3))
           ltac:(reflexivity) ltac:(reflexivity)).
Defined.

Lemma displayLocationInfo_outcome_witness :
  displayLocationInfo (createMockTwitterContainer (lit "bob")) (lit "bob")
    (CacheEntry mockLocationData None)
  = (Container (Some (lit "true"))
       (Some ([Div [Anchor (lit "/bob") (lit "Display Name")]]
              ++ FlagWrapper (bracketedText mockLocationData)
              :: Div [Anchor (lit "/bob") (lit "@bob")] :: [])), Returns).
Proof.
  apply (proj1 (proj2 (displayLocationInfo_outcome
                         (createMockTwitterContainer (lit "bob")) (lit "bob")
                         (CacheEntry mockLocationData None)))).
  - reflexivity.
  - repeat constructor.
  - vm_compute. reflexivity.
Defined.

Lemma mock_container_decorated_before_handle_witness :
  displayLocationInfo (createMockTwitterContainer (lit "bob")) (lit "bob")
    (CacheEntry mockLocationData None)
  = (Container (Some (lit "true"))
       (Some [ Div [Anchor (slash :: lit "bob") (lit "Display Name")];
               FlagWrapper (bracketedText mockLocationData);
               Div [Anchor (slash :: lit "bob") (atSign :: lit "bob")] ]), Returns).
Proof.
  refine (proj2 (mock_container_decorated_before_handle (lit "bob") 0
                   (CacheEntry mockLocationData None) _ _)).
  - repeat constructor.
  - reflexivity.
Defined.

End DecorationWitnesses.

Section Processing.

Import Content.

Context {engine : SelectorEngine}.

Lemma alreadyHandled_flagSet (c : container) :
  alreadyHandled (flagAdded c) = true -> flagSet c = true.
Proof.
  unfold flagSet. destruct (flagAdded c) as [[|x s]|]; [|done|done].
  vm_compute. discriminate.
Qed.

(** Every container that has a screen name leaves the loop body with a
    marker, however the body ends. *)
Lemma processContainer_flagSet (mode : jsval) (cache : gmap jsstring cacheEntry)
    (c : container) (n : nat) (s : jsstring) :
  extractUsernameFromContainer c = Some s ->
  flagSet (fst (fst (processContainer mode cache c n))) = true.
Proof.
  intros Hs. unfold processContainer. rewrite Hs.
  destruct (alreadyHandled (flagAdded c)) eqn:Hh; [by apply alreadyHandled_flagSet|].
  destruct (cache !! s) as [e|].
  - destruct (extractUsername_userName c s Hs) as [kids Hk].
    destruct (displayLocationInfo_cases c s e)
      as [[Hu _]|[(k & k' & _ & _ & ->)|(k & _ & _ & ->)]]; [congruence|done|done].
  - case_bool_decide; [done|]. apply addButtonToUsername_flagSet.
Qed.

Lemma processContainer_again (mode : jsval) (cache : gmap jsstring cacheEntry)
    (c : container) (n m : nat) :
  snd (processContainer mode cache c n) = Returns ->
  processContainer mode cache (fst (fst (processContainer mode cache c n))) m
  = (fst (fst (processContainer mode cache c n)), m, Returns).
Proof.
  intros Hret.
  destruct (extractUsernameFromContainer c) as [s|] eqn:Hs.
  2:{ unfold processContainer. rewrite Hs. cbn [fst]. by rewrite Hs. }
  destruct (alreadyHandled (flagAdded c)) eqn:Hh.
  { rewrite (processContainer_passes mode cache c n Hh). cbn [fst].
    by apply processContainer_passes. }
  destruct (cache !! s) as [e|] eqn:He.
  { rewrite (processContainer_cached mode cache c n s e Hs Hh He) in Hret |- *.
    cbn [fst snd] in *. apply processContainer_passes.
    destruct (extractUsername_userName c s Hs) as [kids Hk].
    by destruct (displayLocationInfo_shown c s e kids Hk Hret) as [-> _]. }
  assert (processContainer mode cache c n
          = if bool_decide (mode = JStr MODE_AUTO)
            then (setFlagAdded (Some (lit "processing")) c, n, Returns)
            else addButtonToUsername c s n) as Hp.
  { unfold processContainer. by rewrite Hs, Hh, He. }
  rewrite Hp in Hret |- *. case_bool_decide as Hm.
  { cbn [fst]. by apply processContainer_passes. }
  destruct (flagSet c) eqn:Hf.
  - assert (addButtonToUsername c s n = (c, n, Returns)) as ->.
    { unfold addButtonToUsername. by rewrite Hf. }
    cbn [fst]. unfold processContainer. rewrite Hs, Hh, He.
    rewrite bool_decide_eq_false_2 by done.
    unfold addButtonToUsername. by rewrite Hf.
  - apply processContainer_passes.
    by rewrite (addButtonToUsername_flag _ _ _ Hf).
Qed.

Lemma processContainers_again (mode : jsval) (cache : gmap jsstring cacheEntry)
    (doc : list bodyChild) (n m : nat) :
  snd (processContainers mode cache doc n) = Returns ->
  processContainers mode cache (fst (fst (processContainers mode cache doc n))) m
  = (fst (fst (processContainers mode cache doc n)), m, Returns).
Proof.
  revert n m. induction doc as [|[c|x] doc IH]; intros n m;
    cbn [processContainers]; [done| |].
  - pose proof (processContainer_again mode cache c n m) as Hc.
    destruct (processContainer mode cache c n) as [[c' n1] [|]]; [|done].
    pose proof (IH n1 m) as Hd.
    destruct (processContainers mode cache doc n1) as [[doc' n2] e2].
    cbn [fst snd] in *. intros ->. cbn [processContainers].
    by rewrite Hc, Hd.
  - pose proof (IH n m) as Hd.
    destruct (processContainers mode cache doc n) as [[doc' n2] e2].
    cbn [fst snd] in *. intros ->. cbn [processContainers]. by rewrite Hd.
Qed.

Lemma resetMockCache_again (cache : nat) (h : gmap nat (gmap jsstring cacheEntry)) :
  resetMockCache cache (resetMockCache cache h) = resetMockCache cache h.
Proof.
  unfold resetMockCache. rewrite !insert_insert_eq. done.
Qed.

(** X10. When [processUsernamesWithMode] has gone through the page
    without an exception, processing the page a second time with the same
    mode and cache changes nothing and ends without an exception: no
    container is decorated twice, no second button or wrapper is made, and
    the copy of the cache is the same. *)
Theorem processUsernamesWithMode_idempotent (mode : jsval) (cache : nat) (w : world) :
  processUsernamesWithModeEnds mode cache w = Returns ->
  processUsernamesWithModeCall mode cache (processUsernamesWithMode mode cache w)
  = (processUsernamesWithMode mode cache w, Returns).
Proof.
  destruct (processUsernamesWithMode_unfold mode cache w) as [-> ->].
  intros Hret. unfold processUsernamesWithModeCall.
  cbn [heap document nextId setHeap].
  rewrite resetMockCache_again.
  by rewrite (processContainers_again _ _ _ _ _ Hret).
Qed.

(** X11. After [processUsernamesWithMode], whatever the mode and the
    cache and however the call ends, every container of the page that has
    a screen name had that screen name before; and when the call has gone
    through the page without an exception, every such container carries a
    marker. *)
Theorem processUsernamesWithMode_marks_named (mode : jsval) (cache : nat)
    (w : world) (i : nat) (c' : container) (s : jsstring) :
  containersOf (document (processUsernamesWithMode mode cache w)) !! i = Some c' ->
  extractUsernameFromContainer c' = Some s ->
  (exists c, containersOf (document w) !! i = Some c /\
             extractUsernameFromContainer c = Some s) /\
  (processUsernamesWithModeEnds mode cache w = Returns -> flagSet c' = true).
Proof.
  intros Hi Hs.
  assert (exists c, containersOf (document w) !! i = Some c) as [c Hc].
  { destruct (processUsernamesWithMode_unfold mode cache w) as [Hw _].
    rewrite Hw in Hi. cbn [document] in Hi.
    by apply processContainers_from in Hi. }
  destruct (processUsernamesWithMode_lookup mode cache w i c Hc)
    as (c'' & Hi' & Hor & Hret).
  rewrite Hi in Hi'. injection Hi' as <-.
  assert (extractUsernameFromContainer c = Some s) as Hcs.
  { destruct Hor as [->|[n ->]]; [done|].
    by rewrite extractUsername_processContainer in Hs. }
  split; [by exists c|].
  intros Hends. destruct (Hret Hends) as (n & -> & _).
  by apply (processContainer_flagSet _ _ _ _ s).
Qed.



(** X13. Lookups are caused by clicks and by nothing else: along any run
    of the page the lookup function is asked once per click, for the name
    given with the click and in the order of the clicks, whatever it
    answers; processing the page, changing the mode, writing to a cache
    and the passing of time ask for nothing. *)
Theorem requests_are_clicks (respond : jsstring -> lookupOutcome)
    (es : list event) (w : world) :
  requestQueueForTest (run respond es w) = requestQueueForTest w ++ clicksOf es.
Proof.
  unfold run. revert w. induction es as [|e es IH]; intros w; simpl.
  - by rewrite app_nil_r.
  - rewrite IH. unfold clicksOf. simpl. rewrite app_assoc. f_equal.
    destruct e as [mode cache|newMode cache|button s|username loc cache|ms]; simpl.
    + by rewrite processUsernamesWithMode_requests, app_nil_r.
    + destruct (handleModeChange_frame newMode cache w) as (_ & _ & -> & _).
      by rewrite app_nil_r.
    + done.
    + by rewrite app_nil_r.
    + by rewrite app_nil_r.
Qed.

End Processing.

Section ProcessingWitnesses.

Import Content.

Lemma processUsernamesWithMode_idempotent_witness :
  processUsernamesWithModeCall (JStr MODE_MANUAL) 1
    (processUsernamesWithMode (JStr MODE_MANUAL) 1 (pageOf (lit "bob") ∅ 1000))
  = (processUsernamesWithMode (JStr MODE_MANUAL) 1 (pageOf (lit "bob") ∅ 1000),
     Returns).
Proof.
  apply (processUsernamesWithMode_idempotent (JStr MODE_MANUAL) 1
           (pageOf (lit "bob") ∅ 1000)).
  vm_compute. reflexivity.
Defined.

Lemma processUsernamesWithMode_marks_named_witness :
  flagSet (Container (Some (lit "processing"))
             (Some [ Div [Anchor (lit "/bob") (lit "Display Name")];
                     Div [Anchor (lit "/bob") (lit "@bob")] ])) = true.
Proof.
  apply (fun Hi Hs =>
           proj2 (processUsernamesWithMode_marks_named (JStr MODE_AUTO) 1
                    (pageOf (lit "bob") ∅ 1000) 0
                    (Container (Some (lit "processing"))
                       (Some [ Div [Anchor (lit "/bob") (lit "Display Name")];
                               Div [Anchor (lit "/bob") (lit "@bob")] ]))
                    (lit "bob") Hi Hs));
    vm_compute; reflexivity.
Defined.


End ProcessingWitnesses.

Section Clicks.

Import Content.

Context {engine : SelectorEngine}.

Lemma shimmersOfNodes_absent (sid : nat) (kids : list node) :
  sid ∉ shimmersOfNodes kids -> Forall (fun n => isShimmer sid n = false) kids.
Proof.
  induction kids as [|n kids IH]; intros Hno; constructor.
  - destruct n as [links|i s|i| |text]; simpl; try done.
    destruct (Nat.eqb_spec i sid) as [->|]; [|done].
    exfalso. apply Hno. simpl. by left.
  - apply IH. intros Hin. apply Hno. unfold shimmersOfNodes in *. simpl.
    apply elem_of_app. by right.
Qed.

Lemma spliceFirst_absent (p : node -> bool) (r kids : list node) :
  Forall (fun n => p n = false) kids -> spliceFirst p r kids = None.
Proof.
  induction 1 as [|n kids Hn _ IH]; simpl; [done|]. by rewrite Hn, IH.
Qed.

(** Whether an element is found does not depend on what replaces it. *)
Lemma spliceFirst_found (p : node -> bool) (r r' kids : list node) :
  spliceFirst p r kids = None -> spliceFirst p r' kids = None.
Proof.
  induction kids as [|n kids IH]; simpl; [done|].
  destruct (p n); [done|].
  destruct (spliceFirst p r kids); [done|]. intros _. by rewrite IH.
Qed.

(** Replacing a button by a new shimmer and then that shimmer by [x]
    comes to replacing the button by [x]. *)
Lemma spliceFirst_via_shimmer (b sid : nat) (x : node) (kids kids1 : list node) :
  Forall (fun n => isShimmer sid n = false) kids ->
  spliceFirst (isButton b) [LoadingShimmer sid] kids = Some kids1 ->
  spliceFirst (isShimmer sid) [x] kids1 = spliceFirst (isButton b) [x] kids.
Proof.
  intros Hno. revert kids1. induction Hno as [|n kids Hn _ IH]; intros kids1; simpl.
  - done.
  - destruct (isButton b n) eqn:Hb.
    + intros [= <-]. simpl. by rewrite Nat.eqb_refl.
    + destruct (spliceFirst (isButton b) [LoadingShimmer sid] kids) as [k|];
        [|done].
      intros [= <-]. simpl. rewrite Hn. by rewrite (IH k).
Qed.

Lemma spliceFirstDoc_via_shimmer (b sid : nat) (x : node) (doc : list bodyChild) :
  sid ∉ shimmersOf doc ->
  spliceFirstDoc (isShimmer sid) [x]
    (spliceFirstDoc (isButton b) [LoadingShimmer sid] doc)
  = spliceFirstDoc (isButton b) [x] doc.
Proof.
  induction doc as [|[c|n] doc IH]; intros Hno; simpl; [done| |].
  - assert (sid ∉ shimmersOfNodes (default [] (userName c))) as Hc.
    { intros Hin. apply Hno. simpl. apply elem_of_app. by left. }
    assert (sid ∉ shimmersOf doc) as Hd.
    { intros Hin. apply Hno. simpl. apply elem_of_app. by right. }
    apply shimmersOfNodes_absent in Hc.
    destruct (userName c) as [kids|] eqn:Hk; simpl in *.
    + destruct (spliceFirst (isButton b) [LoadingShimmer sid] kids) as [kids1|] eqn:Hs.
      * simpl. rewrite (spliceFirst_via_shimmer b sid x kids kids1 Hc Hs).
        destruct (spliceFirst (isButton b) [x] kids) as [kids2|] eqn:Hx; [done|].
        by rewrite (spliceFirst_found _ _ [LoadingShimmer sid] _ Hx) in Hs.
      * rewrite (spliceFirst_found _ _ [x] _ Hs). simpl. rewrite Hk. simpl.
        rewrite (spliceFirst_absent _ _ _ Hc). by rewrite IH.
    + rewrite Hk. simpl. by rewrite IH.
  - assert (sid ∉ shimmersOf doc) as Hd.
    { intros Hin. apply Hno. simpl. apply elem_of_app. by right. }
    destruct (isButton b n) eqn:Hb; simpl.
    + by rewrite Nat.eqb_refl.
    + destruct (isShimmer sid n) eqn:Hsh; [|by rewrite IH].
      exfalso. apply Hno. destruct n as [links|i s|i| |text]; try done.
      simpl in Hsh. apply Nat.eqb_eq in Hsh as ->. simpl. by left.
Qed.

Lemma spliceFirstDoc_absent (b : nat) (r : list node) (doc : list bodyChild) :
  b ∉ (buttonsOf doc).*1 -> spliceFirstDoc (isButton b) r doc = doc.
Proof.
  assert (forall kids, b ∉ (buttonsOfNodes kids).*1 ->
                       Forall (fun n => isButton b n = false) kids) as Hnodes.
  { induction kids as [|n kids IH]; intros Hno; constructor.
    - destruct n as [links|i s|i| |text]; simpl; try done.
      destruct (Nat.eqb_spec i b) as [->|]; [|done].
      exfalso. apply Hno. simpl. by left.
    - apply IH. intros Hin. apply Hno. unfold buttonsOfNodes in *. simpl.
      rewrite fmap_app. apply elem_of_app. by right. }
  induction doc as [|[c|n] doc IH]; intros Hno; simpl; [done| |].
  - assert (b ∉ (buttonsOfNodes (default [] (userName c))).*1) as Hc.
    { intros Hin. apply Hno. simpl. rewrite fmap_app. apply elem_of_app. by left. }
    assert (b ∉ (buttonsOf doc).*1) as Hd.
    { intros Hin. apply Hno. simpl. rewrite fmap_app. apply elem_of_app. by right. }
    apply Hnodes in Hc. destruct (userName c) as [kids|]; simpl in *.
    + by rewrite (spliceFirst_absent _ _ _ Hc), IH.
    + by rewrite IH.
  - assert (b ∉ (buttonsOf doc).*1) as Hd.
    { intros Hin. apply Hno. simpl. rewrite fmap_app. apply elem_of_app. by right. }
    destruct (isButton b n) eqn:Hb; [|by rewrite IH].
    exfalso. apply Hno. destruct n as [links|i s|i| |text]; try done.
    simpl in Hb. apply Nat.eqb_eq in Hb as ->. simpl. by left.
Qed.

(** X14. A click on a button, on a page that holds no element with the
    identity the new shimmer gets, ends with the result standing where the
    button stood: the flag wrapper built from the data when the lookup
    resolves with data, the error indicator when it resolves with nothing
    or rejects.  The rest of the page is as before and one new identity is
    used.  A click on a button that is not on the page leaves the page as
    it is, though the lookup is still made. *)
Theorem handleButtonClick_in_place (respond : jsstring -> lookupOutcome)
    (button : nat) (screenName : jsstring) (w : world) :
  nextId w ∉ shimmersOf (document w) ->
  let w' := handleButtonClick respond button screenName w in
  let shown :=
    match respond screenName with
    | Resolves (Some locationInfo) => FlagWrapper (bracketedText locationInfo)
    | Resolves None => ErrorIndicator
    | Rejects => ErrorIndicator
    end in
  document w' = spliceFirstDoc (isButton button) [shown] (document w) /\
  nextId w' = S (nextId w) /\
  (button ∉ (buttonsOf (document w)).*1 ->
   document w' = document w /\
   requestQueueForTest w' = requestQueueForTest w ++ [screenName]).
Proof.
  intros Hfresh. cbv zeta.
  assert (document (handleButtonClick respond button screenName w)
          = spliceFirstDoc (isButton button)
              [match respond screenName with
               | Resolves (Some locationInfo) => FlagWrapper (bracketedText locationInfo)
               | Resolves None => ErrorIndicator
               | Rejects => ErrorIndicator
               end] (document w)) as Hdoc.
  { unfold handleButtonClick, mockGetUserLocation, createLoadingShimmer.
    cbn [document setDocument setNextId setRequestQueueForTest].
    rewrite spliceFirstDoc_via_shimmer by done.
    by destruct (respond screenName) as [[l|]|]. }
  split; [done|]. split; [done|]. intros Hgone. split; [|done].
  rewrite Hdoc. by apply spliceFirstDoc_absent.
Qed.

(** X15. The click handler of the integration tests has no error
    indicator: under the same condition the result stands where the button
    stood when the lookup resolves with data, and otherwise the loading
    shimmer stays there. *)
Theorem integration_click_keeps_shimmer (respond : jsstring -> lookupOutcome)
    (button : nat) (screenName : jsstring) (w : world) :
  nextId w ∉ shimmersOf (document w) ->
  let w' := Integration.handleButtonClick respond button screenName w in
  document w'
  = spliceFirstDoc (isButton button)
      [match respond screenName with
       | Resolves (Some locationInfo) => FlagWrapper (bracketedText locationInfo)
       | Resolves None => LoadingShimmer (nextId w)
       | Rejects => LoadingShimmer (nextId w)
       end] (document w).
Proof.
  intros Hfresh. cbv zeta.
  unfold Integration.handleButtonClick, mockGetUserLocation, createLoadingShimmer.
  destruct (respond screenName) as [[l|]|];
    cbn [document setDocument setNextId setRequestQueueForTest requestQueueForTest];
    try done.
  by rewrite spliceFirstDoc_via_shimmer.
Qed.

Lemma getMap_resetMockCache_other (cache r : nat)
    (h : gmap nat (gmap jsstring cacheEntry)) :
  r <> mockLocationCache ->
  getMap r (resetMockCache cache h) = getMap r h.
Proof.
  intros Hr. unfold resetMockCache. by rewrite !getMap_insert_ne.
Qed.

(** X27. A [Map] other than [mockLocationCache] is written by
    [saveCacheEntry] and by nothing else: along a run of the page in which
    no result is saved to it, it keeps exactly its entries.  In particular
    a click does not store what the lookup answered, and processing the
    page writes to [mockLocationCache] only. *)
Theorem cache_written_by_saveCacheEntry_only (respond : jsstring -> lookupOutcome)
    (es : list event) (r : nat) (w : world) :
  r <> mockLocationCache ->
  forallb (fun e => match e with
                    | SaveCacheEntry _ _ cache => negb (Nat.eqb cache r)
                    | _ => true
                    end) es = true ->
  getMap r (heap (run respond es w)) = getMap r (heap w).
Proof.
  intros Hr. unfold run. revert w.
  induction es as [|e es IH]; intros w; cbn [foldl forallb]; [done|].
  intros [He Hes]%andb_true_iff. rewrite (IH _ Hes).
  destruct e as [mode cache|newMode cache|button s|username loc cache|ms];
    cbn [step].
  - destruct (processUsernamesWithMode_unfold mode cache w) as [-> _].
    cbn [heap]. by apply getMap_resetMockCache_other.
  - by destruct (handleModeChange_frame newMode cache w) as (-> & _).
  - done.
  - simpl. apply negb_true_iff, Nat.eqb_neq in He. by rewrite getMap_insert_ne.
  - done.
Qed.

(** X28. The whole manual flow on a page that holds one tweet of a
    name that is acceptable as a screen name, has no white space and
    stands for itself in a selector (no double quote, backslash, line
    break, NUL or lone surrogate), with nothing cached: processing in
    manual mode puts one button between the display-name section and the
    handle section; a click on it asks for the name once and leaves the
    result there, the flag wrapper or the error indicator.  The marker
    stays ['button'], so that processing the page again, in either mode,
    passes the container over. *)
Theorem manual_click_flow (respond : jsstring -> lookupOutcome) (name : jsstring)
    (now : Z) (mode : jsval) :
  Forall (fun c => c <> slash /\ c <> questionMark) name ->
  name ∉ excludedRoutes ->
  (1 <= length name <= 19)%nat ->
  Forall (fun c => isWhiteSpace c = false) name ->
  selectorSafe (slash :: name) = true ->
  let w1 := processUsernamesWithMode (JStr MODE_MANUAL) 1 (pageOf name ∅ now) in
  let w2 := handleButtonClick respond 0 name w1 in
  let shown :=
    match respond name with
    | Resolves (Some locationInfo) => FlagWrapper (bracketedText locationInfo)
    | Resolves None => ErrorIndicator
    | Rejects => ErrorIndicator
    end in
  document w1
  = [Tweet (Container (Some (lit "button"))
       (Some [ Div [Anchor (slash :: name) (lit "Display Name")];
               LocationButton 0 name;
               Div [Anchor (slash :: name) (atSign :: name)] ]))] /\
  document w2
  = [Tweet (Container (Some (lit "button"))
       (Some [ Div [Anchor (slash :: name) (lit "Display Name")];
               shown;
               Div [Anchor (slash :: name) (atSign :: name)] ]))] /\
  requestQueueForTest w2 = [name] /\
  document (processUsernamesWithMode mode 1 w2) = document w2 /\
  processUsernamesWithModeEnds (JStr MODE_MANUAL) 1 (pageOf name ∅ now) = Returns /\
  processUsernamesWithModeEnds mode 1 w2 = Returns.
Proof.
  intros Hchars Hex Hlen Hws Hsafe. cbv zeta.
  pose proof (selectorSafe_wellFormed _ Hsafe) as Hwf.
  destruct (processUsernamesWithMode_unfold (JStr MODE_MANUAL) 1 (pageOf name ∅ now))
    as [Hw1 Hends1].
  assert (processContainers (JStr MODE_MANUAL)
            (getMap mockLocationCache (resetMockCache 1 (heap (pageOf name ∅ now))))
            (document (pageOf name ∅ now)) (nextId (pageOf name ∅ now))
          = ([Tweet (Container (Some (lit "button"))
                (Some [ Div [Anchor (slash :: name) (lit "Display Name")];
                        LocationButton 0 name;
                        Div [Anchor (slash :: name) (atSign :: name)] ]))],
             1%nat, Returns)) as Hp.
  { unfold pageOf. cbn [heap document nextId processContainers].
    assert (getMap mockLocationCache (resetMockCache 1 {[ 1%nat := ∅ ]}) = ∅)
      as -> by (vm_compute; reflexivity).
    rewrite (processContainer_manual_miss ∅ (createMockTwitterContainer name) 0 name
               (extractUsername_mock_valid name Hwf Hchars Hex Hlen) eq_refl
               (lookup_empty _)).
    by rewrite addButtonToUsername_mock. }
  rewrite Hp in Hw1, Hends1. cbn [fst snd] in Hw1, Hends1. rewrite Hw1.
  split; [done|].
  set (w1 := World _ _ _ _ _ _).
  assert (document (handleButtonClick respond 0 name w1)
          = [Tweet (Container (Some (lit "button"))
               (Some [ Div [Anchor (slash :: name) (lit "Display Name")];
                       match respond name with
                       | Resolves (Some locationInfo) =>
                           FlagWrapper (bracketedText locationInfo)
                       | Resolves None => ErrorIndicator
                       | Rejects => ErrorIndicator
                       end;
                       Div [Anchor (slash :: name) (atSign :: name)] ]))]) as Hdoc.
  { unfold handleButtonClick, mockGetUserLocation, createLoadingShimmer, w1.
    cbn. by destruct (respond name) as [[l|]|]. }
  split; [exact Hdoc|]. split; [done|].
  destruct (processUsernamesWithMode_unfold mode 1
              (handleButtonClick respond 0 name w1)) as [-> ->].
  cbn [document]. rewrite Hdoc.
  cbn [processContainers]. rewrite processContainer_passes by reflexivity.
  done.
Qed.

End Clicks.


Section ClicksWitnesses.

Import Content.

Lemma handleButtonClick_in_place_witness :
  document (handleButtonClick (fun _ => Rejects) 0 (lit "bob")
              (processUsernamesWithMode (JStr MODE_MANUAL) 1
                 (pageOf (lit "bob") ∅ 1000)))
  = spliceFirstDoc (isButton 0) [ErrorIndicator]
      (document (processUsernamesWithMode (JStr MODE_MANUAL) 1
                   (pageOf (lit "bob") ∅ 1000))).
Proof.
  apply (fun H => proj1 (handleButtonClick_in_place (fun _ => Rejects) 0 (lit "bob")
                           (processUsernamesWithMode (JStr MODE_MANUAL) 1
                              (pageOf (lit "bob") ∅ 1000)) H)).
  vm_compute. intros Hin. by apply elem_of_nil in Hin.
Defined.

Lemma integration_click_keeps_shimmer_witness :
  document (Integration.handleButtonClick (fun _ => Rejects) 0 (lit "bob")
              (processUsernamesWithMode (JStr MODE_MANUAL) 1
                 (pageOf (lit "bob") ∅ 1000)))
  = spliceFirstDoc (isButton 0)
      [LoadingShimmer (nextId (processUsernamesWithMode (JStr MODE_MANUAL) 1
                                 (pageOf (lit "bob") ∅ 1000)))]
      (document (processUsernamesWithMode (JStr MODE_MANUAL) 1
                   (pageOf (lit "bob") ∅ 1000))).
Proof.
  apply (integration_click_keeps_shimmer (fun _ => Rejects) 0 (lit "bob")
           (processUsernamesWithMode (JStr MODE_MANUAL) 1
              (pageOf (lit "bob") ∅ 1000))).
  vm_compute. intros Hin. by apply elem_of_nil in Hin.
Defined.

Lemma cache_written_by_saveCacheEntry_only_witness :
  getMap 1 (heap (run (fun _ => Resolves (Some mockLocationData))
                    [ ProcessUsernames (JStr MODE_MANUAL) 1;
                      ButtonClick 0 (lit "bob") ]
                    (pageOf (lit "bob") ∅ 1000)))
  = getMap 1 (heap (pageOf (lit "bob") ∅ 1000)).
Proof.
  apply (cache_written_by_saveCacheEntry_only
           (fun _ => Resolves (Some mockLocationData))
           [ ProcessUsernames (JStr MODE_MANUAL) 1; ButtonClick 0 (lit "bob") ]
           1 (pageOf (lit "bob") ∅ 1000)).
  - discriminate.
  - reflexivity.
Defined.

Lemma manual_click_flow_witness :
  requestQueueForTest
    (handleButtonClick (fun _ => Rejects) 0 (lit "bob")
       (processUsernamesWithMode (JStr MODE_MANUAL) 1 (pageOf (lit "bob") ∅ 1000)))
  = [lit "bob"].
Proof.
  refine (proj1 (proj2 (proj2
    (manual_click_flow (fun _ => Rejects) (lit "bob") 1000 (JStr MODE_AUTO)
       _ _ _ _ _)))).
  - repeat constructor; vm_compute; discriminate.
  - intros Hin%arrayIncludes_elem. vm_compute in Hin. discriminate.
  - simpl. lia.
  - repeat constructor.
  - reflexivity.
Defined.

End ClicksWitnesses.

Section ModeChanges.

Import Content.

Context {engine : SelectorEngine}.

Lemma spliceFirst_split (p : node -> bool) (r pre post : list node) (x : node) :
  Forall (fun n => p n = false) pre -> p x = true ->
  spliceFirst p r (pre ++ x :: post) = Some (pre ++ r ++ post).
Proof.
  intros Hpre Hx. induction Hpre as [|n pre Hn _ IH]; simpl.
  - by rewrite Hx.
  - by rewrite Hn, IH.
Qed.

Lemma spliceFirst_inv (p : node -> bool) (r kids kids' : list node) :
  spliceFirst p r kids = Some kids' ->
  exists pre x post, kids = pre ++ x :: post /\ kids' = pre ++ r ++ post /\
    Forall (fun n => p n = false) pre /\ p x = true.
Proof.
  revert kids'. induction kids as [|n kids IH]; intros kids'; simpl; [done|].
  destruct (p n) eqn:Hn.
  - intros [= <-]. exists [], n, kids. by repeat split.
  - destruct (spliceFirst p r kids) as [k|]; [|done]. intros [= <-].
    destruct (IH k eq_refl) as (pre & x & post & -> & -> & Hpre & Hx).
    exists (n :: pre), x, post. repeat split; try done. by constructor.
Qed.

Lemma modeChangeContainers_lookup (cache : gmap jsstring cacheEntry)
    (doc : list bodyChild) (next : nat) (i : nat) (c : container) :
  containersOf doc !! i = Some c ->
  exists c',
    containersOf (fst (fst (modeChangeContainers cache doc next))) !! i = Some c' /\
    (c' = c \/ exists n, c' = fst (fst (modeChangeContainer cache c n))) /\
    (snd (modeChangeContainers cache doc next) = Returns ->
     exists n, c' = fst (fst (modeChangeContainer cache c n)) /\
               snd (modeChangeContainer cache c n) = Returns).
Proof.
  revert next i. induction doc as [|[c0|x] doc IH]; intros next i;
    cbn [modeChangeContainers containersOf flat_map app]; [done| |].
  - destruct (modeChangeContainer cache c0 next) as [[c0' n1] [|]] eqn:Hc0.
    + pose proof (IH n1) as IH1.
      destruct (modeChangeContainers cache doc n1) as [[doc' n2] x'].
      cbn [fst snd containersOf flat_map app] in *.
      destruct i as [|i]; cbn [lookup list_lookup].
      * intros [= <-]. exists c0'. split; [done|]. split.
        -- right. exists next. by rewrite Hc0.
        -- intros _. exists next. by rewrite Hc0.
      * apply IH1.
    + cbn [fst snd containersOf flat_map app].
      destruct i as [|i]; cbn [lookup list_lookup].
      * intros [= <-]. exists c0'. split; [done|]. split; [|done].
        right. exists next. by rewrite Hc0.
      * intros Hi. exists c. split; [done|]. split; [by left|done].
  - pose proof (IH next) as IH1.
    destruct (modeChangeContainers cache doc next) as [[doc' n2] x'].
    cbn [fst snd containersOf flat_map app] in *. apply IH1.
Qed.

Lemma handleModeChange_manual_unfold (newMode : jsval) (cache : nat) (w : world) :
  newMode <> JStr MODE_AUTO ->
  let r := modeChangeContainers (getMap cache (heap w)) (document w) (nextId w) in
  document (handleModeChange newMode cache w) = fst (fst r) /\
  handleModeChangeEnds newMode cache w = snd r.
Proof.
  intros Hmode. cbv zeta.
  unfold handleModeChange, handleModeChangeEnds, handleModeChangeCall.
  rewrite bool_decide_eq_false_2 by done.
  by destruct (modeChangeContainers _ _ _) as [[doc next] e].
Qed.

(** X16. Changing to any mode other than ['auto'] goes over the
    containers that have a screen name.  A container whose name has an
    entry in the cache given, or that shows no flag wrapper, is left as it
    is, however the call ends.  When the call has gone over the page
    without an exception, in a container that shows a wrapper and whose
    name has no entry the first wrapper is removed, the marker is
    ['button'] and a new button for the name stands where
    [addButtonToUsername] puts it in what remains: before the handle
    section the selector built from the name finds, or last. *)
Theorem handleModeChange_to_manual (newMode : jsval) (cache : nat) (w : world)
    (i : nat) (c : container) (s : jsstring) :
  newMode <> JStr MODE_AUTO ->
  containersOf (document w) !! i = Some c ->
  extractUsernameFromContainer c = Some s ->
  let w' := handleModeChange newMode cache w in
  (is_Some (getMap cache (heap w) !! s) \/
   Forall (fun n => isFlagWrapper n = false) (default [] (userName c)) ->
   containersOf (document w') !! i = Some c) /\
  (handleModeChangeEnds newMode cache w = Returns ->
   getMap cache (heap w) !! s = None ->
   forall pre text post,
     userName c = Some (pre ++ FlagWrapper text :: post) ->
     Forall (fun n => isFlagWrapper n = false) pre ->
     exists n kids',
       insertBeforeHandle (LocationButton n s) s (pre ++ post) = Normal kids' /\
       containersOf (document w') !! i
       = Some (Container (Some (lit "button")) (Some kids'))).
Proof.
  intros Hmode Hi Hs. cbv zeta.
  destruct (handleModeChange_manual_unfold newMode cache w Hmode) as [-> ->].
  destruct (modeChangeContainers_lookup (getMap cache (heap w)) (document w)
              (nextId w) i c Hi) as (c' & Hi' & Hor & Hret).
  rewrite Hi'. split.
  - intros Hkeep. destruct Hor as [->|[n ->]]; [done|].
    unfold modeChangeContainer. rewrite Hs. destruct Hkeep as [[e He]|Hnone].
    + rewrite He. by destruct (userName c ≫= spliceFirst isFlagWrapper []).
    + destruct (userName c) as [kids|]; simpl in *; [|done].
      by rewrite (spliceFirst_absent _ _ _ Hnone).
  - intros Hends He pre text post Hk Hpre.
    destruct (Hret Hends) as (n & -> & Hc).
    revert Hc. unfold modeChangeContainer. rewrite Hs, He, Hk. simpl.
    rewrite (spliceFirst_split isFlagWrapper [] pre post (FlagWrapper text) Hpre eq_refl).
    cbn [app].
    destruct (addButtonToUsername_cases (Container None (Some (pre ++ post))) s n)
      as [[Hf _]|[(_ & Hu & _)|[(k & k' & _ & Hu & Hins & ->)|(k & _ & _ & _ & ->)]]];
      [done|done| |done].
    intros _. injection Hu as <-. by exists n, k'.
Qed.

Lemma spliceFirst_button_inv (id : nat) (r kids kids' : list node) :
  spliceFirst (isButton id) r kids = Some kids' ->
  exists pre sn post,
    kids = pre ++ LocationButton id sn :: post /\ kids' = pre ++ r ++ post.
Proof.
  intros (pre & x & post & -> & -> & _ & Hx)%spliceFirst_inv.
  destruct x as [links|i sn|i| |text]; try done.
  simpl in Hx. apply Nat.eqb_eq in Hx as ->. by exists pre, sn, post.
Qed.

Lemma spliceFirst_button_none (id : nat) (r kids : list node) :
  spliceFirst (isButton id) r kids = None -> id ∉ (buttonsOfNodes kids).*1.
Proof.
  induction kids as [|n kids IH]; cbn [spliceFirst]; [by intros _ ?%elem_of_nil|].
  destruct (isButton id n) eqn:Hn; [done|].
  destruct (spliceFirst (isButton id) r kids); [done|]. intros _.
  change (n :: kids) with ([n] ++ kids).
  rewrite buttonsOfNodes_app, fmap_app, elem_of_app. intros [Hin|Hin].
  - destruct n as [links|i sn|i| |text]; simpl in Hin;
      try by apply elem_of_nil in Hin.
    apply list_elem_of_singleton in Hin as ->. simpl in Hn.
    by rewrite Nat.eqb_refl in Hn.
  - by apply IH.
Qed.

(** What removing a button leaves of a container: marker, screen name and
    every child that is not the button. *)
Lemma containersOf_spliceFirstDoc (id : nat) (doc : list bodyChild) :
  Forall2 (fun c' c =>
             flagAdded c' = flagAdded c /\
             extractUsernameFromContainer c' = extractUsernameFromContainer c /\
             forall x kids, isButton id x = false -> userName c = Some kids ->
               x ∈ kids -> exists kids', userName c' = Some kids' /\ x ∈ kids')
          (containersOf (spliceFirstDoc (isButton id) [] doc)) (containersOf doc).
Proof.
  assert (forall l : list container,
            Forall2 (fun c' c =>
              flagAdded c' = flagAdded c /\
              extractUsernameFromContainer c' = extractUsernameFromContainer c /\
              forall x kids, isButton id x = false -> userName c = Some kids ->
                x ∈ kids -> exists kids', userName c' = Some kids' /\ x ∈ kids')
              l l) as Hrefl.
  { intros l. apply Forall_Forall2_diag, Forall_forall. intros c _.
    split; [done|]. split; [done|]. intros x kids _ Hk Hx. by exists kids. }
  induction doc as [|[c|n] doc IH]; simpl; [constructor| |].
  - destruct (userName c) as [kids|] eqn:Hk; simpl.
    + destruct (spliceFirst (isButton id) [] kids) as [kids'|] eqn:Hs; simpl.
      * constructor; [|apply Hrefl].
        destruct (spliceFirst_button_inv _ _ _ _ Hs) as (pre & sn & post & -> & ->).
        split; [done|]. split.
        -- apply extractUsername_anchors. simpl. rewrite Hk. simpl.
           by rewrite !anchorsOf_app.
        -- intros x k Hx Hk' Hin. rewrite Hk in Hk'. injection Hk' as <-.
           exists (pre ++ [] ++ post). split; [done|].
           simpl. apply elem_of_app in Hin as [Hin|Hin]; apply elem_of_app;
             [by left|right].
           apply elem_of_cons in Hin as [->|Hin]; [|done].
           simpl in Hx. by rewrite Nat.eqb_refl in Hx.
      * constructor; [|done]. split; [done|]. split; [done|].
        intros x k _ Hk' Hx. by exists k.
    + constructor; [|done]. split; [done|]. split; [done|].
      intros x k _ Hk' Hx. by exists k.
  - destruct (isButton id n); simpl; [apply Hrefl|done].
Qed.

Lemma containersOf_updateContainer (j : nat) (f : container -> container)
    (doc : list bodyChild) :
  containersOf (updateContainer j f doc) = alter f j (containersOf doc).
Proof.
  revert j. induction doc as [|[c|n] doc IH]; intros j; simpl; [done| |].
  - destruct j as [|j]; simpl; [done|]. by rewrite IH.
  - apply IH.
Qed.

(** The position [findContainer] gives depends on the screen names of the
    containers only. *)
Lemma findContainer_containers (s : jsstring) (doc : list bodyChild) :
  findContainer s doc = findContainer s (map Tweet (containersOf doc)).
Proof.
  induction doc as [|[c|n] doc IH]; simpl; [done| |done].
  by rewrite IH.
Qed.

Lemma findContainer_same_names (s : jsstring) (doc' doc : list bodyChild) :
  Forall2 (fun c' c => extractUsernameFromContainer c' = extractUsernameFromContainer c)
          (containersOf doc') (containersOf doc) ->
  findContainer s doc' = findContainer s doc.
Proof.
  rewrite (findContainer_containers s doc'), (findContainer_containers s doc).
  induction 1 as [|c' c l' l Hc _ IH]; simpl; [done|]. by rewrite Hc, IH.
Qed.

Lemma findContainer_Some (s : jsstring) (doc : list bodyChild) (j : nat) :
  findContainer s doc = Some j ->
  exists c, containersOf doc !! j = Some c /\
            extractUsernameFromContainer c = Some s.
Proof.
  revert j. induction doc as [|[c|n] doc IH]; intros j; simpl; [done| |apply IH].
  case_bool_decide as Hc.
  - intros [= <-]. by exists c.
  - destruct (findContainer s doc) as [k|]; [|done]. intros [= <-].
    by apply IH.
Qed.

Lemma buttonsOf_updateContainer (j : nat) (f : container -> container)
    (doc : list bodyChild) :
  (forall c, buttonsOfNodes (default [] (userName (f c)))
             = buttonsOfNodes (default [] (userName c))) ->
  buttonsOf (updateContainer j f doc) = buttonsOf doc.
Proof.
  intros Hf. revert j. induction doc as [|[c|n] doc IH]; intros j; simpl; [done| |].
  - destruct j as [|j]; simpl; [by rewrite Hf|by rewrite IH].
  - by rewrite IH.
Qed.

Lemma buttonsOf_spliceFirstDoc (id : nat) (doc : list bodyChild) :
  buttonsOf (spliceFirstDoc (isButton id) [] doc) `sublist_of` buttonsOf doc /\
  (NoDup (buttonsOf doc).*1 ->
   id ∉ (buttonsOf (spliceFirstDoc (isButton id) [] doc)).*1).
Proof.
  induction doc as [|[c|n] doc [IHs IHn]]; simpl.
  - split; [done|]. by intros _ ?%elem_of_nil.
  - destruct (userName c) as [kids|] eqn:Hk; simpl.
    + destruct (spliceFirst (isButton id) [] kids) as [kids'|] eqn:Hs; simpl.
      * destruct (spliceFirst_button_inv _ _ _ _ Hs) as (pre & sn & post & -> & ->).
        simpl. rewrite !buttonsOfNodes_app. simpl. split.
        -- apply sublist_app; [|done]. apply sublist_app; [done|].
           by apply sublist_cons.
        -- rewrite !fmap_app. simpl. rewrite <- !app_assoc. simpl.
           intros Hnd Hin.
           apply NoDup_app in Hnd as (_ & Hpre & Hnd).
           apply NoDup_cons in Hnd as [Hnot _].
           rewrite !elem_of_app in Hin. destruct Hin as [Hin|[Hin|Hin]].
           ++ apply (Hpre id Hin). by left.
           ++ apply Hnot. apply elem_of_app. by left.
           ++ apply Hnot. apply elem_of_app. by right.
      * rewrite Hk. simpl. split; [by apply sublist_app|].
        rewrite !fmap_app. intros Hnd Hin.
        apply NoDup_app in Hnd as (_ & _ & Hnd).
        apply elem_of_app in Hin as [Hin|Hin]; [|by apply IHn].
        by apply (spliceFirst_button_none _ _ _ Hs).
    + rewrite Hk. simpl. split; [done|]. done.
  - destruct (isButton id n) eqn:Hn; simpl.
    + destruct n as [links|i sn|i| |text]; try done.
      simpl in Hn. apply Nat.eqb_eq in Hn as ->. simpl. split.
      * by apply sublist_cons.
      * by intros [Hnot _]%NoDup_cons.
    + split; [by apply sublist_app|].
      rewrite !fmap_app. intros Hnd Hin.
      apply NoDup_app in Hnd as (_ & _ & Hnd).
      apply elem_of_app in Hin as [Hin|Hin]; [|by apply IHn].
      destruct n as [links|i sn|i| |text]; simpl in Hin;
        try by apply elem_of_nil in Hin.
      apply list_elem_of_singleton in Hin as ->. simpl in Hn.
      by rewrite Nat.eqb_refl in Hn.
Qed.

Lemma modeChangeButton_document (cache : nat) (w : world) (id : nat) (s : jsstring) :
  document (fst (modeChangeButton cache w (id, s)))
  = if negb (nonEmpty s) then document w
    else match findContainer s (document w) with
         | None => document w
         | Some i =>
             updateContainer i
               (fun c => fst (modeChangeRedo (getMap cache (heap w) !! s) s c))
               (spliceFirstDoc (isButton id) [] (document w))
         end.
Proof.
  unfold modeChangeButton. destruct (negb (nonEmpty s)); [done|].
  by destruct (findContainer s (document w)).
Qed.

Lemma modeChangeButton_ends (cache : nat) (w : world) (id : nat) (s : jsstring) :
  snd (modeChangeButton cache w (id, s))
  = if negb (nonEmpty s) then Returns
    else match findContainer s (document w) with
         | None => Returns
         | Some i =>
             match containersOf (spliceFirstDoc (isButton id) [] (document w)) !! i with
             | Some c => snd (modeChangeRedo (getMap cache (heap w) !! s) s c)
             | None => Returns
             end
         end.
Proof.
  unfold modeChangeButton. destruct (negb (nonEmpty s)); [done|].
  by destruct (findContainer s (document w)).
Qed.

Lemma redo_buttons (o : option cacheEntry) (s : jsstring) (c : container) :
  buttonsOfNodes (default [] (userName (fst (modeChangeRedo o s c))))
  = buttonsOfNodes (default [] (userName c)).
Proof.
  unfold modeChangeRedo. destruct o as [e|]; [|by destruct c].
  destruct (displayLocationInfo_keeps (setFlagAdded None c) s e) as [_ ->].
  by destruct c.
Qed.

Lemma redo_name (o : option cacheEntry) (s : jsstring) (c : container) :
  extractUsernameFromContainer (fst (modeChangeRedo o s c))
  = extractUsernameFromContainer c.
Proof.
  unfold modeChangeRedo. destruct o as [e|]; [|by destruct c].
  destruct (displayLocationInfo_keeps (setFlagAdded None c) s e) as [-> _].
  by destruct c.
Qed.

Lemma redo_marker (o : option cacheEntry) (s s' : jsstring) (c : container) :
  extractUsernameFromContainer c = Some s' ->
  snd (modeChangeRedo o s c) = Returns ->
  let c' := fst (modeChangeRedo o s c) in
  flagAdded c'
  = Some (match o with Some _ => lit "true" | None => lit "processing" end) /\
  (forall e, o = Some e ->
     exists kids', userName c' = Some kids' /\
                   FlagWrapper (bracketedText (info e)) ∈ kids').
Proof.
  intros Hs Hret. destruct (extractUsername_userName c s' Hs) as [kids Hk].
  unfold modeChangeRedo in *. destruct o as [e|]; cbv zeta.
  - assert (userName (setFlagAdded None c) = Some kids) as Hk' by (by destruct c).
    destruct (displayLocationInfo_shown _ s e kids Hk' Hret)
      as (Hm & kids' & Hu & Hin & _).
    split; [done|]. intros e' [= <-]. by exists kids'.
  - by destruct c.
Qed.

(** One round of the loop over the buttons keeps the screen names of the
    containers, makes no button and uses no identity, however it ends;
    when it finds a container for the name, the button is gone. *)
Lemma modeChangeButton_round (cache : nat) (w : world) (id : nat) (s : jsstring) :
  let w' := fst (modeChangeButton cache w (id, s)) in
  Forall2 (fun c' c => extractUsernameFromContainer c' = extractUsernameFromContainer c)
          (containersOf (document w')) (containersOf (document w)) /\
  buttonsOf (document w') `sublist_of` buttonsOf (document w) /\
  nextId w' = nextId w /\
  (s <> [] -> findContainer s (document w) <> None ->
   NoDup (buttonsOf (document w)).*1 -> id ∉ (buttonsOf (document w')).*1).
Proof.
  cbv zeta.
  destruct (modeChangeButton_frame cache w (id, s)) as (_ & _ & _ & _ & Hnext).
  rewrite modeChangeButton_document.
  assert (Forall2 (fun c' c : container =>
                     extractUsernameFromContainer c' = extractUsernameFromContainer c)
            (containersOf (document w)) (containersOf (document w))) as Hrefl.
  { apply Forall_Forall2_diag, Forall_forall. done. }
  destruct s as [|x s]; simpl; [done|].
  destruct (findContainer (x :: s) (document w)) as [i|]; [|done].
  destruct (buttonsOf_spliceFirstDoc id (document w)) as [Hsub Hgone].
  rewrite containersOf_updateContainer, buttonsOf_updateContainer
    by (intros c; apply redo_buttons).
  split; [|by repeat split; auto].
  apply Forall2_alter_l.
  - eapply Forall2_impl; [apply containersOf_spliceFirstDoc|].
    by intros c' c (_ & Hn & _).
  - intros c' c _ _ <-. apply redo_name.
Qed.

Lemma modeChangeButtons_clear (cache : nat) (doc0 : list bodyChild)
    (buttons : list (nat * jsstring)) (w : world) :
  (forall s, findContainer s (document w) = findContainer s doc0) ->
  NoDup (buttonsOf (document w)).*1 ->
  let w' := fst (modeChangeButtons cache w buttons) in
  (forall id s, (id, s) ∈ buttonsOf (document w') ->
     (id, s) ∈ buttonsOf (document w) /\
     (snd (modeChangeButtons cache w buttons) = Returns ->
      (id, s) ∈ buttons -> s = [] \/ findContainer s doc0 = None)) /\
  nextId w' = nextId w /\
  (forall s, findContainer s (document w') = findContainer s doc0).
Proof.
  revert w. induction buttons as [|[id0 s0] buttons IH]; intros w Hnames Hnd;
    cbv zeta; cbn [modeChangeButtons].
  { split; [|done]. intros id s Hin. split; [done|]. by intros _ ?%elem_of_nil. }
  destruct (modeChangeButton_round cache w id0 s0) as (Hsame & Hsub & Hnext & Hgone).
  destruct (modeChangeButton cache w (id0, s0)) as [w1 [|]]; cbn [fst snd] in *.
  - destruct (IH w1) as (Hleft & Hn & Hfinal).
    { intros s. rewrite <- Hnames. by apply findContainer_same_names. }
    { eapply sublist_NoDup; [exact Hnd|]. by apply fmap_sublist. }
    split; [|split; [by rewrite Hn|done]].
    intros id s Hin. destruct (Hleft id s Hin) as [Hin1 Hrest].
    split; [by eapply elem_of_sublist|].
    intros Hret [Heq|Hin']%elem_of_cons; [|by apply Hrest].
    injection Heq as -> ->.
    destruct s0 as [|x s0]; [by left|]. right.
    destruct (findContainer (x :: s0) doc0) as [i|] eqn:Hf; [|done].
    exfalso. apply Hgone; [done|by rewrite Hnames, Hf|done|].
    apply list_elem_of_fmap. by exists (id0, x :: s0).
  - split; [|split; [done|]].
    + intros id s Hin. split; [by eapply elem_of_sublist|done].
    + intros s. rewrite <- Hnames. by apply findContainer_same_names.
Qed.

Lemma handleModeChange_auto_unfold (cache : nat) (w : world) :
  handleModeChange (JStr MODE_AUTO) cache w
  = fst (modeChangeButtons cache w (buttonsOf (document w))) /\
  handleModeChangeEnds (JStr MODE_AUTO) cache w
  = snd (modeChangeButtons cache w (buttonsOf (document w))).
Proof.
  unfold handleModeChange, handleModeChangeEnds, handleModeChangeCall.
  by rewrite bool_decide_eq_true_2.
Qed.

(** X17. Changing to ['auto'] on a page whose buttons are distinct
    elements makes no button and uses no identity, and the container found
    for a screen name is the one that was found for it before, however the
    call ends: a button on the page afterwards was there before.  When the
    call has gone over the buttons without an exception, every button
    whose screen name is the name of some container is removed: the name
    of a button still on the page is empty or the name of no container. *)
Theorem handleModeChange_to_auto_removes_buttons (cache : nat) (w : world) :
  NoDup (buttonsOf (document w)).*1 ->
  let w' := handleModeChange (JStr MODE_AUTO) cache w in
  (forall id s, (id, s) ∈ buttonsOf (document w') ->
     (id, s) ∈ buttonsOf (document w) /\
     (handleModeChangeEnds (JStr MODE_AUTO) cache w = Returns ->
      s = [] \/ findContainer s (document w) = None)) /\
  nextId w' = nextId w /\
  (forall s, findContainer s (document w') = findContainer s (document w)).
Proof.
  intros Hnd. cbv zeta.
  destruct (handleModeChange_auto_unfold cache w) as [-> ->].
  destruct (modeChangeButtons_clear cache (document w) (buttonsOf (document w)) w)
    as (Hleft & Hnext & Hnames); [done|done|].
  split; [|done]. intros id s Hin. destruct (Hleft id s Hin) as [Hin0 Hq].
  split; [done|]. intros Hret. by apply Hq.
Qed.

(** What one round of the loop over the buttons that ends without an
    exception does to the container at position [i], of screen name [s]:
    it keeps the name; when the round is for a button of that name and [i]
    is the first container of the name, the container gets the marker and,
    for a cached name, the wrapper; and a container that has them keeps
    them. *)
Lemma modeChangeButton_container (cache : nat) (w : world) (id : nat)
    (s2 : jsstring) (i : nat) (c : container) (s : jsstring) :
  containersOf (document w) !! i = Some c ->
  extractUsernameFromContainer c = Some s ->
  snd (modeChangeButton cache w (id, s2)) = Returns ->
  exists c',
    containersOf (document (fst (modeChangeButton cache w (id, s2)))) !! i = Some c' /\
    extractUsernameFromContainer c' = Some s /\
    forall o, o = getMap cache (heap w) !! s ->
      (s2 <> [] /\ findContainer s2 (document w) = Some i \/
       (flagAdded c
        = Some (match o with Some _ => lit "true" | None => lit "processing" end) /\
        forall e, o = Some e ->
          exists kids, userName c = Some kids /\
                       FlagWrapper (bracketedText (info e)) ∈ kids)) ->
      flagAdded c'
      = Some (match o with Some _ => lit "true" | None => lit "processing" end) /\
      forall e, o = Some e ->
        exists kids', userName c' = Some kids' /\
                      FlagWrapper (bracketedText (info e)) ∈ kids'.
Proof.
  intros Hi Hs. rewrite modeChangeButton_document, modeChangeButton_ends.
  destruct s2 as [|x s2]; cbn [nonEmpty negb].
  { intros _. exists c. split; [done|]. split; [done|].
    intros o _ [[Hne _]|HQ]; done. }
  destruct (findContainer (x :: s2) (document w)) as [j|] eqn:Hj.
  2:{ intros _. exists c. split; [done|]. split; [done|].
      intros o _ [[_ Hf]|HQ]; done. }
  destruct (Forall2_lookup_r _ _ _ i c (containersOf_spliceFirstDoc id (document w)) Hi)
    as (c1 & Hi1 & Hflag & Hname & Hkeep).
  rewrite containersOf_updateContainer.
  destruct (decide (j = i)) as [->|Hne].
  - rewrite list_lookup_alter_eq, Hi1. cbn [fmap option_fmap option_map].
    intros Hret. eexists. split; [reflexivity|].
    split; [by rewrite redo_name, Hname|].
    destruct (findContainer_Some _ _ _ Hj) as (c0 & Hi0 & Hs0).
    rewrite Hi in Hi0. injection Hi0 as <-. rewrite Hs in Hs0. injection Hs0 as Heq.
    intros o -> _. rewrite Heq.
    apply (redo_marker _ _ s); [by rewrite Hname|done].
  - intros _. rewrite list_lookup_alter_ne by done. exists c1. split; [done|].
    split; [by rewrite Hname|].
    intros o _ [[_ Hf]|[Hm Hw]]; [congruence|].
    split; [by rewrite Hflag|]. intros e He.
    destruct (Hw e He) as (kids & Hk & Hin). by apply (Hkeep _ kids).
Qed.

Lemma modeChangeButtons_keep (cache : nat) (buttons : list (nat * jsstring))
    (w : world) (i : nat) (c : container) (s : jsstring) :
  containersOf (document w) !! i = Some c ->
  extractUsernameFromContainer c = Some s ->
  flagAdded c
  = Some (match getMap cache (heap w) !! s with
          | Some _ => lit "true" | None => lit "processing" end) ->
  (forall e, getMap cache (heap w) !! s = Some e ->
     exists kids, userName c = Some kids /\
                  FlagWrapper (bracketedText (info e)) ∈ kids) ->
  snd (modeChangeButtons cache w buttons) = Returns ->
  exists c',
    containersOf (document (fst (modeChangeButtons cache w buttons))) !! i = Some c' /\
    extractUsernameFromContainer c' = Some s /\
    flagAdded c'
    = Some (match getMap cache (heap w) !! s with
            | Some _ => lit "true" | None => lit "processing" end) /\
    forall e, getMap cache (heap w) !! s = Some e ->
      exists kids', userName c' = Some kids' /\
                    FlagWrapper (bracketedText (info e)) ∈ kids'.
Proof.
  revert w c. induction buttons as [|[id0 s0] buttons IH]; intros w c Hi Hs Hm Hw;
    cbn [modeChangeButtons].
  { intros _. by exists c. }
  pose proof (modeChangeButton_container cache w id0 s0 i c s Hi Hs) as Hround.
  destruct (modeChangeButton_frame cache w (id0, s0)) as (Hheap & _).
  destruct (modeChangeButton cache w (id0, s0)) as [w1 [|]]; cbn [fst snd] in *;
    [|done].
  destruct (Hround eq_refl) as (c1 & Hi1 & Hs1 & HQ).
  destruct (HQ _ eq_refl) as [Hm1 Hw1]; [by right|].
  intros Hret. rewrite <- Hheap. apply (IH _ c1); by rewrite ?Hheap.
Qed.

Lemma modeChangeButtons_mark (cache : nat) (buttons : list (nat * jsstring))
    (w : world) (i id : nat) (s : jsstring) :
  (id, s) ∈ buttons -> s <> [] ->
  findContainer s (document w) = Some i ->
  snd (modeChangeButtons cache w buttons) = Returns ->
  exists c',
    containersOf (document (fst (modeChangeButtons cache w buttons))) !! i = Some c' /\
    extractUsernameFromContainer c' = Some s /\
    flagAdded c'
    = Some (match getMap cache (heap w) !! s with
            | Some _ => lit "true" | None => lit "processing" end) /\
    forall e, getMap cache (heap w) !! s = Some e ->
      exists kids', userName c' = Some kids' /\
                    FlagWrapper (bracketedText (info e)) ∈ kids'.
Proof.
  revert w. induction buttons as [|[id0 s0] buttons IH]; intros w Hin Hne Hf;
    cbn [modeChangeButtons].
  { by apply elem_of_nil in Hin. }
  destruct (findContainer_Some _ _ _ Hf) as (c & Hi & Hs).
  pose proof (modeChangeButton_container cache w id0 s0 i c s Hi Hs) as Hround.
  destruct (modeChangeButton_frame cache w (id0, s0)) as (Hheap & _).
  destruct (modeChangeButton_round cache w id0 s0) as (Hsame & _).
  destruct (modeChangeButton cache w (id0, s0)) as [w1 [|]]; cbn [fst snd] in *;
    [|done].
  destruct (Hround eq_refl) as (c1 & Hi1 & Hs1 & HQ).
  intros Hret. apply elem_of_cons in Hin as [Heq|Hin].
  - injection Heq as <- <-.
    destruct (HQ _ eq_refl) as [Hm1 Hw1]; [by left|].
    rewrite <- Hheap. apply (modeChangeButtons_keep _ _ _ _ c1); by rewrite ?Hheap.
  - rewrite <- Hheap. apply IH; [done|done| |done].
    rewrite <- Hf. by apply findContainer_same_names.
Qed.

(** X18. When changing to ['auto'] has gone over the buttons without an
    exception, the container of every named button that was on the page,
    the first container of that screen name, has the marker ['true'] and
    shows the wrapper built from the cached data when the name has an
    entry in the cache given, and has the marker ['processing'] when it
    has none. *)
Theorem handleModeChange_to_auto_marks (cache : nat) (w : world) (id i : nat)
    (s : jsstring) :
  (id, s) ∈ buttonsOf (document w) -> s <> [] ->
  findContainer s (document w) = Some i ->
  handleModeChangeEnds (JStr MODE_AUTO) cache w = Returns ->
  let w' := handleModeChange (JStr MODE_AUTO) cache w in
  exists c',
    containersOf (document w') !! i = Some c' /\
    extractUsernameFromContainer c' = Some s /\
    flagAdded c'
    = Some (match getMap cache (heap w) !! s with
            | Some _ => lit "true" | None => lit "processing" end) /\
    forall e, getMap cache (heap w) !! s = Some e ->
      exists kids', userName c' = Some kids' /\
                    FlagWrapper (bracketedText (info e)) ∈ kids'.
Proof.
  intros Hin Hne Hf. cbv zeta.
  destruct (handleModeChange_auto_unfold cache w) as [-> ->].
  by apply (modeChangeButtons_mark cache _ w i id s).
Qed.

End ModeChanges.

Section ModeChangesWitnesses.

Import Content.

Lemma handleModeChange_to_manual_witness :
  exists n kids',
    insertBeforeHandle (LocationButton n (lit "bob")) (lit "bob")
      ([Div [Anchor (lit "/bob") (lit "Display Name")]]
       ++ [Div [Anchor (lit "/bob") (lit "@bob")]]) = Normal kids' /\
    containersOf (document (handleModeChange (JStr MODE_MANUAL) 1
      (World [Tweet (Container (Some (lit "true"))
                (Some ([Div [Anchor (lit "/bob") (lit "Display Name")]]
                       ++ FlagWrapper (bracketedText mockLocationData)
                       :: [Div [Anchor (lit "/bob") (lit "@bob")]])))]
             ∅ ∅ [] 0 1000))) !! 0%nat
    = Some (Container (Some (lit "button")) (Some kids')).
Proof.
  refine (proj2 (handleModeChange_to_manual (JStr MODE_MANUAL) 1
                   (World [Tweet (Container (Some (lit "true"))
                             (Some ([Div [Anchor (lit "/bob") (lit "Display Name")]]
                                    ++ FlagWrapper (bracketedText mockLocationData)
                                    :: [Div [Anchor (lit "/bob") (lit "@bob")]])))]
                          ∅ ∅ [] 0 1000)
                   0
                   (Container (Some (lit "true"))
                      (Some ([Div [Anchor (lit "/bob") (lit "Display Name")]]
                             ++ FlagWrapper (bracketedText mockLocationData)
                             :: [Div [Anchor (lit "/bob") (lit "@bob")]])))
                   (lit "bob") _ _ _) _ _
            [Div [Anchor (lit "/bob") (lit "Display Name")]]
            (bracketedText mockLocationData)
            [Div [Anchor (lit "/bob") (lit "@bob")]] _ _).
  - discriminate.
  - reflexivity.
  - vm_compute. reflexivity.
  - vm_compute. reflexivity.
  - vm_compute. reflexivity.
  - reflexivity.
  - repeat constructor.
Defined.

Lemma handleModeChange_to_auto_removes_buttons_witness :
  nextId (handleModeChange (JStr MODE_AUTO) 1
            (processUsernamesWithMode (JStr MODE_MANUAL) 1
               (pageOf (lit "bob") ∅ 1000)))
  = nextId (processUsernamesWithMode (JStr MODE_MANUAL) 1
              (pageOf (lit "bob") ∅ 1000)).
Proof.
  refine (proj1 (proj2 (handleModeChange_to_auto_removes_buttons 1
                          (processUsernamesWithMode (JStr MODE_MANUAL) 1
                             (pageOf (lit "bob") ∅ 1000)) _))).
  vm_compute. repeat constructor. by intros ?%elem_of_nil.
Defined.

Lemma handleModeChange_to_auto_marks_witness :
  exists c',
    containersOf (document (handleModeChange (JStr MODE_AUTO) 1
      (processUsernamesWithMode (JStr MODE_MANUAL) 1
         (pageOf (lit "bob") ∅ 1000)))) !! 0%nat = Some c' /\
    extractUsernameFromContainer c' = Some (lit "bob").
Proof.
  destruct (handleModeChange_to_auto_marks 1
              (processUsernamesWithMode (JStr MODE_MANUAL) 1
                 (pageOf (lit "bob") ∅ 1000)) 0 0 (lit "bob"))
    as (c' & Hi & Hs & _).
  - vm_compute. by left.
  - discriminate.
  - vm_compute. reflexivity.
  - vm_compute. reflexivity.
  - by exists c'.
Defined.

End ModeChangesWitnesses.

Section PopupProperties.

Import Popup.

Lemma popup_keys_differ : TOGGLE_KEY <> MODE_KEY.
Proof. vm_compute. discriminate. Qed.

Lemma storedMode_lookup (st : gmap jsstring jsval) :
  storedMode st = orElse (st !! MODE_KEY) (JStr DEFAULT_MODE).
Proof.
  unfold storedMode. rewrite storage_get_lookup by (vm_compute; discriminate).
  rewrite decide_True; [done|]. right. by left.
Qed.

Lemma storedEnabled_lookup (st : gmap jsstring jsval) :
  storedEnabled st = definedOr (st !! TOGGLE_KEY) DEFAULT_ENABLED.
Proof.
  unfold storedEnabled. rewrite storage_get_lookup by (vm_compute; discriminate).
  rewrite decide_True; [done|]. by left.
Qed.

Lemma storedMode_truthy (st : gmap jsstring jsval) : truthy (storedMode st) = true.
Proof.
  rewrite storedMode_lookup. unfold orElse.
  destruct (st !! MODE_KEY) as [v|]; [|done].
  by destruct (truthy v) eqn:Hv.
Qed.

Lemma toggleClick_storage (w : world) :
  storage (toggleClick w)
  = <[TOGGLE_KEY := JBool (negb (truthy (storedEnabled (storage w))))]> (storage w).
Proof. unfold toggleClick, notifyActiveTab. by destruct (activeTab _). Qed.

Lemma toggleClick_ui (w : world) :
  ui (toggleClick w)
  = updateToggle (JBool (negb (truthy (storedEnabled (storage w))))) (ui w).
Proof. unfold toggleClick, notifyActiveTab. by destruct (activeTab _). Qed.

Lemma setMode_storage (newMode : jsval) (w : world) :
  storage (setMode newMode w) = <[MODE_KEY := newMode]> (storage w).
Proof. unfold setMode, notifyActiveTab. by destruct (activeTab _). Qed.

Lemma setMode_ui (newMode : jsval) (w : world) :
  ui (setMode newMode w) = updateModeUI newMode (ui w).
Proof. unfold setMode, notifyActiveTab. by destruct (activeTab _). Qed.

Lemma loadState_ui (w : world) :
  ui (loadState w)
  = updateModeUI (storedMode (storage w))
      (updateToggle (storedEnabled (storage w)) (ui w)).
Proof.
  unfold loadState. cbn [ui setUi]. fold (storedMode (storage w)).
  unfold loadMode. cbn [orElse]. rewrite storedMode_truthy.
  do 2 f_equal. rewrite storedEnabled_lookup.
  rewrite storage_get_lookup by (vm_compute; discriminate).
  rewrite decide_True; [done|]. by left.
Qed.

Lemma updateToggle_shows (isEnabled : jsval) (v : view) :
  let v' := updateToggle isEnabled v in
  toggleEnabled v' = truthy isEnabled /\
  statusText v'
  = (if toggleEnabled v' then lit "Extension is enabled"
     else lit "Extension is disabled") /\
  autoActive v' = autoActive v /\ manualActive v' = manualActive v.
Proof. cbv zeta. unfold updateToggle. by destruct (truthy isEnabled). Qed.

Lemma updateModeUI_shows (mode : jsval) (v : view) :
  let v' := updateModeUI mode v in
  autoActive v' = bool_decide (mode = JStr MODE_AUTO) /\
  manualActive v' = negb (autoActive v') /\
  toggleEnabled v' = toggleEnabled v /\ statusText v' = statusText v.
Proof. cbv zeta. unfold updateModeUI. by case_bool_decide. Qed.

Lemma storedMode_insert_mode (newMode : jsval) (st : gmap jsstring jsval) :
  storedMode (<[MODE_KEY := newMode]> st)
  = if truthy newMode then newMode else JStr DEFAULT_MODE.
Proof.
  rewrite storedMode_lookup, lookup_insert_eq. simpl. by destruct (truthy newMode).
Qed.

Lemma storedMode_insert_toggle (x : jsval) (st : gmap jsstring jsval) :
  storedMode (<[TOGGLE_KEY := x]> st) = storedMode st.
Proof.
  rewrite !storedMode_lookup, lookup_insert_ne; [done|]. apply popup_keys_differ.
Qed.

Lemma storedEnabled_insert_mode (x : jsval) (st : gmap jsstring jsval) :
  storedEnabled (<[MODE_KEY := x]> st) = storedEnabled st.
Proof.
  rewrite !storedEnabled_lookup, lookup_insert_ne; [done|].
  intros Heq. by apply popup_keys_differ.
Qed.

Lemma storedEnabled_insert_toggle (b : bool) (st : gmap jsstring jsval) :
  storedEnabled (<[TOGGLE_KEY := JBool b]> st) = JBool b.
Proof. by rewrite storedEnabled_lookup, lookup_insert_eq. Qed.

(** The view agrees with the storage: the active mode button is the one
    of the stored mode, the other is not active, and the toggle and the
    status line show the stored enabled state. *)
Lemma loadState_agrees (w : world) :
  let w' := loadState w in
  autoActive (ui w') = bool_decide (storedMode (storage w') = JStr MODE_AUTO) /\
  manualActive (ui w') = negb (autoActive (ui w')) /\
  toggleEnabled (ui w') = truthy (storedEnabled (storage w')) /\
  statusText (ui w')
  = (if toggleEnabled (ui w') then lit "Extension is enabled"
     else lit "Extension is disabled").
Proof.
  cbv zeta. rewrite loadState_ui.
  destruct (updateModeUI_shows (storedMode (storage w))
              (updateToggle (storedEnabled (storage w)) (ui w)))
    as (-> & -> & -> & ->).
  destruct (updateToggle_shows (storedEnabled (storage w)) (ui w))
    as (-> & -> & _).
  done.
Qed.

Lemma step_agrees (w : world) (e : event) :
  autoActive (ui w) = bool_decide (storedMode (storage w) = JStr MODE_AUTO) ->
  manualActive (ui w) = negb (autoActive (ui w)) ->
  toggleEnabled (ui w) = truthy (storedEnabled (storage w)) ->
  statusText (ui w)
  = (if toggleEnabled (ui w) then lit "Extension is enabled"
     else lit "Extension is disabled") ->
  let w' := step w e in
  autoActive (ui w') = bool_decide (storedMode (storage w') = JStr MODE_AUTO) /\
  manualActive (ui w') = negb (autoActive (ui w')) /\
  toggleEnabled (ui w') = truthy (storedEnabled (storage w')) /\
  statusText (ui w')
  = (if toggleEnabled (ui w') then lit "Extension is enabled"
     else lit "Extension is disabled").
Proof.
  intros Ha Hm Ht Hs. cbv zeta. destruct e; cbn [step].
  - rewrite toggleClick_ui, toggleClick_storage.
    rewrite storedMode_insert_toggle, storedEnabled_insert_toggle.
    destruct (updateToggle_shows
                (JBool (negb (truthy (storedEnabled (storage w))))) (ui w))
      as (-> & -> & -> & ->).
    done.
  - rewrite setMode_ui, setMode_storage.
    rewrite storedMode_insert_mode, storedEnabled_insert_mode.
    destruct (updateModeUI_shows (JStr MODE_AUTO) (ui w)) as (-> & -> & -> & ->).
    done.
  - rewrite setMode_ui, setMode_storage.
    rewrite storedMode_insert_mode, storedEnabled_insert_mode.
    destruct (updateModeUI_shows (JStr MODE_MANUAL) (ui w)) as (-> & -> & -> & ->).
    done.
Qed.

(** X19. From the moment the popup has opened and through any sequence
    of clicks on the toggle and the mode buttons, what the popup shows is
    what the storage holds: exactly one of the two mode buttons is active,
    the auto button when the stored mode reads as ['auto'] and the manual
    button otherwise, and the toggle and the status line show the stored
    enabled state. *)
Theorem popup_view_agrees_with_storage (es : list event) (w : world) :
  let w' := run es w in
  autoActive (ui w') = bool_decide (storedMode (storage w') = JStr MODE_AUTO) /\
  manualActive (ui w') = negb (autoActive (ui w')) /\
  toggleEnabled (ui w') = truthy (storedEnabled (storage w')) /\
  statusText (ui w')
  = (if toggleEnabled (ui w') then lit "Extension is enabled"
     else lit "Extension is disabled").
Proof.
  cbv zeta. unfold run.
  destruct (loadState_agrees w) as (Ha & Hm & Ht & Hs).
  generalize dependent (loadState w). clear w.
  induction es as [|e es IH]; intros w Ha Hm Ht Hs; cbn [foldl]; [done|].
  destruct (step_agrees w e Ha Hm Ht Hs) as (Ha' & Hm' & Ht' & Hs').
  by apply IH.
Qed.

(** X20. A mode chosen in the popup reaches the content script: after
    [setMode] with a truthy mode, [loadMode] of the content script, reading
    the same storage, gives that mode, and so does the popup when it is
    opened again, which then shows the auto button as active exactly when
    the mode is ['auto'].  The active tab, when there is one, is sent one
    [modeChange] message that carries the mode; without an active tab
    nothing is sent and the mode is stored all the same. *)
Theorem setMode_reaches_content_script (newMode : jsval) (pw : world)
    (cw : Content.world) :
  truthy newMode = true ->
  Content.mockStorage cw = storage (setMode newMode pw) ->
  fst (Content.loadMode cw) = newMode /\
  storedMode (storage (setMode newMode pw)) = newMode /\
  autoActive (ui (loadState (setMode newMode pw)))
  = bool_decide (newMode = JStr MODE_AUTO) /\
  sent (setMode newMode pw)
  = sent pw ++ match activeTab pw with
               | Some tab => [(tab, Message (lit "modeChange") newMode)]
               | None => []
               end.
Proof.
  intros Hm Hst. split; [|split; [|split]].
  - unfold Content.loadMode. rewrite storage_get_lookup by (vm_compute; discriminate).
    rewrite decide_True by (by left). rewrite Hst, setMode_storage.
    change Content.MODE_KEY with MODE_KEY. rewrite lookup_insert_eq. simpl.
    by rewrite Hm.
  - by rewrite setMode_storage, storedMode_insert_mode, Hm.
  - rewrite loadState_ui.
    destruct (updateModeUI_shows (storedMode (storage (setMode newMode pw)))
                (updateToggle (storedEnabled (storage (setMode newMode pw)))
                   (ui (setMode newMode pw)))) as (-> & _).
    by rewrite setMode_storage, storedMode_insert_mode, Hm.
  - unfold setMode, notifyActiveTab. cbn [activeTab setUi setStorage sent].
    destruct (activeTab pw); [done|]. by rewrite app_nil_r.
Qed.

Lemma setMode_reaches_content_script_witness :
  fst (Content.loadMode
         (Content.World [] ∅
            (storage (setMode (JStr MODE_MANUAL)
                        (World ∅ (View false [] [] false false) (Some 1%nat) [])))
            [] 0 0))
  = JStr MODE_MANUAL.
Proof.
  refine (proj1 (setMode_reaches_content_script (JStr MODE_MANUAL)
                   (World ∅ (View false [] [] false false) (Some 1%nat) [])
                   (Content.World [] ∅
                      (storage (setMode (JStr MODE_MANUAL)
                         (World ∅ (View false [] [] false false) (Some 1%nat) [])))
                      [] 0 0) _ _)); reflexivity.
Defined.

(** X21. A click on the toggle stores the opposite of the enabled state
    it reads, where a state that was never stored, or is stored as
    [undefined], reads as enabled: the first click after installation
    disables the extension, and two clicks give back the state read at the
    start.  The mode preference is not touched, and the active tab, when
    there is one, is sent one [extensionToggle] message with the new
    state. *)
Theorem toggleClick_flips (w : world) :
  storage (toggleClick w) !! TOGGLE_KEY
  = Some (JBool (negb (truthy (storedEnabled (storage w))))) /\
  (storage w !! TOGGLE_KEY = None ->
   storage (toggleClick w) !! TOGGLE_KEY = Some (JBool false)) /\
  storedEnabled (storage (toggleClick (toggleClick w)))
  = JBool (truthy (storedEnabled (storage w))) /\
  storage (toggleClick w) !! MODE_KEY = storage w !! MODE_KEY /\
  sent (toggleClick w)
  = sent w ++ match activeTab w with
              | Some tab =>
                  [(tab, Message (lit "extensionToggle")
                           (JBool (negb (truthy (storedEnabled (storage w))))))]
              | None => []
              end.
Proof.
  split; [|split; [|split; [|split]]].
  - by rewrite toggleClick_storage, lookup_insert_eq.
  - intros Hnone. rewrite toggleClick_storage, lookup_insert_eq.
    by rewrite storedEnabled_lookup, Hnone.
  - rewrite !toggleClick_storage, !storedEnabled_insert_toggle. cbn [truthy].
    by rewrite negb_involutive.
  - rewrite toggleClick_storage, lookup_insert_ne; [done|]. apply popup_keys_differ.
  - unfold toggleClick, notifyActiveTab. cbn [activeTab setUi setStorage sent].
    fold (storedEnabled (storage w)).
    destruct (activeTab w); [done|]. by rewrite app_nil_r.
Qed.

Lemma toggleClick_flips_witness :
  storage (toggleClick (World ∅ (View true [] [] true false) None []))
    !! TOGGLE_KEY
  = Some (JBool false).
Proof.
  exact (proj1 (proj2 (toggleClick_flips
                         (World ∅ (View true [] [] true false) None [])))
           (lookup_empty _)).
Defined.

Lemma notifyActiveTab_frame (m : message) (w : world) :
  activeTab (notifyActiveTab m w) = activeTab w /\
  sent (notifyActiveTab m w)
  = sent w ++ match activeTab w with Some tab => [(tab, m)] | None => [] end.
Proof.
  unfold notifyActiveTab. destruct (activeTab w) eqn:Ha; [done|].
  by rewrite app_nil_r.
Qed.

Lemma step_frame (w : world) (e : event) (k : jsstring) :
  k <> TOGGLE_KEY -> k <> MODE_KEY ->
  storage (step w e) !! k = storage w !! k /\
  activeTab (step w e) = activeTab w /\
  length (sent (step w e))
  = (length (sent w) + match activeTab w with Some _ => 1 | None => 0 end)%nat.
Proof.
  intros Ht Hm. split.
  { destruct e; cbn [step];
      rewrite ?toggleClick_storage, ?setMode_storage; by rewrite lookup_insert_ne. }
  assert (forall m w0, activeTab w0 = activeTab w -> sent w0 = sent w ->
            activeTab (notifyActiveTab m w0) = activeTab w /\
            length (sent (notifyActiveTab m w0))
            = (length (sent w)
               + match activeTab w with Some _ => 1 | None => 0 end)%nat) as Hn.
  { intros m w0 Ha Hs. destruct (notifyActiveTab_frame m w0) as [-> ->].
    rewrite Ha, Hs, length_app. split; [done|].
    destruct (activeTab w); simpl; lia. }
  destruct e; cbn [step]; unfold toggleClick, setMode; by apply Hn.
Qed.

(** X22. The popup writes two keys and no other: through opening and any
    sequence of clicks every other key of the storage keeps its value.
    Each click sends one message to the active tab when there is one, and
    none otherwise. *)
Theorem popup_touches_its_keys_only (es : list event) (w : world) (k : jsstring) :
  k <> TOGGLE_KEY -> k <> MODE_KEY ->
  storage (run es w) !! k = storage w !! k /\
  length (sent (run es w))
  = (length (sent w)
     + match activeTab w with Some _ => length es | None => 0 end)%nat.
Proof.
  intros Ht Hm. unfold run.
  change (storage w) with (storage (loadState w)).
  change (sent w) with (sent (loadState w)).
  change (activeTab w) with (activeTab (loadState w)).
  generalize (loadState w). clear w.
  induction es as [|e es IH]; intros w; cbn [foldl].
  - split; [done|]. destruct (activeTab w); simpl; lia.
  - destruct (step_frame w e k Ht Hm) as (Hs & Ha & Hl).
    destruct (IH (step w e)) as [-> ->]. rewrite Hs, Ha, Hl.
    split; [done|]. destruct (activeTab w); simpl; lia.
Qed.

Lemma popup_touches_its_keys_only_witness :
  storage (run [ClickManual; ClickToggle]
             (World {[ lit "twitter_location_cache" := JNum 1 ]}
                (View true [] [] true false) None []))
    !! lit "twitter_location_cache"
  = Some (JNum 1).
Proof.
  refine (eq_trans
    (proj1 (popup_touches_its_keys_only [ClickManual; ClickToggle]
              (World {[ lit "twitter_location_cache" := JNum 1 ]}
                 (View true [] [] true false) None [])
              (lit "twitter_location_cache") _ _)) _).
  - vm_compute. discriminate.
  - vm_compute. discriminate.
  - apply lookup_singleton_eq.
Defined.

End PopupProperties.

Section FlagProperties.

Import CountryFlags.

Variable toLowerCase : jsstring -> jsstring.

(** The UTF-16 form of a regional indicator: the high surrogate is the
    same for all 26, the low surrogate counts up from that of A. *)
Lemma fromCodePoint_regional (u : N) :
  65 <= u <= 90 ->
  fromCodePoint (0x1F1E6 + (u - 65)) = [0xD83C; 0xDDE6 + (u - 65)].
Proof.
  intros Hu.
  assert (exists n, (n <= 25)%nat /\ u - 65 = N.of_nat n) as (n & Hn & ->).
  { exists (N.to_nat (u - 65)). split; lia. }
  do 26 (destruct n as [|n]; [vm_compute; reflexivity|]). lia.
Qed.

(** X23. On a string of two capital letters A to Z [codeToFlag] gives
    the flag as four UTF-16 code units, the two regional indicators as
    surrogate pairs; on every other string it gives [null].  Different
    codes give different flags. *)
Theorem codeToFlag_regional_indicators (s : jsstring) :
  codeToFlag (VStr s)
  = match s with
    | [u1; u2] =>
        if (65 <=? u1) && (u1 <=? 90) && (65 <=? u2) && (u2 <=? 90)
        then Return (Some (VStr [0xD83C; 0xDDE6 + (u1 - 65);
                                 0xD83C; 0xDDE6 + (u2 - 65)]))
        else Return None
    | _ => Return None
    end /\
  (forall f t, codeToFlag (VStr s) = Return (Some f) ->
               codeToFlag (VStr t) = Return (Some f) -> s = t).
Proof.
  assert (forall r, codeToFlag (VStr r)
          = match r with
            | [u1; u2] =>
                if (65 <=? u1) && (u1 <=? 90) && (65 <=? u2) && (u2 <=? 90)
                then Return (Some (VStr [0xD83C; 0xDDE6 + (u1 - 65);
                                         0xD83C; 0xDDE6 + (u2 - 65)]))
                else Return None
            | _ => Return None
            end) as Hexact.
  { intros r. rewrite codeToFlag_string.
    destruct r as [|u1 [|u2 [|u3 r]]]; try done.
    destruct (N.leb_spec 65 u1), (N.leb_spec u1 90), (N.leb_spec 65 u2),
      (N.leb_spec u2 90); simpl; try done.
    by rewrite !fromCodePoint_regional. }
  split; [apply Hexact|].
  intros f t. rewrite (Hexact s), (Hexact t).
  destruct s as [|u1 [|u2 [|u3 s]]]; try done.
  destruct t as [|v1 [|v2 [|v3 t]]];
    destruct (N.leb_spec 65 u1), (N.leb_spec u1 90), (N.leb_spec 65 u2),
      (N.leb_spec u2 90); simpl; try done.
  destruct (N.leb_spec 65 v1), (N.leb_spec v1 90), (N.leb_spec 65 v2),
    (N.leb_spec v2 90); simpl; try done.
  intros [= <-] [= Heq1 Heq2]. f_equal; [lia|f_equal; lia].
Qed.


(** X24. Every country name written in [COUNTRY_FLAGS] has a flag:
    [getCountryFlag] of the name returns a non-empty string, never [null]
    and never an exception, and the string is the flag of the code the
    table gives for the name. *)
Theorem listed_countries_have_flags (name code : jsstring) :
  (name, code) ∈ COUNTRY_FLAGS ->
  exists flag,
    getCountryFlag toLowerCase (Some name) = Return (Some (VStr flag)) /\
    flag <> [] /\
    flagOfCode (VStr code) = Return (Some (VStr flag)).
Proof.
  intros Hin.
  assert (forallb (fun kc =>
            match getCountryFlag toLowerCase (Some (fst kc)),
                  flagOfCode (VStr (snd kc)) with
            | Return (Some (VStr f)), Return (Some (VStr f')) =>
                nonEmpty f && bool_decide (f = f')
            | _, _ => false
            end) COUNTRY_FLAGS = true) as Hall by (vm_compute; reflexivity).
  rewrite forallb_forall in Hall.
  specialize (Hall (name, code) (proj1 (list_elem_of_In _ _) Hin)).
  cbn [fst snd] in Hall.
  destruct (getCountryFlag toLowerCase (Some name)) as [[[f| |]|]|]; try done.
  destruct (flagOfCode (VStr code)) as [[[f'| |]|]|]; try done.
  apply andb_true_iff in Hall as [Hne Heq]. apply bool_decide_eq_true in Heq as <-.
  exists f. split; [done|]. split; [|done]. by destruct f.
Qed.

Lemma includes_empty (s : jsstring) : includes [] s = true.
Proof. by destruct s. Qed.

Lemma fallback_first (lower : jsstring) (pre post : list (jsstring * jsstring))
    (key code : jsstring) :
  forallb (fun kc => negb (matchesName toLowerCase lower (fst kc))) pre = true ->
  matchesName toLowerCase lower key = true ->
  fallback toLowerCase lower (pre ++ (key, code) :: post) = flagOfCode (VStr code).
Proof.
  intros Hpre Hkey. induction pre as [|[k c] pre IH]; cbn [app fallback].
  - by rewrite Hkey.
  - cbn [forallb fst] in Hpre. apply andb_true_iff in Hpre as [Hk Hpre].
    apply negb_true_iff in Hk. rewrite Hk. by apply IH.
Qed.

(** X25. A name that is not empty but consists of white space only is
    not rejected: trimmed it is the empty string, which every key
    contains, so [getCountryFlag] returns the flag of the first key of the
    table, Afghanistan. *)
Theorem blank_name_gets_first_flag (s : jsstring) :
  toLowerCase [] = [] ->
  nonEmpty s = true -> trim s = [] ->
  getCountryFlag toLowerCase (Some s)
  = Return (Some (VStr [0xD83C; 0xDDE6; 0xD83C; 0xDDEB])).
Proof.
  intros Hlow Hs Htrim. unfold getCountryFlag. rewrite Hs, Htrim, Hlow.
  cbn [negb].
  assert (getProp COUNTRY_FLAGS [] = None) as -> by (vm_compute; reflexivity).
  change COUNTRY_FLAGS
    with ([] ++ (lit "Afghanistan", lit "AF") :: tail COUNTRY_FLAGS).
  rewrite fallback_first; [by vm_compute|done|].
  unfold matchesName. by rewrite includes_empty, orb_true_r.
Qed.

(** X26. In the fallback the first key of the table that matches decides,
    whatever keys follow: for a name that is no property of the table, the
    result is the flag of the first key whose lower-case form equals the
    lower-case name, contains it or is contained in it.  So [nigeria] gets
    the flag of Niger, the key that stands before Nigeria. *)
Theorem fallback_first_match_decides (s : jsstring)
    (pre post : list (jsstring * jsstring)) (key code : jsstring) :
  nonEmpty s = true ->
  getProp COUNTRY_FLAGS (trim s) = None ->
  COUNTRY_FLAGS = pre ++ (key, code) :: post ->
  forallb (fun kc => negb (matchesName toLowerCase (toLowerCase (trim s)) (fst kc)))
          pre = true ->
  matchesName toLowerCase (toLowerCase (trim s)) key = true ->
  getCountryFlag toLowerCase (Some s) = flagOfCode (VStr code).
Proof.
  intros Hs Hown Htable Hpre Hkey. unfold getCountryFlag.
  rewrite Hs, Hown. cbn [negb]. rewrite Htable. by apply fallback_first.
Qed.

End FlagProperties.

Section FlagWitnesses.

Import CountryFlags.

Lemma codeToFlag_regional_indicators_witness :
  codeToFlag (VStr (lit "DE"))
  = Return (Some (VStr [0xD83C; 0xDDE9; 0xD83C; 0xDDEA])) /\
  (forall t, codeToFlag (VStr t)
             = Return (Some (VStr [0xD83C; 0xDDE9; 0xD83C; 0xDDEA])) ->
             lit "DE" = t).
Proof.
  split.
  - exact (proj1 (codeToFlag_regional_indicators (lit "DE"))).
  - intros t. apply (proj2 (codeToFlag_regional_indicators (lit "DE"))).
    vm_compute. reflexivity.
Defined.

Lemma blank_name_gets_first_flag_witness :
  getCountryFlag asciiToLowerCase (Some (lit "  "))
  = Return (Some (VStr [0xD83C; 0xDDE6; 0xD83C; 0xDDEB])).
Proof.
  apply (blank_name_gets_first_flag asciiToLowerCase (lit "  ")); reflexivity.
Defined.

Lemma listed_countries_have_flags_witness :
  exists flag,
    getCountryFlag asciiToLowerCase (Some (lit "Afghanistan"))
    = Return (Some (VStr flag)) /\
    flag <> [] /\
    flagOfCode (VStr (lit "AF")) = Return (Some (VStr flag)).
Proof.
  apply (listed_countries_have_flags asciiToLowerCase (lit "Afghanistan") (lit "AF")).
  by left.
Defined.

Lemma fallback_first_match_decides_witness :
  getCountryFlag asciiToLowerCase (Some (lit "nigeria"))
  = flagOfCode (VStr (lit "NE")).
Proof.
  apply (fallback_first_match_decides asciiToLowerCase (lit "nigeria")
           (take 128 COUNTRY_FLAGS) (drop 129 COUNTRY_FLAGS) (lit "Niger") (lit "NE"));
    vm_compute; reflexivity.
Defined.

End FlagWitnesses.
